(** * Documentation-index pipeline: a shallow embedding of the tools

    The TypeScript tools of the repository ([parse-markdown],
    [extract-all-apis], [fetch-all-docs], [analyze-repository],
    [scrape-documentation], [generate-output]) are transcribed as Rocq
    functions, one module per tool, and the properties of the written
    specification are stated and proved about them.

    Strings are JavaScript strings: finite sequences of UTF-16 code units,
    here [list N].  The host-language services the tools call (string
    methods, the backtracking regular-expression matcher, [JSON.parse]) are
    defined first, in module [JS]. *)

From Stdlib Require Import String Ascii NArith ZArith List Lia Bool Sorted.
From Stdlib Require QArith Qround.
From stdpp Require Import base option list gmap pretty.

Set Warnings "-comment-terminator-in-string".

Import ListNotations.
Local Open Scope N_scope.
Local Open Scope list_scope.

(** A JavaScript string. *)
Abbreviation jstring := (list N).

Module JS.

(** ** Literals *)

(** The code unit of an ASCII character. *)
Definition cu (a : ascii) : N := N_of_ascii a.

(** An ASCII literal as a JavaScript string. *)
Definition lit (s : string) : jstring := map N_of_ascii (list_ascii_of_string s).

(** Same, with every apostrophe standing for a double quote (JSON text). *)
Definition qlit (s : string) : jstring :=
  map (fun x => if x =? 39 then 34 else x) (lit s).

Definition LF : N := 10.
Definition CR : N := 13.
Definition nl : jstring := [LF].

(** ** Character classification *)

(** [LineTerminator]: LF, CR, U+2028, U+2029. *)
Definition isLineTerminator (x : N) : bool :=
  (x =? 10) || (x =? 13) || (x =? 8232) || (x =? 8233).

(** [WhiteSpace] or [LineTerminator]: what [\s] matches and [trim] strips. *)
Definition isSpace (x : N) : bool :=
  ((9 <=? x) && (x <=? 13)) || (x =? 32) || (x =? 160) || (x =? 5760)
  || ((8192 <=? x) && (x <=? 8202)) || (x =? 8232) || (x =? 8233)
  || (x =? 8239) || (x =? 8287) || (x =? 12288) || (x =? 65279).

Definition isDigit (x : N) : bool := (48 <=? x) && (x <=? 57).
Definition isUpper (x : N) : bool := (65 <=? x) && (x <=? 90).
Definition isLower (x : N) : bool := (97 <=? x) && (x <=? 122).

(** [\w] = [[A-Za-z0-9_]]. *)
Definition isWord (x : N) : bool :=
  isUpper x || isLower x || isDigit x || (x =? 95).

(** ** String methods *)

Definition eqs (a b : jstring) : bool := bool_decide (a = b).

Fixpoint startsWith (p s : jstring) : bool :=
  match p, s with
  | [], _ => true
  | x :: p', y :: s' => (x =? y) && startsWith p' s'
  | _ :: _, [] => false
  end.

Definition endsWith (p s : jstring) : bool := startsWith (rev p) (rev s).

(** [s.includes(p)]. *)
Fixpoint includes (p s : jstring) : bool :=
  startsWith p s || match s with [] => false | _ :: s' => includes p s' end.

Fixpoint trimStart (s : jstring) : jstring :=
  match s with
  | x :: s' => if isSpace x then trimStart s' else s
  | [] => []
  end.

Definition trimEnd (s : jstring) : jstring := rev (trimStart (rev s)).
Definition trim (s : jstring) : jstring := trimEnd (trimStart s).

(** [s.substring(0, n)] for [0 <= n]. *)
Definition substring0 (n : Z) (s : jstring) : jstring := take (Z.to_nat n) s.

(** [s.split(sep)] for a one-code-unit separator: never empty. *)
Fixpoint split (sep : N) (s : jstring) : list jstring :=
  match s with
  | [] => [[]]
  | x :: s' =>
      if x =? sep then [] :: split sep s'
      else match split sep s' with
           | cur :: more => (x :: cur) :: more
           | [] => [[x]]
           end
  end.

(** [parts.join(sep)]. *)
Fixpoint join (sep : jstring) (parts : list jstring) : jstring :=
  match parts with
  | [] => []
  | [p] => p
  | p :: more => p ++ sep ++ join sep more
  end.

(** [s.replace(pat, by)] with a string pattern: first occurrence only. *)
Fixpoint replaceFirst (pat by_ s : jstring) : jstring :=
  if startsWith pat s then by_ ++ drop (length pat) s
  else match s with
       | [] => []
       | x :: s' => x :: replaceFirst pat by_ s'
       end.

(** [s.toUpperCase()] and [s.toLowerCase()].  Exact on ASCII; code units
    above 127 go through the Unicode tables in JavaScript and are left in
    place here. *)
Definition upperUnit (x : N) : N := if isLower x then x - 32 else x.
Definition lowerUnit (x : N) : N := if isUpper x then x + 32 else x.
Definition toUpperCase (s : jstring) : jstring := map upperUnit s.
Definition toLowerCase (s : jstring) : jstring := map lowerUnit s.

(** [s.split('.').pop()]: the text after the last dot, or all of [s]. *)
Definition afterLastDot (s : jstring) : jstring :=
  List.last (split (cu ".") s) [].

(** ** Loops that can throw

    [for (const x of xs) body]: [None] is a thrown exception, which ends
    the loop. *)
Fixpoint forEach {S A} (body : S -> A -> option S) (st : S) (xs : list A) : option S :=
  match xs with
  | [] => Some st
  | x :: xs' => st' ← body st x; forEach body st' xs'
  end.

(** ** Removing repeats with a [seen] set

    What the deduplication loops of the tools compute, written by
    recursion: an element is kept when its key was not met before. *)
Section KeepNew.
Context {A : Type} (key : A -> jstring).

Fixpoint keepNew (xs : list A) (seen : gset jstring) : list A :=
  match xs with
  | [] => []
  | x :: rest =>
      if decide (key x ∈ seen) then keepNew rest seen
      else x :: keepNew rest ({[key x]} ∪ seen)
  end.

Definition sameKey (x y : A) : bool := eqs (key x) (key y).
End KeepNew.

(** ** Regular expressions

    The patterns of the tools, as syntax trees, and the backtracking
    matcher of the language (leftmost match, alternatives in order,
    greedy and lazy repetition, numbered capture groups). *)

(** A member of a bracketed class. *)
Inductive cls :=
| One (x : N)            (* a single code unit *)
| Rng (lo hi : N)        (* lo-hi *)
| ClsW                   (* \w *)
| ClsD                   (* \d *)
| ClsS                   (* \s *)
| ClsNotS.               (* \S *)

Inductive re :=
| Eps
| Set_ (neg : bool) (items : list cls)     (* [...] and [^...]; atoms *)
| Dot                                      (* . *)
| Cat (r1 r2 : re)
| Alt (r1 r2 : re)
| Rep (r : re) (lo : nat) (hi : option nat) (greedy : bool)
| Cap (i : nat) (r : re)                   (* i-th capturing group *)
| Bol                                      (* ^ *)
| Eol.                                     (* $ *)

Definition inCls (x : N) (k : cls) : bool :=
  match k with
  | One y => x =? y
  | Rng lo hi => (lo <=? x) && (x <=? hi)
  | ClsW => isWord x
  | ClsD => isDigit x
  | ClsS => isSpace x
  | ClsNotS => negb (isSpace x)
  end.

(** A position in the subject: index, previous unit, remaining units. *)
Record pos := { idx : nat; prev : option N; rest : jstring }.

Definition start (s : jstring) : pos := {| idx := 0; prev := None; rest := s |}.

Definition advance (p : pos) : option (N * pos) :=
  match rest p with
  | x :: xs => Some (x, {| idx := S (idx p); prev := Some x; rest := xs |})
  | [] => None
  end.

(** Capture registers: [caps !! i] is group [i]; unset groups are [None]
    ([undefined] in the match array). *)
Abbreviation caps := (list (option jstring)).

(** The capture indices inside a pattern: a repetition clears them at the
    start of every iteration. *)
Fixpoint groupsOf (r : re) : list nat :=
  match r with
  | Cat r1 r2 | Alt r1 r2 => groupsOf r1 ++ groupsOf r2
  | Rep r1 _ _ _ => groupsOf r1
  | Cap i r1 => i :: groupsOf r1
  | _ => []
  end.

(** The highest capture index of a pattern. *)
Definition groupCount (r : re) : nat := fold_right Nat.max O (groupsOf r).

Definition clearGroups (gs : list nat) (c : caps) : caps :=
  fold_left (fun c i => <[i := None]> c) gs c.

Definition belowMax (n : nat) (hi : option nat) : bool :=
  match hi with Some h => (n <? h)%nat | None => true end.

Definition orElse {A} (a b : option A) : option A :=
  match a with Some _ => a | None => b end.

(** Membership under the [i] flag: a unit matches when one of its case
    variants does.  Exact for classes whose members are ASCII, which is
    the case of every pattern that carries the flag. *)
Definition inClsAnyCase (x : N) (k : cls) : bool :=
  inCls x k || inCls (upperUnit x) k || inCls (lowerUnit x) k.

(** A continuation of the matcher, and a matcher in that style. *)
Abbreviation cont := (pos -> caps -> option (pos * caps)).

Section Iter.
(** The repeated pattern, the groups it clears, the bounds and the
    greediness of a quantifier, and what follows it. *)
Variable body : pos -> caps -> cont -> option (pos * caps).
Variable gs : list nat.
Variable lo : nat.
Variable hi : option nat.
Variable greedy : bool.
Variable k : cont.

(** The iterations of a quantifier, [n] of them done.  Once the minimum
    is reached an iteration that consumes nothing is rejected; each
    iteration below the minimum or consuming a unit uses one unit of
    fuel. *)
Fixpoint iter (fuel n : nat) (p : pos) (c : caps) {struct fuel} : option (pos * caps) :=
  match fuel with
  | O => None
  | S fuel' =>
      let stop := if (lo <=? n)%nat then k p c else None in
      let more :=
        if belowMax n hi then
          body p (clearGroups gs c) (fun p' c' =>
            if (lo <=? n)%nat && (idx p' =? idx p)%nat then None
            else iter fuel' (S n) p' c')
        else None in
      if greedy then orElse more stop else orElse stop more
  end.
End Iter.

Section Matcher.
(** The [m] flag: [^] and [$] also match next to line terminators. *)
Variable multiline : bool.
(** The [i] flag. *)
Variable ignoreCase : bool.

Definition member (x : N) (k : cls) : bool :=
  if ignoreCase then inClsAnyCase x k else inCls x k.

Definition atBol (p : pos) : bool :=
  match prev p with
  | None => true
  | Some x => multiline && isLineTerminator x
  end.

Definition atEol (p : pos) : bool :=
  match rest p with
  | [] => true
  | x :: _ => multiline && isLineTerminator x
  end.

(** [mre r p c k]: match [r] at [p] with registers [c], then continue
    with [k]; [None] is failure, which makes the caller backtrack. *)
Fixpoint mre (r : re) (p : pos) (c : caps) (k : cont) {struct r}
    : option (pos * caps) :=
  match r with
  | Eps => k p c
  | Set_ neg items =>
      match advance p with
      | Some (x, p') => if xorb neg (existsb (member x) items) then k p' c else None
      | None => None
      end
  | Dot =>
      match advance p with
      | Some (x, p') => if isLineTerminator x then None else k p' c
      | None => None
      end
  | Cat r1 r2 => mre r1 p c (fun p' c' => mre r2 p' c' k)
  | Alt r1 r2 => orElse (mre r1 p c k) (mre r2 p c k)
  | Cap i r1 =>
      mre r1 p c (fun p' c' =>
        k p' (<[i := Some (take (idx p' - idx p) (rest p))]> c'))
  | Rep r1 lo hi greedy =>
      iter (mre r1) (groupsOf r1) lo hi greedy k (S (lo + length (rest p))) O p c
  | Bol => if atBol p then k p c else None
  | Eol => if atEol p then k p c else None
  end.

(** A successful match: where it starts and ends, its text ([m[0]]) and
    the registers of the groups. *)
Record rmatch := { m_index : nat; m_end : pos; m_text : jstring; m_groups : caps }.

Definition matchAt (r : re) (p : pos) : option rmatch :=
  match mre r p (replicate (S (groupCount r)) None) (fun p' c' => Some (p', c')) with
  | Some (p', c') =>
      Some {| m_index := idx p; m_end := p';
              m_text := take (idx p' - idx p) (rest p); m_groups := c' |}
  | None => None
  end.

(** [r.exec] from a position: the leftmost match at or after it. *)
Fixpoint searchFrom (r : re) (i : nat) (pv : option N)
    (s : jstring) {struct s} : option rmatch :=
  match matchAt r {| idx := i; prev := pv; rest := s |} with
  | Some m => Some m
  | None =>
      match s with
      | [] => None
      | x :: s' => searchFrom r (S i) (Some x) s'
      end
  end.

Definition search (r : re) (p : pos) : option rmatch :=
  searchFrom r (idx p) (prev p) (rest p).

(** The matches of a [g]-flagged pattern, as [while ((m = r.exec(s)) !==
    null)] and [s.match(r)] enumerate them: each search resumes where
    the previous match ended.  Every pattern of the tools consumes at
    least one code unit per match (see [nullable]), so the loop advances;
    the fuel is the number of units left. *)
Fixpoint matchesFrom (fuel : nat) (r : re) (p : pos) : list rmatch :=
  match fuel with
  | O => []
  | S fuel' =>
      match search r p with
      | Some m =>
          m :: (if (idx (m_end m) <=? idx p)%nat then []
                else matchesFrom fuel' r (m_end m))
      | None => []
      end
  end.

Definition execAll (r : re) (s : jstring) : list rmatch :=
  matchesFrom (S (length s)) r (start s).

(** [s.match(r)] without the [g] flag, and [r.exec(s)] on a fresh
    pattern: the first match. *)
Definition execFirst (r : re) (s : jstring) : option rmatch :=
  search r (start s).
End Matcher.

(** [m[i]] for a group [i >= 1]: [None] is [undefined]. *)
Definition group (m : rmatch) (i : nat) : option jstring :=
  default None (m_groups m !! i).

(** A conservative test for patterns that can match the empty string. *)
Fixpoint nullable (r : re) : bool :=
  match r with
  | Eps | Bol | Eol => true
  | Set_ _ _ | Dot => false
  | Cat r1 r2 => nullable r1 && nullable r2
  | Alt r1 r2 => nullable r1 || nullable r2
  | Rep r1 lo _ _ => (lo =? 0)%nat || nullable r1
  | Cap _ r1 => nullable r1
  end.

(** [q] is [p] or a position after it in the same subject. *)
Definition reach (p q : pos) : Prop :=
  (idx p <= idx q)%nat /\
  (idx q + length (rest q) = idx p + length (rest p))%nat.

(** A matcher in continuation style calls its continuation at a
    reachable position, further on when [nb] (is the pattern nullable)
    is [false]. *)
Definition advances (nb : bool) (body : pos -> caps -> cont -> option (pos * caps)) : Prop :=
  forall p c k res, body p c k = Some res ->
    exists p' c', reach p p' /\ k p' c' = Some res /\
                  (nb = false -> (idx p < idx p')%nat).

(** It depends on its continuation at reachable positions only. *)
Definition local (body : pos -> caps -> cont -> option (pos * caps)) : Prop :=
  forall p c (k1 k2 : cont),
    (forall p' c', reach p p' -> k1 p' c' = k2 p' c') ->
    body p c k1 = body p c k2.

(** *** What a match is

    A successful match of a pattern, by the rules of the language: where
    it starts and ends and what it does to the capture registers.  A
    quantifier [r{lo,hi}] stops when [lo] is zero, or matches [r] once
    (on cleared registers) and goes on as [r{lo-1,hi-1}]. *)
Section Matches.
Variable multiline : bool.
Variable ignoreCase : bool.

Inductive matches : re -> pos -> caps -> pos -> caps -> Prop :=
| MEps p c : matches Eps p c p c
| MSet neg items p c x p' :
    advance p = Some (x, p') ->
    xorb neg (existsb (member ignoreCase x) items) = true ->
    matches (Set_ neg items) p c p' c
| MDot p c x p' :
    advance p = Some (x, p') -> isLineTerminator x = false ->
    matches Dot p c p' c
| MCat r1 r2 p c p1 c1 p2 c2 :
    matches r1 p c p1 c1 -> matches r2 p1 c1 p2 c2 ->
    matches (Cat r1 r2) p c p2 c2
| MAltL r1 r2 p c p' c' : matches r1 p c p' c' -> matches (Alt r1 r2) p c p' c'
| MAltR r1 r2 p c p' c' : matches r2 p c p' c' -> matches (Alt r1 r2) p c p' c'
| MCap i r p c p' c' :
    matches r p c p' c' ->
    matches (Cap i r) p c p' (<[i := Some (take (idx p' - idx p) (rest p))]> c')
| MRepStop r hi greedy p c : matches (Rep r 0 hi greedy) p c p c
| MRepMore r lo hi greedy p c p1 c1 p2 c2 :
    belowMax 0 hi = true ->
    matches r p (clearGroups (groupsOf r) c) p1 c1 ->
    matches (Rep r (pred lo) (pred <$> hi) greedy) p1 c1 p2 c2 ->
    matches (Rep r lo hi greedy) p c p2 c2
| MBol p c : atBol multiline p = true -> matches Bol p c p c
| MEol p c : atEol multiline p = true -> matches Eol p c p c.
End Matches.

(** Can some atom of the pattern consume the unit [x]? *)
Fixpoint accepts (ignoreCase : bool) (r : re) (x : N) : bool :=
  match r with
  | Eps | Bol | Eol => false
  | Set_ neg items => xorb neg (existsb (member ignoreCase x) items)
  | Dot => negb (isLineTerminator x)
  | Cat r1 r2 | Alt r1 r2 => accepts ignoreCase r1 x || accepts ignoreCase r2 x
  | Rep r1 _ _ _ | Cap _ r1 => accepts ignoreCase r1 x
  end.

(** The least number of units a match consumes, and the most ([None]:
    no bound is claimed). *)
Fixpoint minWidth (r : re) : nat :=
  match r with
  | Eps | Bol | Eol => 0
  | Set_ _ _ | Dot => 1
  | Cat r1 r2 => minWidth r1 + minWidth r2
  | Alt r1 r2 => Nat.min (minWidth r1) (minWidth r2)
  | Rep r1 lo _ _ => lo * minWidth r1
  | Cap _ r1 => minWidth r1
  end.

Fixpoint maxWidth (r : re) : option nat :=
  match r with
  | Eps | Bol | Eol => Some 0%nat
  | Set_ _ _ | Dot => Some 1%nat
  | Cat r1 r2 => a ← maxWidth r1; b ← maxWidth r2; Some (a + b)%nat
  | Alt r1 r2 => a ← maxWidth r1; b ← maxWidth r2; Some (Nat.max a b)
  | Rep r1 _ hi _ => h ← hi; a ← maxWidth r1; Some (h * a)%nat
  | Cap _ r1 => maxWidth r1
  end.

(** The groups that every match sets. *)
Fixpoint sure (r : re) : list nat :=
  match r with
  | Cat r1 r2 => sure r1 ++ sure r2
  | Alt r1 r2 => List.filter (fun i => existsb (Nat.eqb i) (sure r2)) (sure r1)
  | Rep r1 lo _ _ => match lo with O => [] | S _ => sure r1 end
  | Cap i r1 => i :: sure r1
  | _ => []
  end.

(** The groups of a pattern with what they enclose. *)
Fixpoint capturesOf (r : re) : list (nat * re) :=
  match r with
  | Cat r1 r2 | Alt r1 r2 => capturesOf r1 ++ capturesOf r2
  | Rep r1 _ _ _ => capturesOf r1
  | Cap i r1 => (i, r1) :: capturesOf r1
  | _ => []
  end.

(** [t] can be the text of a match of [r], as far as its units and its
    length go. *)
Definition spans (ignoreCase : bool) (r : re) (t : jstring) : Prop :=
  Forall (fun x => accepts ignoreCase r x = true) t
  /\ (minWidth r <= length t)%nat
  /\ (forall h, maxWidth r = Some h -> (length t <= h)%nat).

(** [t] can be the text of group [i] of [r]. *)
Definition captured (ignoreCase : bool) (r : re) (i : nat) (t : jstring) : Prop :=
  exists r', In (i, r') (capturesOf r) /\ spans ignoreCase r' t.

(** Group numbers are not repeated. *)
Definition wellGrouped (r : re) : bool := bool_decide (NoDup (groupsOf r)).

(** A group that every match of the pattern sets. *)
Definition sets (i : nat) (r : re) : Prop := wellGrouped r = true /\ In i (sure r).

(** *** Pattern-building shorthands *)

Definition chr (a : ascii) : re := Set_ false [One (cu a)].
Definition oneOf (items : list cls) : re := Set_ false items.
Definition noneOf (items : list cls) : re := Set_ true items.
Definition ch (a : ascii) : cls := One (cu a).
Definition rng (a b : ascii) : cls := Rng (cu a) (cu b).
Definition w_ : re := Set_ false [ClsW].
Definition s_ : re := Set_ false [ClsS].
Definition d_ : re := Set_ false [ClsD].
Definition star (r : re) : re := Rep r 0 None true.
Definition plus (r : re) : re := Rep r 1 None true.
Definition opt (r : re) : re := Rep r 0 (Some 1%nat) true.
Definition lazyStar (r : re) : re := Rep r 0 None false.
Definition times (lo hi : nat) (r : re) : re := Rep r lo (Some hi) true.
Definition seq (rs : list re) : re := fold_right Cat Eps rs.
Definition alts (rs : list re) : re :=
  match rs with
  | [] => Eps
  | r :: more => fold_left Alt more r
  end.
(** A literal word. *)
Definition str (s : string) : re := seq (map (fun x => Set_ false [One x]) (lit s)).

(** ** Values and [JSON.parse] *)

(** The values the tools handle: what [JSON.parse] builds, and
    [undefined].  A number keeps its literal; the members of an object are
    listed in property-enumeration order. *)
#[local] Unset Elimination Schemes.
Inductive value :=
| VUndefined
| VNull
| VBool (b : bool)
| VNum (literal : jstring)
| VStr (s : jstring)
| VArr (items : list value)
| VObj (members : list (jstring * value)).
#[local] Set Elimination Schemes.

Definition isJsonWs (x : N) : bool :=
  (x =? 32) || (x =? 9) || (x =? 10) || (x =? 13).

Fixpoint skipWs (s : jstring) : jstring :=
  match s with
  | x :: s' => if isJsonWs x then skipWs s' else s
  | [] => []
  end.

Definition hexVal (x : N) : option N :=
  if isDigit x then Some (x - 48)
  else if (97 <=? x) && (x <=? 102) then Some (x - 87)
  else if (65 <=? x) && (x <=? 70) then Some (x - 55)
  else None.

(** The rest of a string literal, after its opening quote. *)
Fixpoint parseStringBody (s : jstring) : option (jstring * jstring) :=
  match s with
  | [] => None
  | x :: r =>
      if x =? 34 then Some ([], r)
      else if x =? 92 then
        match r with
        | e :: r1 =>
            let simple (y : N) :=
              '(body, r2) ← parseStringBody r1; Some (y :: body, r2) in
            if (e =? 34) || (e =? 92) || (e =? 47) then simple e
            else if e =? 98 then simple 8
            else if e =? 102 then simple 12
            else if e =? 110 then simple 10
            else if e =? 114 then simple 13
            else if e =? 116 then simple 9
            else if e =? 117 then
              match r1 with
              | h1 :: h2 :: h3 :: h4 :: r2 =>
                  a ← hexVal h1; b ← hexVal h2; c ← hexVal h3; d ← hexVal h4;
                  '(body, r3) ← parseStringBody r2;
                  Some ((((a * 16 + b) * 16 + c) * 16 + d) :: body, r3)
              | _ => None
              end
            else None
        | [] => None
        end
      else if x <? 32 then None
      else '(body, r') ← parseStringBody r; Some (x :: body, r')
  end.

Fixpoint spanDigits (s : jstring) : jstring * jstring :=
  match s with
  | x :: s' =>
      if isDigit x then let '(ds, r) := spanDigits s' in (x :: ds, r) else ([], s)
  | [] => ([], [])
  end.

(** A number literal: an optional minus sign, an integer part without
    leading zeros, an optional fraction and an optional exponent. *)
Definition parseNumber (s : jstring) : option (jstring * jstring) :=
  let '(sign, s1) :=
    match s with
    | x :: r => if x =? 45 then ([x], r) else ([], s)
    | [] => ([], s)
    end in
  '(int, s2) ←
    match s1 with
    | x :: r =>
        if x =? 48 then Some ([x], r)
        else if isDigit x then let '(ds, r') := spanDigits r in Some (x :: ds, r')
        else None
    | [] => None
    end;
  '(frac, s3) ←
    match s2 with
    | x :: r =>
        if x =? 46 then
          match spanDigits r with
          | ([], _) => None
          | (ds, r') => Some (x :: ds, r')
          end
        else Some ([], s2)
    | [] => Some ([], s2)
    end;
  '(exp, s4) ←
    match s3 with
    | x :: r =>
        if (x =? 101) || (x =? 69) then
          let '(sg, r1) :=
            match r with
            | y :: r' => if (y =? 43) || (y =? 45) then ([y], r') else ([], r)
            | [] => ([], r)
            end in
          match spanDigits r1 with
          | ([], _) => None
          | (ds, r') => Some (x :: sg ++ ds, r')
          end
        else Some ([], s3)
    | [] => Some ([], s3)
    end;
  Some (sign ++ int ++ frac ++ exp, s4).

(** The value of a key that is an array index ([0], [1], ... without
    leading zeros, below 2^32 - 1). *)
Definition arrayIndex (k : jstring) : option N :=
  match k with
  | [] => None
  | x :: r =>
      if forallb isDigit k && implb (x =? 48) (eqs r []) then
        let n := fold_left (fun acc d => acc * 10 + (d - 48)) k 0 in
        if n <? 4294967295 then Some n else None
      else None
  end.

(** Define property [k] with value [v]: a repeated key keeps its place and
    takes the new value. *)
Fixpoint defineProp (k : jstring) (v : value) (ms : list (jstring * value))
    : list (jstring * value) :=
  match ms with
  | [] => [(k, v)]
  | (k', v') :: ms' =>
      if eqs k k' then (k, v) :: ms' else (k', v') :: defineProp k v ms'
  end.

Fixpoint insertIndexed (n : N) (kv : jstring * value)
    (l : list (N * (jstring * value))) : list (N * (jstring * value)) :=
  match l with
  | [] => [(n, kv)]
  | (m, kv') :: l' =>
      if n <? m then (n, kv) :: l else (m, kv') :: insertIndexed n kv l'
  end.

(** Own-property order: array-index keys in ascending order, then the
    other keys in the order they were created. *)
Definition propertyOrder (ms : list (jstring * value)) : list (jstring * value) :=
  let indexed :=
    fold_left (fun acc kv =>
                 match arrayIndex (fst kv) with
                 | Some n => insertIndexed n kv acc
                 | None => acc
                 end) ms [] in
  map snd indexed
  ++ filter (fun kv => arrayIndex (fst kv) = None) ms.

Definition mkObject (ms : list (jstring * value)) : value :=
  VObj (propertyOrder (fold_left (fun acc kv => defineProp (fst kv) (snd kv) acc) ms [])).

Definition expect (word : jstring) (v : value) (s : jstring) : option (value * jstring) :=
  if startsWith word s then Some (v, drop (length word) s) else None.

(** The JSON grammar, by recursive descent; a nested value or a further
    member costs one unit of fuel, so twice the length of the text is
    enough. *)
Fixpoint parseValue (fuel : nat) (s : jstring) : option (value * jstring) :=
  match fuel with
  | O => None
  | S fuel' =>
      match skipWs s with
      | [] => None
      | x :: r =>
          if x =? 123 then          (* { *)
            match skipWs r with
            | y :: r' =>
                if y =? 125 then Some (VObj [], r')
                else parseMembers fuel' r []
            | [] => None
            end
          else if x =? 91 then      (* [ *)
            match skipWs r with
            | y :: r' =>
                if y =? 93 then Some (VArr [], r')
                else parseElements fuel' r []
            | [] => None
            end
          else if x =? 34 then
            '(str, r') ← parseStringBody r; Some (VStr str, r')
          else if x =? 116 then expect (lit "true") (VBool true) (x :: r)
          else if x =? 102 then expect (lit "false") (VBool false) (x :: r)
          else if x =? 110 then expect (lit "null") VNull (x :: r)
          else '(num, r') ← parseNumber (x :: r); Some (VNum num, r')
      end
  end
with parseMembers (fuel : nat) (s : jstring) (acc : list (jstring * value))
    : option (value * jstring) :=
  match fuel with
  | O => None
  | S fuel' =>
      match skipWs s with
      | x :: r =>
          if x =? 34 then
            '(k, r1) ← parseStringBody r;
            match skipWs r1 with
            | c :: r2 =>
                if c =? 58 then
                  '(v, r3) ← parseValue fuel' r2;
                  match skipWs r3 with
                  | d :: r4 =>
                      if d =? 44 then parseMembers fuel' r4 (acc ++ [(k, v)])
                      else if d =? 125 then Some (mkObject (acc ++ [(k, v)]), r4)
                      else None
                  | [] => None
                  end
                else None
            | [] => None
            end
          else None
      | [] => None
      end
  end
with parseElements (fuel : nat) (s : jstring) (acc : list value)
    : option (value * jstring) :=
  match fuel with
  | O => None
  | S fuel' =>
      '(v, r) ← parseValue fuel' s;
      match skipWs r with
      | d :: r' =>
          if d =? 44 then parseElements fuel' r' (acc ++ [v])
          else if d =? 93 then Some (VArr (acc ++ [v]), r')
          else None
      | [] => None
      end
  end.

(** [JSON.parse(text)]: [None] is a thrown [SyntaxError]. *)
Definition JSON_parse (text : jstring) : option value :=
  '(v, r) ← parseValue (S (2 * length text)) text;
  if skipWs r is [] then Some v else None.

(** *** Numbers *)

(** A finite number, as a schema's [z.number()] admits it: a double is
    a rational, and the tests the tools make on these numbers are
    comparisons with integers. *)
Abbreviation Q := QArith_base.Q.
Abbreviation integer := QArith_base.inject_Z.
Abbreviation ceiling := Qround.Qceiling.

Section Numbers.
Import QArith_base Qround.
Local Open Scope Z_scope.

(** [b ^ x] for a negative exponent too. *)
Definition power (b x : Z) : Q :=
  if 0 <=? x then inject_Z (b ^ x) else Qmake 1 (Z.to_pos (b ^ (- x))).

Definition ltQ (a b : Q) : bool :=
  match Qcompare a b with Lt => true | _ => false end.
Definition leQ (a b : Q) : bool :=
  match Qcompare a b with Gt => false | _ => true end.

(** [n >= x] and [n < x] for an integer [n] and a number [x]. *)
Definition atLeast (n : Z) (x : Q) : bool := leQ x (inject_Z n).
Definition below (n : Z) (x : Q) : bool := ltQ (inject_Z n) x.

(** The value of a double, its sign apart: zero, infinity, or [m * 2^e]
    with [0 < m < 2^53] and [-1074 <= e <= 971]. *)
Inductive double :=
| DZero
| DInf
| DFin (m e : Z).

(** The digits at the front of [l], appended to the decimal [acc];
    how many they are; the rest of [l]. *)
Fixpoint readDigits (acc count : Z) (l : jstring) : Z * Z * jstring :=
  match l with
  | x :: l' =>
      if isDigit x then readDigits (10 * acc + Z.of_N (x - 48)) (count + 1) l'
      else (acc, count, l)
  | [] => (acc, count, [])
  end.

(** A number literal of JSON as sign, digits [d] and exponent [x]: its
    value is [d * 10^x]. *)
Definition readLiteral (l : jstring) : bool * Z * Z :=
  let '(negative, l) :=
    match l with
    | x :: l' => if (x =? 45)%N then (true, l') else (false, l)
    | [] => (false, l)
    end in
  let '(d, _, l) := readDigits 0 0 l in
  let '(d, fraction, l) :=
    match l with
    | x :: l' => if (x =? 46)%N then readDigits d 0 l' else (d, 0, l)
    | [] => (d, 0, l)
    end in
  let exponent :=
    match l with
    | c :: l' =>
        if (c =? 101)%N || (c =? 69)%N then
          match l' with
          | s :: l'' =>
              if (s =? 45)%N then - (readDigits 0 0 l'').1.1
              else if (s =? 43)%N then (readDigits 0 0 l'').1.1
              else (readDigits 0 0 l').1.1
          | [] => 0
          end
        else 0
    | [] => 0
    end in
  (negative, d, exponent - fraction).

(** [floor (log2 q)] of a positive rational. *)
Definition log2Q (q : Q) : Z :=
  let l := Z.log2 (Qnum q) - Z.log2 (Zpos (Qden q)) in
  if leQ (power 2 l) q then l else l - 1.

(** The double nearest to [d * 10^x], ties to the even significand. *)
Definition roundToDouble (d x : Z) : double :=
  if d <=? 0 then DZero
  else
    let magnitude := Z.of_nat (String.length (pretty d)) + x in
    if 310 <? magnitude then DInf
    else if magnitude <? -330 then DZero
    else
      let q := Qmult (inject_Z d) (power 10 x) in
      let e := Z.max (-1074) (log2Q q - 52) in
      let scaled := Qmult q (power 2 (- e)) in
      let m := Qfloor scaled in
      let rest := Qminus scaled (inject_Z m) in
      let m :=
        match Qcompare rest (Qmake 1 2) with
        | Lt => m
        | Gt => m + 1
        | Eq => if Z.even m then m else m + 1
        end in
      let '(m, e) := if m =? 2 ^ 53 then (2 ^ 52, e + 1) else (m, e) in
      if m =? 0 then DZero
      else if 971 <? e then DInf
      else DFin m e.

Definition literalValue (l : jstring) : bool * double :=
  let '(negative, d, x) := readLiteral l in (negative, roundToDouble d x).

(** [Number::toString] *)

Section Shortest.
Variable m : Z.
Variable e : Z.

Definition magnitudeQ : Q := Qmult (inject_Z m) (power 2 e).

(** The reals that round to the double: between the midpoints to its
    neighbours, the midpoints included when [m] is even. *)
Definition low : Q :=
  if (m =? 2 ^ 52) && (-1074 <? e)
  then Qmult (inject_Z (4 * m - 1)) (power 2 (e - 2))
  else Qmult (inject_Z (2 * m - 1)) (power 2 (e - 1)).
Definition high : Q := Qmult (inject_Z (2 * m + 1)) (power 2 (e - 1)).
Definition roundsHere (c : Q) : bool :=
  if Z.even m then leQ low c && leQ c high else ltQ low c && ltQ c high.

Fixpoint raise (fuel : nat) (n : Z) : Z :=
  match fuel with
  | O => n
  | S fuel' => if ltQ magnitudeQ (power 10 n) then n else raise fuel' (n + 1)
  end.
Fixpoint lower (fuel : nat) (n : Z) : Z :=
  match fuel with
  | O => n
  | S fuel' => if ltQ magnitudeQ (power 10 (n - 1)) then lower fuel' (n - 1) else n
  end.

(** The [n] with [10^(n-1) <= m * 2^e < 10^n]. *)
Definition decimalExponent : Z :=
  lower 8 (raise 8 ((Z.log2 m + e) * 1233 / 4096)).

(** The [k]-digit decimal [s * 10^(n-k)] that rounds to the double and
    is nearest to it, if there is one. *)
Definition withDigits (n k : Z) : option Z :=
  let unit := power 10 (n - k) in
  let under := Qfloor (Qdiv magnitudeQ unit) in
  let over := under + 1 in
  let valueOf s := Qmult (inject_Z s) unit in
  match roundsHere (valueOf under), roundsHere (valueOf over) with
  | true, false => Some under
  | false, true => Some over
  | false, false => None
  | true, true =>
      match Qcompare (Qminus magnitudeQ (valueOf under))
                     (Qminus (valueOf over) magnitudeQ) with
      | Lt => Some under
      | Gt => Some over
      | Eq => Some (if Z.even under then under else over)
      end
  end.

Fixpoint fewestDigits (fuel : nat) (n k : Z) : Z * Z :=
  match fuel with
  | O => (m, k)
  | S fuel' =>
      match withDigits n k with
      | Some s => (s, k)
      | None => fewestDigits fuel' n (k + 1)
      end
  end.
End Shortest.

Fixpoint dropZeros (fuel : nat) (s : Z) : Z :=
  match fuel with
  | O => s
  | S fuel' => if (0 <? s) && (s mod 10 =? 0) then dropZeros fuel' (s / 10) else s
  end.

Definition zeros (n : Z) : jstring := repeat 48%N (Z.to_nat n).

(** [Number::toString(v)] of a positive finite double: the digits of
    [s] with [k] as small as possible, laid out by the place [n] of the
    decimal point. *)
Definition finiteToString (m e : Z) : jstring :=
  let n0 := decimalExponent m e in
  let '(s, k) := fewestDigits m e 20 n0 1 in
  let n := n0 - k + Z.of_nat (String.length (pretty s)) in
  let digits := lit (pretty (dropZeros 20 s)) in
  let k := Z.of_nat (length digits) in
  if (k <=? n) && (n <=? 21) then digits ++ zeros (n - k)
  else if (0 <? n) && (n <=? 21) then
    take (Z.to_nat n) digits ++ lit "." ++ drop (Z.to_nat n) digits
  else if (-6 <? n) && (n <=? 0) then lit "0." ++ zeros (- n) ++ digits
  else
    let exponent := lit (if n - 1 <? 0 then "-" else "+") ++ lit (pretty (Z.abs (n - 1))) in
    if k =? 1 then digits ++ lit "e" ++ exponent
    else take 1 digits ++ lit "." ++ drop 1 digits ++ lit "e" ++ exponent.

(** [String(x)] for the number a literal denotes. *)
Definition numberToString (l : jstring) : jstring :=
  match literalValue l with
  | (_, DZero) => lit "0"
  | (negative, DInf) => lit (if negative then "-Infinity" else "Infinity")
  | (negative, DFin m e) => (if negative then lit "-" else []) ++ finiteToString m e
  end.

(** [ToBoolean] of that number. *)
Definition nonzero (l : jstring) : bool :=
  if literalValue l is (_, DZero) then false else true.
End Numbers.

(** *** Operations on values *)

(** [ToBoolean] *)
Definition truthy (v : value) : bool :=
  match v with
  | VUndefined | VNull => false
  | VBool b => b
  | VNum l => nonzero l
  | VStr s => negb (eqs s [])
  | VArr _ | VObj _ => true
  end.

(** [String(v)], as in a template literal; [None] is a thrown
    [TypeError].  An object prints through [Object.prototype.toString]
    unless it has a member [toString] of its own: a parsed value is not
    callable, [valueOf] returns the object, and the conversion throws.
    An array prints its elements joined by commas, [null] and
    [undefined] as nothing. *)
Fixpoint toStr (v : value) : option jstring :=
  match v with
  | VUndefined => Some (lit "undefined")
  | VNull => Some (lit "null")
  | VBool b => Some (if b then lit "true" else lit "false")
  | VNum l => Some (numberToString l)
  | VStr s => Some s
  | VArr items =>
      join (lit ",")
        <$> (fix each (items : list value) : option (list jstring) :=
               match items with
               | [] => Some []
               | i :: more =>
                   s ← match i with
                       | VUndefined | VNull => Some []
                       | _ => toStr i
                       end;
                   rest ← each more;
                   Some (s :: rest)
               end) items
  | VObj members =>
      if existsb (fun member => eqs member.1 (lit "toString")) members then None
      else Some (lit "[object Object]")
  end.

(** [a || b] *)
Definition orValue (a b : value) : value := if truthy a then a else b.

(** [typeof v === 'object'] *)
Definition isObjectType (v : value) : bool :=
  match v with
  | VNull | VArr _ | VObj _ => true
  | _ => false
  end.

(** [v === 'text'] *)
Definition isStr (text : jstring) (v : value) : bool :=
  match v with
  | VStr s => eqs s text
  | _ => false
  end.

Definition lookupMember (k : jstring) (ms : list (jstring * value)) : option value :=
  snd <$> List.find (fun kv => eqs (fst kv) k) ms.

(** [v.k] for a property name that is neither [length] nor an index:
    [None] is the [TypeError] of reading a property of [null] or
    [undefined]. *)
Definition getProp (v : value) (k : jstring) : option value :=
  match v with
  | VUndefined | VNull => None
  | VObj ms => Some (default VUndefined (lookupMember k ms))
  | _ => Some VUndefined
  end.

Definition decimal (n : nat) : jstring := lit (pretty n).

(** [Object.entries(v)]: [None] is the [TypeError] on [null] and
    [undefined]. *)
Definition entries (v : value) : option (list (jstring * value)) :=
  match v with
  | VUndefined | VNull => None
  | VObj ms => Some ms
  | VArr items => Some (imap (fun i x => (decimal i, x)) items)
  | VStr s => Some (imap (fun i x => (decimal i, VStr [x])) s)
  | VBool _ | VNum _ => Some []
  end.

(** [for (const x of v)]: [None] is the [TypeError] of a value that is
    not iterable.  (A string is iterated by code unit here; JavaScript
    joins surrogate pairs.) *)
Definition iterate (v : value) : option (list value) :=
  match v with
  | VArr items => Some items
  | VStr s => Some (map (fun x => VStr [x]) s)
  | _ => None
  end.

End JS.

(** * parse-markdown

    [src/mastra/tools/parse-markdown.ts]: a line-by-line state machine that
    cuts markdown into flat sections, fenced code blocks and link targets.
    The writes to the execution log are left out here and in the other
    tools, except where a property is about them: the log is an append-only
    sink that no tool reads back. *)
Module ParseMarkdown.
Import JS.

Record section := { heading : jstring; level : nat; content : jstring }.

Record result := {
  sections : list section;
  codeBlocks : list jstring;
  links : list jstring
}.

(** The local variables of [execute]. *)
Record state := {
  st_sections : list section;
  st_codeBlocks : list jstring;
  st_links : list jstring;
  currentSection : option (jstring * nat);   (* heading and level, or null *)
  currentContent : list jstring;
  inCodeBlock : bool;
  currentCodeBlock : list jstring
}.

Definition init : state :=
  {| st_sections := []; st_codeBlocks := []; st_links := [];
     currentSection := None; currentContent := [];
     inCodeBlock := false; currentCodeBlock := [] |}.

(** "/\[([^\]]+)\]\(([^)]+)\)/g" *)
Definition linkRegex : re :=
  seq [chr "["; Cap 1 (plus (noneOf [ch "]"])); chr "]";
       chr "("; Cap 2 (plus (noneOf [ch ")"])); chr ")"].

(** "/\(([^)]+)\)/" *)
Definition urlRegex : re :=
  seq [chr "("; Cap 1 (plus (noneOf [ch ")"])); chr ")"].

(** "/^(#{1,6})\s+(.+)$/" *)
Definition headingRegex : re :=
  seq [Bol; Cap 1 (times 1 6 (chr "#")); plus s_; Cap 2 (plus Dot); Eol].

(** [line.trim().startsWith('```')] *)
Definition isFence (line : jstring) : bool := startsWith (lit "```") (trim line).

(** [linkMatches.map(match => ...)]: the first parenthesised text of each
    link match, or the empty string. *)
Definition linkTargets (line : jstring) : option (list jstring) :=
  mapM (fun m =>
          match execFirst false false urlRegex (m_text m) with
          | Some u => group u 1
          | None => Some []
          end)
       (execAll false false linkRegex line).

(** [sections.push({...currentSection, content: currentContent.join('\n').trim()})]
    when a section is open. *)
Definition closeSection (st : state) : list section :=
  match currentSection st with
  | Some (h, lv) =>
      st_sections st ++ [{| heading := h; level := lv;
                            content := trim (join nl (currentContent st)) |}]
  | None => st_sections st
  end.

(** One iteration of [for (const line of lines)].  [None] is a thrown
    [TypeError] (a method called on an unset capture group). *)
Definition step (st : state) (line : jstring) : option state :=
  if isFence line then
    if inCodeBlock st then
      Some {| st_sections := st_sections st;
              st_codeBlocks := st_codeBlocks st ++ [join nl (currentCodeBlock st)];
              st_links := st_links st;
              currentSection := currentSection st;
              currentContent := currentContent st;
              inCodeBlock := false; currentCodeBlock := [] |}
    else
      Some {| st_sections := st_sections st; st_codeBlocks := st_codeBlocks st;
              st_links := st_links st; currentSection := currentSection st;
              currentContent := currentContent st;
              inCodeBlock := true; currentCodeBlock := currentCodeBlock st |}
  else if inCodeBlock st then
    Some {| st_sections := st_sections st; st_codeBlocks := st_codeBlocks st;
            st_links := st_links st; currentSection := currentSection st;
            currentContent := currentContent st;
            inCodeBlock := true;
            currentCodeBlock := currentCodeBlock st ++ [line] |}
  else
    found ← linkTargets line;
    let links' := st_links st ++ found in
    match execFirst false false headingRegex line with
    | Some m =>
        hashes ← group m 1;
        title ← group m 2;
        Some {| st_sections := closeSection st; st_codeBlocks := st_codeBlocks st;
                st_links := links';
                currentSection := Some (trim title, length hashes);
                currentContent := [];
                inCodeBlock := false; currentCodeBlock := currentCodeBlock st |}
    | None =>
        Some {| st_sections := st_sections st; st_codeBlocks := st_codeBlocks st;
                st_links := links'; currentSection := currentSection st;
                currentContent :=
                  (if currentSection st is Some _ then currentContent st ++ [line]
                   else currentContent st);
                inCodeBlock := false; currentCodeBlock := currentCodeBlock st |}
    end.

(** The loop over the lines. *)
Definition run (lines : list jstring) (st : state) : option state :=
  forEach step st lines.

(** After the loop: add the last section and build the result. *)
Definition finish (st : state) : result :=
  {| sections := closeSection st;
     codeBlocks := st_codeBlocks st;
     links := st_links st |}.

Definition parseLines (lines : list jstring) : option result :=
  finish <$> run lines init.

(** [execute]: [None] when the body throws (the handler logs and rethrows). *)
Definition parseMarkdown (content : jstring) : option result :=
  parseLines (split LF content).

(** The number of fence lines among [lines]. *)
Definition fenceCount (lines : list jstring) : nat := length (List.filter isFence lines).

(** [st] inside a code block whose buffer is [buffer]. *)
Definition buffering (st : state) (buffer : list jstring) : state :=
  {| st_sections := st_sections st; st_codeBlocks := st_codeBlocks st;
     st_links := st_links st; currentSection := currentSection st;
     currentContent := currentContent st;
     inCodeBlock := true; currentCodeBlock := buffer |}.

(** The markdown of end-to-end example A, and its sections. *)
Definition exampleA : jstring :=
  lit "# Intro" ++ nl ++ nl ++ lit "Hello" ++ nl ++ nl ++
  lit "## API" ++ nl ++ lit "* `foo(x)` - does foo" ++ nl.

Definition sectionsA : list section :=
  [ {| heading := lit "Intro"; level := 1; content := lit "Hello" |};
    {| heading := lit "API"; level := 2; content := lit "* `foo(x)` - does foo" |} ].

(** A document whose code fence is never closed. *)
Definition unclosed : jstring :=
  lit "# T" ++ nl ++ lit "body" ++ nl ++ lit "```js" ++ nl
  ++ lit "let x = [1](2)" ++ nl ++ lit "# not a heading".

(** Does the line match the heading pattern? *)
Definition isHeading (line : jstring) : bool :=
  if execFirst false false headingRegex line is Some _ then true else false.

(** The lines that are neither fences nor between an opening fence and
    the next fence; [inside] tells whether the first line is inside a
    code block. *)
Fixpoint outsideFences (inside : bool) (lines : list jstring) : list jstring :=
  match lines with
  | [] => []
  | l :: ls =>
      if isFence l then outsideFences (negb inside) ls
      else if inside then outsideFences inside ls
      else l :: outsideFences inside ls
  end.

(** Levels between one and six, in the sections closed so far and in
    the open one. *)
Definition levelled (st : state) : Prop :=
  Forall (fun s => (1 <= level s <= 6)%nat) (st_sections st)
  /\ (forall h lv, currentSection st = Some (h, lv) -> (1 <= lv <= 6)%nat).

(** A result with one more code block. *)
Definition withBlock (block : jstring) (r : result) : result :=
  {| sections := sections r; codeBlocks := codeBlocks r ++ [block]; links := links r |}.

End ParseMarkdown.



(** * The execution log

    [src/mastra/config/logger.ts].  [logToolExecution] and [logError] read
    the clock and append one entry to [logs/workflow.log]. *)
Module Logger.
Import JS.

Record entry := {
  message : jstring;
  component : jstring;
  input : list (jstring * value);
  output : option (list (jstring * value));
  timestamp : jstring
}.

(** What a tool shares with the rest of the process: the clock ([time n]
    is the [n]-th reading of [new Date().toISOString()]) and the log file. *)
Record runtime := {
  time : nat -> jstring;
  ticks : nat;
  sink : list entry
}.

Definition logToolExecution (toolId : jstring) (inp : list (jstring * value))
    (out : option (list (jstring * value))) (rt : runtime) : runtime :=
  {| time := time rt;
     (* one reading for [data.timestamp], one in [logToFile] *)
     ticks := S (S (ticks rt));
     sink := sink rt ++
       [{| message := lit "Tool execution: " ++ toolId; component := toolId;
           input := inp; output := out;
           timestamp := time rt (ticks rt) |}] |}.

Definition logError (comp : jstring) (context : list (jstring * value))
    (rt : runtime) : runtime :=
  {| time := time rt;
     ticks := S (S (ticks rt));
     sink := sink rt ++
       [{| message := lit "Error in " ++ comp; component := comp;
           input := context; output := None;
           timestamp := time rt (ticks rt) |}] |}.

Definition num (n : nat) : value := VNum (decimal n).

(** A fresh process: empty log, a clock that reads the empty string. *)
Definition idle : runtime := {| time := fun _ => []; ticks := 0; sink := [] |}.

End Logger.

(** * extract-all-apis

    [src/mastra/tools/extract-all-apis.ts]: pattern passes over a text,
    chosen by its declared content type, then removal of repeated
    signatures. *)
Module ExtractAllApis.
Import JS.

Record api := {
  signature : jstring;
  description : jstring;
  category : option jstring
}.

Definition mk (sig desc : jstring) (cat : string) : api :=
  {| signature := sig; description := desc; category := Some (lit cat) |}.

(** A capture inside a template literal: an unset group prints as
    [undefined]. *)
Definition tpl (g : option jstring) : jstring := default (lit "undefined") g.

(** [g || alt] for a capture. *)
Definition orStr (g : option jstring) (alt : jstring) : jstring :=
  match g with
  | Some (x :: t) => x :: t
  | _ => alt
  end.

(** [while ((match = r.exec(content)) !== null) body]: the body sees the
    array built so far and returns the extended one, or [None] when it
    throws. *)
Definition whileExec (multiline : bool) (r : re) (content : jstring)
    (body : list api -> rmatch -> option (list api)) (apis : list api)
    : option (list api) :=
  forEach body apis (execAll multiline false r content).

(** ** Pattern pieces *)

Definition ws : re := star s_.                      (* \s* *)
Definition ws1 : re := plus s_.                     (* \s+ *)
Definition word1 : re := plus w_.                   (* \w+ *)
Definition id0 : re := oneOf [rng "a" "z"; rng "A" "Z"; ch "_"].
Definition jsId0 : re := oneOf [rng "a" "z"; rng "A" "Z"; ch "_"; ch "$"].
Definition jsIdc : re :=
  oneOf [rng "a" "z"; rng "A" "Z"; rng "0" "9"; ch "_"; ch "$"].
(** "[a-zA-Z_$][a-zA-Z0-9_$]*" *)
Definition jsIdent : re := seq [jsId0; star jsIdc].
(** "[-–—:]": hyphen, en dash, em dash, colon *)
Definition dash : re := oneOf [ch "-"; One 8211; One 8212; ch ":"].
(** "\([^)]*\)" *)
Definition parens : re := seq [chr "("; star (noneOf [ch ")"]); chr ")"].
(** "\(([^)]*)\)" with the group numbered [i] *)
Definition params (i : nat) : re :=
  seq [chr "("; Cap i (star (noneOf [ch ")"])); chr ")"].
(** "(?:word\s+)?" *)
Definition optKw (word : string) : re := opt (seq [str word; ws1]).
Definition lf_ : re := Set_ false [One LF].
Definition bullet : re := oneOf [ch "*"; ch "-"].    (* [\*\-] *)

(** ** Markdown and reStructuredText *)

(** "/```[\w]*\n([\s\S]*?)```/g" *)
Definition codeBlockRegex : re :=
  seq [str "```"; star w_; lf_; Cap 1 (lazyStar (oneOf [ClsS; ClsNotS])); str "```"].

Definition functionPatterns : list re :=
  [ (* "/([a-zA-Z_][\w.]*)\s*\([^)]*\)/g" *)
    seq [Cap 1 (seq [id0; star (oneOf [ClsW; ch "."])]); ws; parens];
    (* "/([a-zA-Z_][\w]*)::\w+/g" *)
    seq [Cap 1 (seq [id0; star w_]); str "::"; word1];
    (* "/([a-zA-Z_][\w]*)\.\w+/g" *)
    seq [Cap 1 (seq [id0; star w_]); chr "."; word1] ].

(** "[a-zA-Z_][\w._]*\([^`]*\)" *)
Definition callShape : re :=
  seq [id0; star (oneOf [ClsW; ch "."; ch "_"]); chr "(";
       star (noneOf [ch "`"]); chr ")"].

Definition inlinePatterns : list re :=
  [ (* "/`([a-zA-Z_][\w._]*\([^`]*\))`/g" *)
    seq [chr "`"; Cap 1 callShape; chr "`"];
    (* "/`([a-zA-Z_][\w.]*)`\s*[-–—:]\s*([^.\n]{5,50})/g" *)
    seq [chr "`"; Cap 1 (seq [id0; star (oneOf [ClsW; ch "."])]); chr "`";
         ws; dash; ws; Cap 2 (times 5 50 (noneOf [ch "."; One LF]))];
    (* "/\*\*`([a-zA-Z_][\w._]*\([^`]*\))`\*\*/g" *)
    seq [str "**`"; Cap 1 callShape; str "`**"];
    (* "/`_\.([a-zA-Z_][\w]*)\([^`]*\)`/g" *)
    seq [str "`_."; Cap 1 (seq [id0; star w_]); chr "(";
         star (noneOf [ch "`"]); str ")`"] ].

(** "`([^`]+)`\s*[-–—:]\s*(.+)$" *)
Definition codeThenProse : re :=
  seq [chr "`"; Cap 1 (plus (noneOf [ch "`"])); chr "`"; ws; dash; ws;
       Cap 2 (plus Dot); Eol].

Definition listPatterns : list re :=
  [ (* "/^[\*\-]\s*`([^`]+)`\s*[-–—:]\s*(.+)$/gm" *)
    seq [Bol; bullet; ws; codeThenProse];
    (* "/^\d+\.\s*`([^`]+)`\s*[-–—:]\s*(.+)$/gm" *)
    seq [Bol; plus d_; chr "."; ws; codeThenProse];
    (* "/^[\*\-]\s*\*\*([^*]+)\*\*\s*[-–—:]\s*(.+)$/gm" *)
    seq [Bol; bullet; ws; str "**"; Cap 1 (plus (noneOf [ch "*"])); str "**";
         ws; dash; ws; Cap 2 (plus Dot); Eol] ].

(** "/\|\s*`?([^|`]+)`?\s*\|([^|]*)\|/g" *)
Definition tableRowRegex : re :=
  seq [chr "|"; ws; opt (chr "`"); Cap 1 (plus (noneOf [ch "|"; ch "`"]));
       opt (chr "`"); ws; chr "|"; Cap 2 (star (noneOf [ch "|"])); chr "|"].

(** "/^#{2,4}\s+`?([a-zA-Z_][\w.()]*)`?$/gm" *)
Definition headerRegex : re :=
  seq [Bol; times 2 4 (chr "#"); ws1; opt (chr "`");
       Cap 1 (seq [id0; star (oneOf [ClsW; ch "."; ch "("; ch ")"])]);
       opt (chr "`"); Eol].

Definition codeBlockPass (content : jstring) : list api -> option (list api) :=
  whileExec false codeBlockRegex content (fun apis m =>
    let codeBlock := tpl (group m 1) in
    forEach (fun apis pattern =>
      whileExec false pattern codeBlock (fun apis funcMatch =>
        let sig := trim (m_text funcMatch) in
        Some (if negb (eqs sig []) && negb (startsWith (lit "//") sig)
                 && negb (startsWith (lit "#") sig)
              then apis ++ [mk sig (lit "Extracted from code block") "code-block"]
              else apis)) apis)
      apis functionPatterns).

Definition inlinePass (content : jstring) (apis : list api) : option (list api) :=
  forEach (fun apis pattern =>
    whileExec false pattern content (fun apis m =>
      let description := orStr (group m 2) (lit "API method") in
      (* [signature.includes] on an unset group throws *)
      signature ← group m 1;
      Some (if negb (eqs signature []) && negb (includes (lit " ") signature)
               || includes (lit "(") signature
            then apis ++ [mk signature (trim description) "inline"]
            else apis)) apis)
    apis inlinePatterns.

Definition listPass (content : jstring) (apis : list api) : option (list api) :=
  forEach (fun apis pattern =>
    whileExec true pattern content (fun apis m =>
      signature ← trim <$> group m 1;
      description ← trim <$> group m 2;
      Some (apis ++ [mk signature (orStr (Some description) (lit "API method")) "list"]))
      apis)
    apis listPatterns.

Definition tablePass (content : jstring) : list api -> option (list api) :=
  whileExec false tableRowRegex content (fun apis m =>
    signature ← trim <$> group m 1;
    description ← trim <$> group m 2;
    Some (if negb (eqs signature [])
             && (includes (lit "(") signature || includes (lit ".") signature
                 || includes (lit "::") signature)
          then apis ++ [mk signature (orStr (Some description) (lit "API method")) "table"]
          else apis)).

Definition headerPass (content : jstring) : list api -> option (list api) :=
  whileExec true headerRegex content (fun apis m =>
    signature ← trim <$> group m 1;
    Some (if negb (eqs signature [])
             && (includes (lit "(") signature || includes (lit ".") signature)
          then apis ++ [mk signature (lit "API section") "header"]
          else apis)).

Definition markdownApis (content : jstring) : option (list api) :=
  apis ← codeBlockPass content [];
  apis ← inlinePass content apis;
  apis ← listPass content apis;
  apis ← tablePass content apis;
  headerPass content apis.

(** ** Source languages *)

(** A pass that pushes one entry per match, with a signature made of a
    fixed word and the first group. *)
Definition namedPass (multiline : bool) (r : re) (keyword desc cat : string)
    (content : jstring) : list api -> option (list api) :=
  whileExec multiline r content (fun apis m =>
    Some (apis ++ [mk (lit keyword ++ tpl (group m 1)) (lit desc) cat])).

(** A pass that pushes [name(params)] from groups 1 and 2, unless the
    name is in an exclusion list. *)
Definition callPass (r : re) (keyword desc cat : string) (excluded : list string)
    (content : jstring) : list api -> option (list api) :=
  whileExec false r content (fun apis m =>
    Some (if match group m 1 with
             | Some name => existsb (eqs name) (map lit excluded)
             | None => false
             end
          then apis
          else apis ++ [mk (lit keyword ++ tpl (group m 1) ++ lit "(" ++ tpl (group m 2) ++ lit ")")
                           (lit desc) cat])).

(** "(?:public|private|protected)?" *)
Definition access3 : re := opt (alts [str "public"; str "private"; str "protected"]).
(** "(?:public|private|protected|internal)?" *)
Definition access4 : re :=
  opt (alts [str "public"; str "private"; str "protected"; str "internal"]).

Module TS.
(** "/export\s+(?:declare\s+)?(?:function|const|let|var|class|interface|type|enum)\s+([a-zA-Z_$][a-zA-Z0-9_$]*)/g" *)
Definition exportRegex : re :=
  seq [str "export"; ws1; optKw "declare";
       alts [str "function"; str "const"; str "let"; str "var"; str "class";
             str "interface"; str "type"; str "enum"];
       ws1; Cap 1 jsIdent].
(** "/(?:export\s+)?(?:function\s+)?([a-zA-Z_$][a-zA-Z0-9_$]*)\s*(<[^>]*>)?\s*\(([^)]*)\)\s*:\s*([^;{]+)/g" *)
Definition methodRegex : re :=
  seq [optKw "export"; optKw "function"; Cap 1 jsIdent; ws;
       opt (Cap 2 (seq [chr "<"; star (noneOf [ch ">"]); chr ">"])); ws;
       params 3; ws; chr ":"; ws; Cap 4 (plus (noneOf [ch ";"; ch "{"]))].
(** "/([a-zA-Z_$][a-zA-Z0-9_$]*)\s*:\s*\(([^)]*)\)\s*=>\s*([^;,}]+)/g" *)
Definition propertyRegex : re :=
  seq [Cap 1 jsIdent; ws; chr ":"; ws; params 2; ws; str "=>"; ws;
       Cap 3 (plus (noneOf [ch ";"; ch ","; ch "}"]))].

Definition extract (content : jstring) : option (list api) :=
  apis ← whileExec false methodRegex content (fun apis m =>
    let generics := orStr (group m 2) [] in
    returnType ← group m 4;
    Some (apis ++ [mk (tpl (group m 1) ++ generics ++ lit "(" ++ tpl (group m 3) ++ lit ")")
                      (lit "Returns " ++ trim returnType) "function"])) [];
  apis ← whileExec false propertyRegex content (fun apis m =>
    returnType ← group m 3;
    Some (apis ++ [mk (tpl (group m 1) ++ lit "(" ++ tpl (group m 2) ++ lit ")")
                      (lit "Returns " ++ trim returnType) "method"])) apis;
  whileExec false exportRegex content (fun apis m =>
    (* group 1 closes the pattern: it is set in every match *)
    name ← group m 1;
    Some (if existsb (fun a => includes name (signature a)) apis then apis
          else apis ++ [mk name (lit "Exported entity") "export"])) apis.
End TS.

Module JavaScript.
(** "/(?:export\s+)?(?:async\s+)?function\s+([a-zA-Z_$][a-zA-Z0-9_$]*)\s*\(([^)]*)\)/g" *)
Definition functionRegex : re :=
  seq [optKw "export"; optKw "async"; str "function"; ws1; Cap 1 jsIdent; ws; params 2].
(** "/(?:export\s+)?(?:const|let|var)\s+([a-zA-Z_$][a-zA-Z0-9_$]*)\s*=\s*(?:async\s+)?\(([^)]*)\)\s*=>/g" *)
Definition arrowRegex : re :=
  seq [optKw "export"; alts [str "const"; str "let"; str "var"]; ws1; Cap 1 jsIdent;
       ws; chr "="; ws; optKw "async"; params 2; ws; str "=>"].
(** "/([a-zA-Z_$][a-zA-Z0-9_$]*)\s*:\s*(?:async\s+)?function\s*\(([^)]*)\)/g" *)
Definition methodRegex : re :=
  seq [Cap 1 jsIdent; ws; chr ":"; ws; optKw "async"; str "function"; ws; params 2].
(** "/(?:static\s+)?(?:async\s+)?([a-zA-Z_$][a-zA-Z0-9_$]*)\s*\(([^)]*)\)\s*{/g" *)
Definition classMethodRegex : re :=
  seq [optKw "static"; optKw "async"; Cap 1 jsIdent; ws; params 2; ws; chr "{"].

Definition extract (content : jstring) : option (list api) :=
  apis ← callPass functionRegex "" "Function" "function" [] content [];
  apis ← callPass arrowRegex "" "Arrow function" "function" [] content apis;
  apis ← callPass methodRegex "" "Method" "method" [] content apis;
  callPass classMethodRegex "" "Class method" "method"
           ["constructor"; "if"; "for"; "while"; "switch"]%string content apis.
End JavaScript.

Module Python.
(** "/^class\s+(\w+)(?:\([^)]*\))?:/gm" *)
Definition classRegex : re :=
  seq [Bol; str "class"; ws1; Cap 1 word1; opt parens; chr ":"].
(** "/^(?:async\s+)?def\s+(\w+)\s*\(([^)]*)\)(?:\s*->\s*([^:]+))?:/gm" *)
Definition functionRegex : re :=
  seq [Bol; optKw "async"; str "def"; ws1; Cap 1 word1; ws; params 2;
       opt (seq [ws; str "->"; ws; Cap 3 (plus (noneOf [ch ":"]))]); chr ":"].
(** "/^@(\w+)(?:\.\w+)*(?:\([^)]*\))?/gm" *)
Definition decoratorRegex : re :=
  seq [Bol; chr "@"; Cap 1 word1; star (seq [chr "."; word1]); opt parens].

Definition extract (content : jstring) : option (list api) :=
  apis ← namedPass true classRegex "class " "Python class" "class" content [];
  apis ← whileExec true functionRegex content (fun apis m =>
    let returnType := orStr (group m 3) [] in
    Some (apis ++ [mk (lit "def " ++ tpl (group m 1) ++ lit "(" ++ tpl (group m 2) ++ lit ")"
                       ++ (if eqs returnType [] then [] else lit " -> " ++ returnType))
                      (lit "Python function") "function"])) apis;
  namedPass true decoratorRegex "@" "Python decorator" "decorator" content apis.
End Python.

Module Java.
(** "/(?:public|private|protected)?\s*(?:static\s+)?(?:final\s+)?class\s+(\w+)/g" *)
Definition classRegex : re :=
  seq [access3; ws; optKw "static"; optKw "final"; str "class"; ws1; Cap 1 word1].
(** "/(?:public|private|protected)?\s*interface\s+(\w+)/g" *)
Definition interfaceRegex : re :=
  seq [access3; ws; str "interface"; ws1; Cap 1 word1].
(** "/(?:public|private|protected)?\s*(?:static\s+)?(?:final\s+)?(?:[\w<>\[\]]+)\s+(\w+)\s*\(([^)]*)\)/g" *)
Definition methodRegex : re :=
  seq [access3; ws; optKw "static"; optKw "final";
       plus (oneOf [ClsW; ch "<"; ch ">"; ch "["; ch "]"]); ws1;
       Cap 1 word1; ws; params 2].

Definition extract (content : jstring) : option (list api) :=
  apis ← namedPass false classRegex "class " "Java class" "class" content [];
  apis ← namedPass false interfaceRegex "interface " "Java interface" "interface" content apis;
  callPass methodRegex "" "Java method" "method"
           ["if"; "for"; "while"; "switch"; "catch"]%string content apis.
End Java.

Module Rust.
(** "/pub\s+struct\s+(\w+)/g" *)
Definition structRegex : re := seq [str "pub"; ws1; str "struct"; ws1; Cap 1 word1].
(** "/pub\s+enum\s+(\w+)/g" *)
Definition enumRegex : re := seq [str "pub"; ws1; str "enum"; ws1; Cap 1 word1].
(** "/pub\s+(?:async\s+)?fn\s+(\w+)\s*(?:<[^>]+>)?\s*\(([^)]*)\)(?:\s*->\s*([^{]+))?/g" *)
Definition fnRegex : re :=
  seq [str "pub"; ws1; optKw "async"; str "fn"; ws1; Cap 1 word1; ws;
       opt (seq [chr "<"; plus (noneOf [ch ">"]); chr ">"]); ws; params 2;
       opt (seq [ws; str "->"; ws; Cap 3 (plus (noneOf [ch "{"]))])].
(** "/pub\s+trait\s+(\w+)/g" *)
Definition traitRegex : re := seq [str "pub"; ws1; str "trait"; ws1; Cap 1 word1].

Definition extract (content : jstring) : option (list api) :=
  apis ← namedPass false structRegex "struct " "Rust struct" "struct" content [];
  apis ← namedPass false enumRegex "enum " "Rust enum" "enum" content apis;
  apis ← whileExec false fnRegex content (fun apis m =>
    let returnType := orStr (group m 3) [] in
    Some (apis ++ [mk (lit "fn " ++ tpl (group m 1) ++ lit "(" ++ tpl (group m 2) ++ lit ")"
                       ++ (if eqs returnType [] then [] else lit " -> " ++ trim returnType))
                      (lit "Rust function") "function"])) apis;
  namedPass false traitRegex "trait " "Rust trait" "trait" content apis.
End Rust.

Module Go.
(** "/func\s+(?:\([^)]*\)\s+)?(\w+)\s*\(([^)]*)\)(?:\s*(?:\([^)]*\)|[^{]+))?/g" *)
Definition funcRegex : re :=
  seq [str "func"; ws1; opt (seq [parens; ws1]); Cap 1 word1; ws; params 2;
       opt (seq [ws; alts [parens; plus (noneOf [ch "{"])]])].
(** "/type\s+(\w+)\s+(?:struct|interface|\w+)/g" *)
Definition typeRegex : re :=
  seq [str "type"; ws1; Cap 1 word1; ws1; alts [str "struct"; str "interface"; word1]].

Definition extract (content : jstring) : option (list api) :=
  apis ← callPass funcRegex "func " "Go function" "function" [] content [];
  namedPass false typeRegex "type " "Go type" "type" content apis.
End Go.

Module Ruby.
(** "/class\s+(\w+)(?:\s*<\s*\w+)?/g" *)
Definition classRegex : re :=
  seq [str "class"; ws1; Cap 1 word1; opt (seq [ws; chr "<"; ws; word1])].
(** "/module\s+(\w+)/g" *)
Definition moduleRegex : re := seq [str "module"; ws1; Cap 1 word1].
(** "/def\s+(?:self\.)?(\w+)(?:\(([^)]*)\))?/g" *)
Definition methodRegex : re :=
  seq [str "def"; ws1; opt (str "self."); Cap 1 word1; opt (params 2)].

Definition extract (content : jstring) : option (list api) :=
  apis ← namedPass false classRegex "class " "Ruby class" "class" content [];
  apis ← namedPass false moduleRegex "module " "Ruby module" "module" content apis;
  whileExec false methodRegex content (fun apis m =>
    let params := orStr (group m 2) [] in
    Some (apis ++ [mk (lit "def " ++ tpl (group m 1)
                       ++ (if eqs params [] then [] else lit "(" ++ params ++ lit ")"))
                      (lit "Ruby method") "method"])) apis.
End Ruby.

Module Cpp.
(** "/class\s+(\w+)/g" *)
Definition classRegex : re := seq [str "class"; ws1; Cap 1 word1].
(** "/struct\s+(\w+)/g" *)
Definition structRegex : re := seq [str "struct"; ws1; Cap 1 word1].
(** "/template\s*<[^>]+>\s*(?:class|struct)\s+(\w+)/g" *)
Definition templateRegex : re :=
  seq [str "template"; ws; chr "<"; plus (noneOf [ch ">"]); chr ">"; ws;
       alts [str "class"; str "struct"]; ws1; Cap 1 word1].

Definition extract (content : jstring) : option (list api) :=
  apis ← namedPass false classRegex "class " "C++ class" "class" content [];
  apis ← namedPass false structRegex "struct " "C++ struct" "struct" content apis;
  namedPass false templateRegex "template " "C++ template" "template" content apis.
End Cpp.

Module CSharp.
(** "/(?:public|private|protected|internal)?\s*(?:static\s+)?(?:partial\s+)?class\s+(\w+)/g" *)
Definition classRegex : re :=
  seq [access4; ws; optKw "static"; optKw "partial"; str "class"; ws1; Cap 1 word1].
(** "/(?:public|private|protected|internal)?\s*interface\s+(\w+)/g" *)
Definition interfaceRegex : re :=
  seq [access4; ws; str "interface"; ws1; Cap 1 word1].
(** "/(?:public|private|protected|internal)?\s*(?:static\s+)?(?:async\s+)?(?:[\w<>\[\]?]+)\s+(\w+)\s*\(([^)]*)\)/g" *)
Definition methodRegex : re :=
  seq [access4; ws; optKw "static"; optKw "async";
       plus (oneOf [ClsW; ch "<"; ch ">"; ch "["; ch "]"; ch "?"]); ws1;
       Cap 1 word1; ws; params 2].

Definition extract (content : jstring) : option (list api) :=
  apis ← namedPass false classRegex "class " "C# class" "class" content [];
  apis ← namedPass false interfaceRegex "interface " "C# interface" "interface" content apis;
  callPass methodRegex "" "C# method" "method"
           ["if"; "for"; "while"; "switch"; "catch"]%string content apis.
End CSharp.

Module Php.
(** "/class\s+(\w+)(?:\s+extends\s+\w+)?(?:\s+implements\s+[\w,\s]+)?/g" *)
Definition classRegex : re :=
  seq [str "class"; ws1; Cap 1 word1;
       opt (seq [ws1; str "extends"; ws1; word1]);
       opt (seq [ws1; str "implements"; ws1; plus (oneOf [ClsW; ch ","; ClsS])])].
(** "/(?:public|private|protected)?\s*(?:static\s+)?function\s+(\w+)\s*\(([^)]*)\)/g" *)
Definition functionRegex : re :=
  seq [access3; ws; optKw "static"; str "function"; ws1; Cap 1 word1; ws; params 2].

Definition extract (content : jstring) : option (list api) :=
  apis ← namedPass false classRegex "class " "PHP class" "class" content [];
  callPass functionRegex "function " "PHP function" "function" [] content apis.
End Php.

(** Every pattern that [extractAllApis] runs in a [while (... exec ...)]
    loop. *)
Definition loopPatterns : list re :=
  [codeBlockRegex; tableRowRegex; headerRegex]
  ++ functionPatterns ++ inlinePatterns ++ listPatterns
  ++ [TS.methodRegex; TS.propertyRegex; TS.exportRegex;
      JavaScript.functionRegex; JavaScript.arrowRegex;
      JavaScript.methodRegex; JavaScript.classMethodRegex;
      Python.classRegex; Python.functionRegex; Python.decoratorRegex;
      Java.classRegex; Java.interfaceRegex; Java.methodRegex;
      Rust.structRegex; Rust.enumRegex; Rust.fnRegex; Rust.traitRegex;
      Go.funcRegex; Go.typeRegex;
      Ruby.classRegex; Ruby.moduleRegex; Ruby.methodRegex;
      Cpp.classRegex; Cpp.structRegex; Cpp.templateRegex;
      CSharp.classRegex; CSharp.interfaceRegex; CSharp.methodRegex;
      Php.classRegex; Php.functionRegex].

(** ** Package manifest *)

Module Manifest.
(** The statements inside [try { ... } catch] add to [apis] in place: what
    was pushed before a throw stays.  A step returns the array and
    whether it completed. *)
Abbreviation step := (list api * bool)%type.

(** [addExport(key, value)]; [Object.entries(null)] throws. *)
Fixpoint addExport (key : jstring) (v : value) (apis : list api) {struct v} : step :=
  let each :=
    fix each (ms : list (jstring * value)) (apis : list api) : step :=
      match ms with
      | [] => (apis, true)
      | (k, x) :: ms' =>
          let '(apis', ok) := addExport k x apis in
          if ok then each ms' apis' else (apis', false)
      end in
  let eachItem :=
    fix eachItem (i : nat) (items : list value) (apis : list api) : step :=
      match items with
      | [] => (apis, true)
      | x :: items' =>
          let '(apis', ok) := addExport (decimal i) x apis in
          if ok then eachItem (S i) items' apis' else (apis', false)
      end in
  match v with
  | VStr s =>
      (apis ++ [mk (if eqs key (lit ".") then lit "default export" else key)
                   (lit "Exported from " ++ s) "export"], true)
  | VNull => (apis, false)
  | VObj ms => each ms apis
  | VArr items => eachItem O items apis
  | VUndefined | VBool _ | VNum _ => (apis, true)
  end.

(** [Object.entries(pkg.exports).forEach(([key, value]) => addExport(key, value))] *)
Fixpoint addExports (ms : list (jstring * value)) (apis : list api) : step :=
  match ms with
  | [] => (apis, true)
  | (k, x) :: ms' =>
      let '(apis', ok) := addExport k x apis in
      if ok then addExports ms' apis' else (apis', false)
  end.

(** The body of the [try]: [None] from [getProp] is the [TypeError] of
    reading a property of [null]. *)
Definition fields (pkg : value) (apis : list api) : step :=
  match getProp pkg (lit "exports") with
  | None => (apis, false)
  | Some exports =>
      let '(apis, ok) :=
        if truthy exports && isObjectType exports then
          match entries exports with
          | Some ms => addExports ms apis
          | None => (apis, false)
          end
        else (apis, true) in
      if negb ok then (apis, false) else
      let main := default VUndefined (getProp pkg (lit "main")) in
      let '(apis, ok) :=
        if truthy main then
          match toStr main with
          | Some text => (apis ++ [mk (lit "main") (lit "Main entry: " ++ text) "export"], true)
          | None => (apis, false)
          end
        else (apis, true) in
      if negb ok then (apis, false) else
      let types := orValue (default VUndefined (getProp pkg (lit "types")))
                           (default VUndefined (getProp pkg (lit "typings"))) in
      if truthy types then
        match toStr types with
        | Some text =>
            (apis ++ [mk (lit "types") (lit "TypeScript definitions: " ++ text) "export"],
             true)
        | None => (apis, false)
        end
      else (apis, true)
  end.

(** The [try]: the entries, and whether it completed. *)
Definition attempt (content : jstring) : step :=
  match JSON_parse content with
  | Some pkg => fields pkg []
  | None => ([], false)
  end.

(** The whole branch; the [catch] only logs. *)
Definition extract (content : jstring) : option (list api) :=
  Some (fst (attempt content)).
End Manifest.

(** ** The strategy table and the result *)

Definition isType (contentType : jstring) (names : list string) : bool :=
  existsb (eqs contentType) (map lit names).

(** The [if / else if] chain on [contentType]: the entries collected
    before deduplication, or [None] when a pass throws. *)
Definition collect (content contentType : jstring) : option (list api) :=
  if isType contentType ["md"; "rst"]%string then markdownApis content
  else if isType contentType ["d.ts"; "ts"]%string then TS.extract content
  else if isType contentType ["js"]%string then JavaScript.extract content
  else if isType contentType ["py"; "python"]%string then Python.extract content
  else if isType contentType ["java"]%string then Java.extract content
  else if isType contentType ["rs"; "rust"]%string then Rust.extract content
  else if isType contentType ["go"]%string then Go.extract content
  else if isType contentType ["rb"; "ruby"]%string then Ruby.extract content
  else if isType contentType ["cpp"; "cc"; "h"; "hpp"]%string then Cpp.extract content
  else if isType contentType ["cs"; "csharp"]%string then CSharp.extract content
  else if isType contentType ["php"]%string then Php.extract content
  else if isType contentType ["json"]%string && includes (lit "package.json") content
       then Manifest.extract content
  else Some [].

(** The log write of the manifest branch's [catch]. *)
Definition collectLog (content contentType : jstring) (rt : Logger.runtime)
    : Logger.runtime :=
  if isType contentType ["json"]%string && includes (lit "package.json") content
     && negb (snd (Manifest.attempt content))
  then Logger.logError (lit "extract-all-apis")
         [(lit "action", VStr (lit "parse_package_json"))] rt
  else rt.

(** "Deduplicate APIs by signature": the loop over [apis] with the [seen]
    set. *)
Fixpoint dedupLoop (apis : list api) (seen : gset jstring) (uniqueApis : list api)
    : list api :=
  match apis with
  | [] => uniqueApis
  | a :: rest =>
      let key := signature a in
      if decide (key ∈ seen) then dedupLoop rest seen uniqueApis
      else dedupLoop rest ({[key]} ∪ seen) (uniqueApis ++ [a])
  end.

Definition dedup (apis : list api) : list api := dedupLoop apis ∅ [].

Record input := {
  content : jstring;
  contentType : jstring;
  language : option jstring
}.

Record output := { apis : list api; success : bool }.

(** [execute], with the log and the clock it touches. *)
Definition extractAllApis (i : input) (rt : Logger.runtime) : output * Logger.runtime :=
  let rt :=
    Logger.logToolExecution (lit "extract-all-apis")
      [(lit "contentType", VStr (contentType i));
       (lit "contentLength", Logger.num (length (content i)))] None rt in
  let rt := collectLog (content i) (contentType i) rt in
  match collect (content i) (contentType i) with
  | Some found =>
      let uniqueApis := dedup found in
      ({| apis := uniqueApis; success := true |},
       Logger.logToolExecution (lit "extract-all-apis")
         [(lit "contentType", VStr (contentType i))]
         (Some [(lit "apisFound", Logger.num (length uniqueApis))]) rt)
  | None =>
      ({| apis := []; success := false |},
       Logger.logError (lit "extract-all-apis")
         [(lit "contentType", VStr (contentType i))] rt)
  end.

(** A call with no [language]. *)
Definition ask (c t : jstring) : input :=
  {| content := c; contentType := t; language := None |}.

(** The two entries the passes find in the bullet of example A. *)
Definition fooInline : api :=
  {| signature := lit "foo(x)"; description := lit "API method";
     category := Some (lit "inline") |}.
Definition fooListed : api :=
  {| signature := lit "foo(x)"; description := lit "does foo";
     category := Some (lit "list") |}.

(** The manifest of end-to-end example B, and the same manifest with a
    [name] member that mentions package.json. *)
Definition exampleB : jstring :=
  qlit "{'exports':{'.':'./index.js'},'main':'./index.js','types':'./index.d.ts'}".
Definition exampleBNamed : jstring :=
  qlit "{'name':'package.json','exports':{'.':'./index.js'},'main':'./index.js','types':'./index.d.ts'}".

Definition exported (sig desc : string) : api :=
  {| signature := lit sig; description := lit desc; category := Some (lit "export") |}.

End ExtractAllApis.


(** * generate-output

    [src/mastra/tools/generate-output.ts]: the final markdown, by string
    concatenation. *)
Module GenerateOutput.
Import JS.

Record concept := { name : jstring; conceptDescription : jstring }.
Record apiItem := { signature : jstring; apiDescription : jstring }.
Record patternItem := { pattern : jstring; patternDescription : jstring }.

Record input := {
  repoName : jstring;
  repoUrl : jstring;
  purpose : jstring;
  concepts : list concept;
  apis : list apiItem;
  patterns : list patternItem
}.

Record output := { markdown : jstring }.

(** The statements between [let markdown = ...] and the last
    [markdown += ...]; each [for] loop appends one line per element. *)
Definition render (i : input) : jstring :=
  let markdown := lit "## " ++ repoName i ++ lit " - Condensed Context Index" ++ nl ++ nl in
  let markdown := markdown ++ (lit "## Overall Purpose" ++ nl ++ purpose i ++ nl ++ nl) in
  let markdown := markdown ++ (lit "## Core Concepts & Capabilities" ++ nl) in
  let markdown :=
    fold_left (fun markdown c =>
                 markdown ++ (name c ++ lit " - " ++ conceptDescription c ++ nl ++ nl))
              (concepts i) markdown in
  let markdown := markdown ++ (lit "## Key APIs / Components / Configuration" ++ nl) in
  let markdown :=
    fold_left (fun markdown a =>
                 markdown ++ (signature a ++ lit " - " ++ apiDescription a ++ nl ++ nl))
              (apis i) markdown in
  let markdown := markdown ++ (lit "## Common Patterns & Best Practices / Pitfalls" ++ nl) in
  let markdown :=
    fold_left (fun markdown p =>
                 markdown ++ (pattern p ++ lit " - " ++ patternDescription p ++ nl ++ nl))
              (patterns i) markdown in
  markdown ++
    (lit "This index summarizes the core concepts, APIs, and patterns for " ++ repoName i
     ++ lit ". Consult the full source documentation (" ++ repoUrl i
     ++ lit ") for exhaustive details." ++ nl).

(** [execute], with the log and the clock it touches. *)
Definition generateOutput (i : input) (rt : Logger.runtime) : output * Logger.runtime :=
  let rt :=
    Logger.logToolExecution (lit "generate-output")
      [(lit "repoName", VStr (repoName i)); (lit "repoUrl", VStr (repoUrl i));
       (lit "conceptCount", Logger.num (length (concepts i)));
       (lit "apiCount", Logger.num (length (apis i)));
       (lit "patternCount", Logger.num (length (patterns i)))] None rt in
  let markdown := render i in
  ({| markdown := markdown |},
   Logger.logToolExecution (lit "generate-output")
     [(lit "repoName", VStr (repoName i))]
     (Some [(lit "markdownLength", Logger.num (length markdown));
            (lit "sectionsGenerated", Logger.num 4)]) rt).

(** ** The template, as the specification words it

    A title line, four sections (a heading line followed by the section's
    lines) and the closing attribution line. *)
Definition item (label text : jstring) : jstring :=
  label ++ lit " - " ++ text ++ nl ++ nl.

Definition titled (title : string) (lines : list jstring) : jstring :=
  lit "## " ++ lit title ++ nl ++ concat lines.

Definition attribution (i : input) : jstring :=
  lit "This index summarizes the core concepts, APIs, and patterns for " ++ repoName i
  ++ lit ". Consult the full source documentation (" ++ repoUrl i
  ++ lit ") for exhaustive details." ++ nl.

Definition template (i : input) : jstring :=
  (lit "## " ++ repoName i ++ lit " - Condensed Context Index" ++ nl ++ nl)
  ++ titled "Overall Purpose" [purpose i ++ nl ++ nl]
  ++ titled "Core Concepts & Capabilities"
       (map (fun c => item (name c) (conceptDescription c)) (concepts i))
  ++ titled "Key APIs / Components / Configuration"
       (map (fun a => item (signature a) (apiDescription a)) (apis i))
  ++ titled "Common Patterns & Best Practices / Pitfalls"
       (map (fun p => item (pattern p) (patternDescription p)) (patterns i))
  ++ attribution i.

End GenerateOutput.

(** * The remote hosts

    What the network tools see of the world: [fetch], and the body of a
    response. *)
Module Net.
Import JS.

Inductive fetched :=
| Rejected (message : jstring)                   (* the promise rejects *)
| Response (ok : bool) (status : N) (body : option jstring).
    (* [ok] and [status] of the response; [body = None]: reading it fails *)

(** [await response.text()]; [None] is a throw. *)
Definition text (body : option jstring) : option jstring := body.

(** [await response.json()]; [None] is a throw. *)
Definition json (body : option jstring) : option value := body ≫= JSON_parse.

(** A method called on a property that has to be a string; [None] is the
    [TypeError] otherwise. *)
Definition asString (v : value) : option jstring :=
  match v with
  | VStr s => Some s
  | _ => None
  end.

(** ["/\/$/"] replaced by the empty string. *)
Definition stripTrailingSlash (s : jstring) : jstring :=
  if endsWith (lit "/") s then take (length s - 1) s else s.

(** [parts[i]] inside a template literal. *)
Definition part (parts : list jstring) (i : nat) : jstring :=
  default (lit "undefined") (parts !! i).

End Net.

(** * fetch-all-docs

    [src/mastra/tools/fetch-all-docs.ts]: candidate paths, directory
    listings, monorepo packages and manifest entries, fetched one after
    the other into the [files] array. *)
Module FetchAllDocs.
Import JS Net.

(** [Math.ceil(text.length / 4)] *)
Definition estimateTokens (text : jstring) : Z := (Z.of_nat (length text) + 3) / 4.

Definition SKIP_FILES : list jstring :=
  map lit ["CHANGELOG.md"; "CONTRIBUTING.md"; "CODE_OF_CONDUCT.md"; "SECURITY.md";
           "LICENSE"; "LICENSE.md"; "PATENTS"; ".github"; "HISTORY.md";
           "CHANGES.md"; "NEWS.md"]%string.

Definition shouldSkipFile (path : jstring) : bool :=
  let upperPath := toUpperCase path in
  existsb (fun skip => includes (toUpperCase skip) upperPath) SKIP_FILES.

Inductive searchKind := Docs | Types | Source | All.

Record input := {
  repoUrl : jstring;
  searchType : option searchKind;
  maxFiles : option Q
}.

(** An element of [files].  [path] is a string except when a manifest
    declares a [types] entry that is not one. *)
Record file := {
  path : value;
  content : jstring;
  type : jstring;
  truncated : bool;
  originalSize : option nat;
  estimatedTokens : option Z;
  largeFile : bool
}.

Record output := {
  files : list file;
  success : bool;
  error : option jstring;
  totalFound : option nat
}.

Definition plain (p : value) (c ty : jstring) : file :=
  {| path := p; content := c; type := ty; truncated := false;
     originalSize := None; estimatedTokens := None; largeFile := false |}.

Definition docPathsDocs : list jstring :=
  map lit ["README.md"; "readme.md"; "README.rst"; "API.md"; "api.md";
           "REFERENCE.md"; "reference.md"; "docs/API.md"; "docs/api.md";
           "docs/reference.md"; "docs/getting-started.md"; "docs/quick-start.md";
           "documentation.md"; "DOCUMENTATION.md"; "USAGE.md"; "GUIDE.md"]%string.

Definition docPathsTypes : list jstring :=
  map lit ["index.d.ts"; "types/index.d.ts"; "dist/index.d.ts"; "lib/index.d.ts";
           "typings/index.d.ts"; "lodash.d.ts"; "types.d.ts"]%string.

Definition docPathsSource : list jstring :=
  map lit ["package.json"; "index.js"; "index.ts"; "src/index.js"; "src/index.ts";
           "lib/index.js"; "dist/index.js"; "lodash.js"; "main.js"; "main.ts"]%string.

Definition docDirs : list jstring :=
  map lit ["docs"; "documentation"; "doc"; "api-docs"]%string.

Definition typeLocations : list jstring :=
  map lit [""; "types"; "typings"; "dist"; "lib"; "@types"]%string.

(** [s.split('.').pop() || alt] *)
Definition extensionOr (alt : string) (s : jstring) : jstring :=
  let e := afterLastDot s in if eqs e [] then lit alt else e.

Section Run.
(** The remote side: [fetch], and [Buffer.from(x, 'base64').toString()]
    ([None] when it throws). *)
Variable fetch : jstring -> fetched.
Variable base64ToString : value -> option jstring.

Variable url : jstring.            (* repoUrl *)
Variable kind : searchKind.        (* searchType *)
Variable limit : Q.                (* maxFiles *)

Definition isDocs : bool := match kind with Docs | All => true | _ => false end.
Definition isTypes : bool := match kind with Types | All => true | _ => false end.
Definition isSource : bool := match kind with Source | All => true | _ => false end.

(** [files.length >= maxFiles] *)
Definition full (files : list file) : bool := atLeast (Z.of_nat (length files)) limit.

(** [files.length < maxFiles] *)
Definition room (files : list file) : bool := below (Z.of_nat (length files)) limit.

Definition parts : list jstring :=
  split (cu "/") (replaceFirst (lit "https://github.com/") [] url).
Definition owner : jstring := part parts 0.
Definition repo : jstring := part parts 1.
Definition api : jstring :=
  lit "https://api.github.com/repos/" ++ owner ++ lit "/" ++ repo.

Definition docPaths : list jstring :=
  (if isDocs then docPathsDocs else [])
  ++ (if isTypes then docPathsTypes else [])
  ++ (if isSource then docPathsSource else []).

Definition baseUrl : jstring :=
  stripTrailingSlash (replaceFirst (lit "github.com") (lit "raw.githubusercontent.com") url).

(** "Try main branch first, then master": the branch, or the message of
    the probe that rejects. *)
Fixpoint probeBranches (branches : list jstring) (branch : jstring)
    : jstring + jstring :=
  match branches with
  | [] => inl branch
  | currentBranch :: more =>
      match fetch (baseUrl ++ lit "/" ++ currentBranch ++ lit "/README.md") with
      | Rejected message => inr message
      | Response true _ _ => inl currentBranch
      | Response false _ _ => probeBranches more branch
      end
  end.

(** [fetch(v)] for a value [v]: the URL is [String(v)], and a
    conversion that throws rejects the request (with a message of the
    platform's, which no caller reads). *)
Definition fetchValue (v : value) : fetched :=
  match toStr v with
  | Some address => fetch address
  | None => Rejected (lit "Cannot convert object to primitive value")
  end.

Section WithBranch.
Variable branch : jstring.

(** The [try] block of the candidate loop. *)
Definition fetchCandidate (path : jstring) (files : list file) : list file :=
  match fetch (baseUrl ++ lit "/" ++ branch ++ lit "/" ++ path) with
  | Response true _ body =>
      match text body with
      | Some content =>
          let fileType := extensionOr "unknown" path in
          let tokens := estimateTokens content in
          if (50000 <? tokens)%Z then
            if eqs path (lit "package.json") then
              files ++ [{| path := VStr path; content := content; type := fileType;
                           truncated := false; originalSize := None;
                           estimatedTokens := Some tokens; largeFile := true |}]
            else
              files ++ [{| path := VStr path; content := substring0 200000 content;
                           type := fileType; truncated := true;
                           originalSize := Some (length content);
                           estimatedTokens := Some tokens; largeFile := false |}]
          else
            files ++ [{| path := VStr path; content := content; type := fileType;
                         truncated := false; originalSize := None;
                         estimatedTokens := Some tokens; largeFile := false |}]
      | None => files
      end
  | _ => files
  end.

(** "Fetch each documentation file" *)
Fixpoint candidateLoop (paths : list jstring) (files : list file) : list file :=
  match paths with
  | [] => files
  | path :: more =>
      if full files then files
      else if shouldSkipFile path then candidateLoop more files
      else candidateLoop more (fetchCandidate path files)
  end.
End WithBranch.

(** A statement that can throw out of its loop: the array afterwards,
    and [false] when it threw. *)
Abbreviation outcome := (list file * bool)%type.

(** The inner [try] of the documentation-directory pass. *)
Definition fetchDocFile (f : value) (filePath name : jstring) (files : list file)
    : list file :=
  match fetchValue (default VUndefined (getProp f (lit "download_url"))) with
  | Response true _ body =>
      match text body with
      | Some content =>
          let tokens := estimateTokens content in
          if (50000 <? tokens)%Z then
            files ++ [{| path := VStr filePath; content := substring0 200000 content;
                         type := extensionOr "unknown" name; truncated := true;
                         originalSize := Some (length content);
                         estimatedTokens := Some tokens; largeFile := false |}]
          else
            files ++ [{| path := VStr filePath; content := content;
                         type := extensionOr "unknown" name; truncated := false;
                         originalSize := None;
                         estimatedTokens := Some tokens; largeFile := false |}]
      | None => files
      end
  | _ => files
  end.

(** [for (const file of docsContents)] *)
Fixpoint docsEntries (dir : jstring) (listing : list value) (files : list file)
    : outcome :=
  match listing with
  | [] => (files, true)
  | f :: more =>
      if full files then (files, true)
      else
        match getProp f (lit "type") with
        | None => (files, false)
        | Some ty =>
            if isStr (lit "file") ty then
              match getProp f (lit "name") ≫= asString with
              | None => (files, false)
              | Some name =>
                  if endsWith (lit ".md") name || endsWith (lit ".rst") name then
                    let filePath := dir ++ lit "/" ++ name in
                    if shouldSkipFile filePath then docsEntries dir more files
                    else docsEntries dir more (fetchDocFile f filePath name files)
                  else docsEntries dir more files
              end
            else docsEntries dir more files
        end
  end.

(** [for (const dir of docDirs)] *)
Fixpoint docsDirs (dirs : list jstring) (files : list file) : outcome :=
  match dirs with
  | [] => (files, true)
  | dir :: more =>
      if full files then (files, true)
      else
        match fetch (api ++ lit "/contents/" ++ dir) with
        | Rejected _ => (files, false)
        | Response false _ _ => docsDirs more files
        | Response true _ body =>
            match json body ≫= iterate with
            | None => (files, false)
            | Some listing =>
                let '(files', ok) := docsEntries dir listing files in
                if ok then docsDirs more files' else (files', false)
            end
        end
  end.

(** "Try to fetch from GitHub API to discover more files": the body of
    the [try]; its [catch] only logs. *)
Definition discoverDocs (files : list file) : list file :=
  match fetch api with
  | Rejected _ => files
  | Response true _ body =>
      (* [repoData.full_name] and [repoData.language] are printed in a
         console message *)
      match (repoData ← json body;
             full_name ← getProp repoData (lit "full_name");
             language ← getProp repoData (lit "language");
             _ ← toStr full_name;
             toStr language) with
      | None => files
      | Some _ => fst (docsDirs docDirs files)
      end
  | Response false _ _ => fst (docsDirs docDirs files)
  end.

(** [for (const file of contents)] in the type-definition pass. *)
Fixpoint typeEntries (location : jstring) (listing : list value) (files : list file)
    : outcome :=
  match listing with
  | [] => (files, true)
  | f :: more =>
      if full files then (files, true)
      else
        match getProp f (lit "type") with
        | None => (files, false)
        | Some ty =>
            if isStr (lit "file") ty then
              match getProp f (lit "name") ≫= asString with
              | None => (files, false)
              | Some name =>
                  if endsWith (lit ".d.ts") name then
                    typeEntries location more
                      match fetchValue (default VUndefined
                                          (getProp f (lit "download_url"))) with
                      | Response true _ body =>
                          match text body with
                          | Some content =>
                              let filePath :=
                                if eqs location [] then name
                                else location ++ lit "/" ++ name in
                              files ++ [plain (VStr filePath) content (lit "d.ts")]
                          | None => files
                          end
                      | _ => files
                      end
                  else typeEntries location more files
              end
            else typeEntries location more files
        end
  end.

(** [for (const location of typeLocations)] *)
Fixpoint typeDirs (locations : list jstring) (files : list file) : outcome :=
  match locations with
  | [] => (files, true)
  | location :: more =>
      if full files then (files, true)
      else
        match fetch (if eqs location [] then api ++ lit "/contents"
                     else api ++ lit "/contents/" ++ location) with
        | Rejected _ => (files, false)
        | Response false _ _ => typeDirs more files
        | Response true _ body =>
            match json body with
            | None => (files, false)
            | Some (VArr listing) =>
                let '(files', ok) := typeEntries location listing files in
                if ok then typeDirs more files' else (files', false)
            | Some _ => typeDirs more files
            end
        end
  end.

(** "Try to fetch TypeScript definitions from multiple locations" *)
Definition discoverTypes (files : list file) : list file :=
  fst (typeDirs typeLocations files).

(** The three entry files looked for in a package directory. *)
Definition indexFileName (v : value) : option jstring :=
  match v with
  | VStr n =>
      if eqs n (lit "index.d.ts") || eqs n (lit "index.ts") || eqs n (lit "index.js")
      then Some n else None
  | _ => None
  end.

(** [for (const file of pkgContents)] *)
Fixpoint packageEntries (pkgName : jstring) (listing : list value) (files : list file)
    : outcome :=
  match listing with
  | [] => (files, true)
  | f :: more =>
      if full files then (files, true)
      else
        match getProp f (lit "type") with
        | None => (files, false)
        | Some ty =>
            match (if isStr (lit "file") ty
                   then indexFileName (default VUndefined (getProp f (lit "name")))
                   else None) with
            | Some name =>
                packageEntries pkgName more
                  match fetchValue (default VUndefined
                                      (getProp f (lit "download_url"))) with
                  | Response true _ body =>
                      match text body with
                      | Some content =>
                          files ++ [plain (VStr (lit "packages/" ++ pkgName ++ lit "/" ++ name))
                                          content (extensionOr "unknown" name)]
                      | None => files
                      end
                  | _ => files
                  end
            | None => packageEntries pkgName more files
            end
        end
  end.

(** [for (const pkg of packages)] *)
Fixpoint packagesLoop (packages : list value) (files : list file) : outcome :=
  match packages with
  | [] => (files, true)
  | pkg :: more =>
      if full files then (files, true)
      else
        match getProp pkg (lit "type") with
        | None => (files, false)
        | Some ty =>
            if isStr (lit "dir") ty then
              match toStr (default VUndefined (getProp pkg (lit "name"))) with
              | None => (files, false)
              | Some pkgName =>
              match fetch (api ++ lit "/contents/packages/" ++ pkgName
                           ++ lit "/package.json") with
              | Rejected _ => (files, false)
              | Response false _ _ => packagesLoop more files
              | Response true _ body =>
                  match (pkgJsonData ← json body;
                         encoded ← getProp pkgJsonData (lit "content");
                         base64ToString encoded) with
                  | None => (files, false)
                  | Some pkgJsonContent =>
                      let files :=
                        files ++ [plain (VStr (lit "packages/" ++ pkgName
                                               ++ lit "/package.json"))
                                        pkgJsonContent (lit "json")] in
                      match fetch (api ++ lit "/contents/packages/" ++ pkgName) with
                      | Rejected _ => (files, false)
                      | Response ok _ body' =>
                          if ok && room files then
                            match json body' ≫= iterate with
                            | None => (files, false)
                            | Some listing =>
                                let '(files', done) := packageEntries pkgName listing files in
                                if done then packagesLoop more files' else (files', false)
                            end
                          else packagesLoop more files
                      end
                  end
              end
              end
            else packagesLoop more files
        end
  end.

(** "Check if it's a monorepo and handle packages directory".  Reading
    [packages.length] for the console message throws on [null], and so
    does iterating it. *)
Definition monorepo (files : list file) : list file :=
  match fetch (api ++ lit "/contents/packages") with
  | Response true _ body =>
      match json body ≫= iterate with
      | Some packages => fst (packagesLoop packages files)
      | None => files
      end
  | _ => files
  end.

(** "Try to fetch main source file if specified in package.json" *)
Definition manifestEntries (branch : jstring) (files : list file) : list file :=
  match List.find (fun f => isStr (lit "package.json") (path f)) files with
  | None => files
  | Some packageJsonFile =>
      if truncated packageJsonFile then files
      else
        match JSON_parse (content packageJsonFile) with
        | None => files
        | Some pkg =>
            match getProp pkg (lit "main") with
            | None => files
            | Some main =>
                let prop k := default VUndefined (getProp pkg (lit k)) in
                let mainFile := orValue (orValue main (prop "module")) (prop "browser") in
                let typesFile := orValue (prop "types") (prop "typings") in
                (* the two URLs are built outside the inner [try]s: a
                   conversion that throws ends the pass *)
                let '(files, ok) :=
                  if truthy mainFile && room files then
                    match toStr mainFile with
                    | None => (files, false)
                    | Some mainName =>
                        (match fetch (baseUrl ++ lit "/" ++ branch ++ lit "/" ++ mainName) with
                         | Response true _ body =>
                             match text body with
                             | Some content =>
                                 (* [mainFile.split] throws unless it is a string *)
                                 match asString mainFile with
                                 | Some m =>
                                     files ++ [plain (VStr m) content (extensionOr "js" m)]
                                 | None => files
                                 end
                             | None => files
                             end
                         | _ => files
                         end, true)
                    end
                  else (files, true) in
                if ok && truthy typesFile && room files then
                  match toStr typesFile with
                  | None => files
                  | Some typesName =>
                      match fetch (baseUrl ++ lit "/" ++ branch ++ lit "/" ++ typesName) with
                      | Response true _ body =>
                          match text body with
                          | Some content => files ++ [plain typesFile content (lit "d.ts")]
                          | None => files
                          end
                      | _ => files
                      end
                  end
                else files
            end
        end
  end.

(** The passes in order, after the branch is known: first the two that
    consult the denylist, ... *)
Definition afterDocs (branch : jstring) : list file :=
  let files := candidateLoop branch docPaths [] in
  if room files && isDocs then discoverDocs files else files.

(** ... then the type-definition, monorepo and manifest passes. *)
Definition gather (branch : jstring) : list file :=
  let files := afterDocs branch in
  let files := if room files && isTypes then discoverTypes files else files in
  let files := if room files && isTypes then monorepo files else files in
  if isSource then manifestEntries branch files else files.

Definition run : output :=
  match probeBranches [lit "main"; lit "master"] (lit "main") with
  | inl branch =>
      let files := gather branch in
      {| files := files;
         success := bool_decide (files ≠ []);
         error := if bool_decide (files = []) then Some (lit "No documentation files found")
                  else None;
         totalFound := Some (length files) |}
  | inr message =>
      {| files := []; success := false; error := Some message; totalFound := None |}
  end.

End Run.

(** [execute]: [searchType] defaults to ['all'], [maxFiles] to 50. *)
Definition fetchAllDocs (fetch : jstring -> fetched) (base64ToString : value -> option jstring)
    (i : input) : output :=
  run fetch base64ToString (repoUrl i) (default All (searchType i)) (default (integer 50) (maxFiles i)).

(** What the denylist guarantees of an entry: its path is a string that
    [shouldSkipFile] lets through. *)
Definition allowed (f : file) : Prop :=
  exists p, path f = VStr p /\ shouldSkipFile p = false.

(** What the size handling guarantees of an entry: it is marked truncated
    and holds at most 200000 characters, or it is unmarked and holds at
    most 200000 characters unless it is the root manifest. *)
Definition sized (f : file) : Prop :=
  (truncated f = true /\ (Z.of_nat (length (content f)) <= 200000)%Z)
  \/ (truncated f = false
      /\ ((Z.of_nat (length (content f)) <= 200000)%Z
          \/ path f = VStr (lit "package.json"))).

(** ** Sample repositories *)

(** A host that serves the listed URLs and answers 404 to the rest. *)
Definition host (pages : list (jstring * jstring)) (u : jstring) : fetched :=
  match List.find (fun page => eqs (fst page) u) pages with
  | Some page => Response true 200 (Some (snd page))
  | None => Response false 404 None
  end.

(** No package manifest is decoded in the samples. *)
Definition noBase64 (encoded : value) : option jstring := None.

Definition sampleRepo : jstring := lit "https://github.com/o/r".

(** One file in a directory listing of the hosting API. *)
Definition listed (name downloadUrl : string) : jstring :=
  qlit "{'name':'" ++ lit name ++ qlit "','type':'file','download_url':'"
  ++ lit downloadUrl ++ qlit "'}".

(** A repository whose root holds [big.d.ts], 200001 characters long. *)
Definition bigTypes : jstring := replicate (Z.to_nat 200001) (cu "a").
Definition bigTypesHost : jstring -> fetched :=
  host [ (lit "https://api.github.com/repos/o/r/contents",
          lit "[" ++ listed "big.d.ts" "https://raw.githubusercontent.com/o/r/main/big.d.ts"
          ++ lit "]");
         (lit "https://raw.githubusercontent.com/o/r/main/big.d.ts", bigTypes) ].

(** The files hold [big.d.ts] alone, whole and unmarked. *)
Definition keptWhole (fs : list file) : bool :=
  match fs with
  | [f] =>
      isStr (lit "big.d.ts") (path f) && bool_decide (content f = bigTypes)
      && (200000 <? Z.of_nat (length (content f)))%Z && negb (truncated f)
  | _ => false
  end.

(** A repository with [docs/CHANGELOG.rst]. *)
Definition changelogRstHost : jstring -> fetched :=
  host [ (lit "https://api.github.com/repos/o/r/contents/docs",
          lit "[" ++ listed "CHANGELOG.rst"
                       "https://raw.githubusercontent.com/o/r/main/docs/CHANGELOG.rst"
          ++ lit "]");
         (lit "https://raw.githubusercontent.com/o/r/main/docs/CHANGELOG.rst",
          lit "Changes") ].

(** A repository whose root holds [changelog.d.ts]. *)
Definition changelogTypesHost : jstring -> fetched :=
  host [ (lit "https://api.github.com/repos/o/r/contents",
          lit "[" ++ listed "changelog.d.ts"
                       "https://raw.githubusercontent.com/o/r/main/changelog.d.ts"
          ++ lit "]");
         (lit "https://raw.githubusercontent.com/o/r/main/changelog.d.ts",
          lit "export {}") ].

(** A repository with a readme and an API page on its main branch. *)
Definition twoDocsHost : jstring -> fetched :=
  host [ (lit "https://raw.githubusercontent.com/o/r/main/README.md", lit "# r");
         (lit "https://raw.githubusercontent.com/o/r/main/API.md", lit "# API") ].

Definition request (kind : searchKind) (limit : option Q) : input :=
  {| repoUrl := sampleRepo; searchType := Some kind; maxFiles := limit |}.

(** ** What the two size-handling passes build *)

(** The entry of the candidate loop for [path], from the text fetched. *)
Definition candidateEntry (path content : jstring) : file :=
  let fileType := extensionOr "unknown" path in
  let tokens := estimateTokens content in
  if (50000 <? tokens)%Z then
    if eqs path (lit "package.json") then
      {| path := VStr path; content := content; type := fileType;
         truncated := false; originalSize := None;
         estimatedTokens := Some tokens; largeFile := true |}
    else
      {| path := VStr path; content := substring0 200000 content;
         type := fileType; truncated := true;
         originalSize := Some (length content);
         estimatedTokens := Some tokens; largeFile := false |}
  else
    {| path := VStr path; content := content; type := fileType;
       truncated := false; originalSize := None;
       estimatedTokens := Some tokens; largeFile := false |}.

(** The entry of the documentation-directory pass for the file [name]
    at [filePath], from the text fetched. *)
Definition docEntry (filePath name content : jstring) : file :=
  let tokens := estimateTokens content in
  if (50000 <? tokens)%Z then
    {| path := VStr filePath; content := substring0 200000 content;
       type := extensionOr "unknown" name; truncated := true;
       originalSize := Some (length content);
       estimatedTokens := Some tokens; largeFile := false |}
  else
    {| path := VStr filePath; content := content;
       type := extensionOr "unknown" name; truncated := false;
       originalSize := None;
       estimatedTokens := Some tokens; largeFile := false |}.

(** An entry cut by the size rule from the text [original]: the token
    estimate is that of the original; a truncated entry holds the first
    200000 characters of an original that is longer, and its size; an
    entry that is not truncated holds the original, of at most 200000
    characters. *)
Definition wellCut (f : file) : Prop :=
  exists original,
    estimatedTokens f = Some (estimateTokens original) /\ largeFile f = false /\
    if truncated f
    then content f = substring0 200000 original
         /\ (200000 < Z.of_nat (length original))%Z
         /\ originalSize f = Some (length original)
    else content f = original
         /\ (Z.of_nat (length original) <= 200000)%Z
         /\ originalSize f = None.

(** An entry whose path is a string ending in [.md] or [.rst]. *)
Definition docPath (f : file) : Prop :=
  exists p, path f = VStr p
            /\ endsWith (lit ".md") p || endsWith (lit ".rst") p = true.

End FetchAllDocs.

(** * scrape-documentation

    [src/mastra/tools/scrape-documentation.ts]: a bounded breadth-first
    crawl of a documentation site, then removal of repeated records. *)
Module ScrapeDocumentation.
Import JS Net.

Record sitePattern := {
  apiPath : jstring;
  apiListSelector : jstring;
  methodSelector : jstring;
  signatureSelector : jstring;
  descriptionSelector : jstring;
  structure : jstring
}.

(** An apostrophe in a selector stands for a double quote. *)
Definition site (path list meth sig desc struct : string) : sitePattern :=
  {| apiPath := lit path; apiListSelector := qlit list; methodSelector := lit meth;
     signatureSelector := lit sig; descriptionSelector := lit desc;
     structure := lit struct |}.

Definition SITE_PATTERNS : list (jstring * sitePattern) :=
  [ (lit "react.dev",
     site "/reference/react" "a[href*='/reference/react/']" "h1, h2, h3"
          "pre code, .code-block" "p" "react-style");
    (lit "vuejs.org",
     site "/api/" ".api-list a, .sidebar-link" "h2, h3" "pre code"
          ".api-description, p" "vue-style");
    (lit "angular.io",
     site "/api" ".api-list-item a" "h1.api-header" "code.api-doc-code"
          ".api-body" "angular-style");
    (lit "lodash.com",
     site "/docs" ".toc-container a" "h3" "pre" ".doc-desc" "lodash-style");
    (lit "expressjs.com",
     site "/en/api.html" "#menu a" "h2, h3" "pre code" "p" "express-style");
    (lit "docs.python.org",
     site "/3/library/" ".toctree-wrapper a" "dt.sig" ".sig-prename, .sig-name"
          "dd" "python-style");
    (lit "ruby-doc.org",
     site "/core/" "#class-index a, #method-index a" ".method-heading"
          ".method-callseq" ".method-description" "ruby-style");
    (lit "docs.rs",
     site "/" ".sidebar-elems a" "h3.code-header" "pre.rust" ".docblock" "rust-style");
    (lit "pkg.go.dev",
     site "/" ".Documentation-index a" "h3.Documentation-typeFunc" "pre"
          ".Documentation-content p" "go-style");
    (lit "docs.oracle.com",
     site "/javase/" ".contentContainer a" "h3.method-heading" "pre" ".block"
          "java-style");
    (lit "readthedocs.io",
     site "/en/latest/" ".toctree-wrapper a, .sidebar a" "dt" ".sig" "dd"
          "sphinx-style");
    (lit "developer.mozilla.org",
     site "/en-US/docs/" ".sidebar a" "h2, h3" "pre.syntaxbox" "p" "mdn-style") ].

Record api := {
  name : jstring;
  signature : jstring;
  description : jstring;
  pageUrl : jstring;
  category : jstring
}.

Record input := {
  url : jstring;
  maxPages : option Q;
  language : option jstring
}.

Record output := {
  apis : list api;
  pagesScraped : Z;
  success : bool;
  error : option jstring
}.

(** The variables of the crawl. *)
Record state := {
  found : list api;
  visitedUrls : gset jstring;
  urlsToVisit : list jstring;
  scraped : Z
}.

(** [`${api.name}:${api.signature}`] *)
Definition key (a : api) : jstring := name a ++ lit ":" ++ signature a.

(** "Deduplicate APIs" *)
Fixpoint dedupLoop (apis : list api) (seen : gset jstring) (uniqueApis : list api)
    : list api :=
  match apis with
  | [] => uniqueApis
  | a :: rest =>
      if decide (key a ∈ seen) then dedupLoop rest seen uniqueApis
      else dedupLoop rest ({[key a]} ∪ seen) (uniqueApis ++ [a])
  end.

Section Crawl.
Variable fetch : jstring -> fetched.

(** The two scanners of a page, [extractAPIsFromHTML(html, pageUrl)] and
    [extractLinks(html, baseUrl)], with the site profile they close
    over.  They are regular-expression scans of the HTML text and URL
    resolution by the platform's [URL] class; the crawl is defined for
    any such pair.  [extractLinks] gives [None] when [new URL] throws. *)
Variable extractAPIsFromHTML : option sitePattern -> jstring -> jstring -> list api.
Variable extractLinks : option sitePattern -> jstring -> jstring -> option (list jstring).

Variable patterns : option sitePattern.
Variable maxPages : Q.

(** The iterations of the [while] loop up to the next page that is
    fetched: a URL already visited is skipped; a URL whose fetch rejects,
    is not [ok] or has no readable body is marked visited and skipped.
    Gives the page, if any, the queue left and the visited set. *)
Fixpoint nextPage (queue : list jstring) (visited : gset jstring)
    : option (jstring * jstring) * list jstring * gset jstring :=
  match queue with
  | [] => (None, [], visited)
  | currentUrl :: rest =>
      if decide (currentUrl ∈ visited) then nextPage rest visited
      else
        let visited := {[currentUrl]} ∪ visited in
        match fetch currentUrl with
        | Response true _ (Some html) => (Some (currentUrl, html), rest, visited)
        | _ => nextPage rest visited
        end
  end.

(** [for (const link of links)]: a link joins the queue unless visited
    or queued. *)
Definition enqueue (visited : gset jstring) (queue : list jstring) (links : list jstring)
    : list jstring :=
  fold_left (fun queue link =>
               if bool_decide (link ∉ visited) && negb (existsb (eqs link) queue)
               then queue ++ [link] else queue)
            links queue.

(** [while (urlsToVisit.length > 0 && pagesScraped < maxPages)].  A turn
    of [crawl] runs the loop up to and through the next page read, so it
    adds one to [pagesScraped]; the loop therefore ends within
    [ceiling maxPages - pagesScraped] turns, and [fuel] is given that
    many. *)
Fixpoint crawl (fuel : nat) (st : state) : state :=
  match fuel with
  | O => st
  | S fuel' =>
      if below (scraped st) maxPages then
        match nextPage (urlsToVisit st) (visitedUrls st) with
        | (None, queue, visited) =>
            {| found := found st; visitedUrls := visited; urlsToVisit := queue;
               scraped := scraped st |}
        | (Some (currentUrl, html), queue, visited) =>
            let pagesScraped := (scraped st + 1)%Z in
            let pageApis := extractAPIsFromHTML patterns html currentUrl in
            let queue :=
              if below pagesScraped maxPages then
                match extractLinks patterns html currentUrl with
                | Some links => enqueue visited queue links
                | None => queue
                end
              else queue in
            crawl fuel'
              {| found := found st ++ pageApis; visitedUrls := visited;
                 urlsToVisit := queue; scraped := pagesScraped |}
        end
      else st
  end.
End Crawl.

(** [Object.entries(SITE_PATTERNS).find(([domain]) => url.includes(domain))] *)
Definition profileOf (url : jstring) : option sitePattern :=
  snd <$> List.find (fun entry => includes (fst entry) url) SITE_PATTERNS.

(** [execute]: [maxPages] defaults to 10. *)
Definition scrapeDocumentation (fetch : jstring -> fetched)
    (extractAPIsFromHTML : option sitePattern -> jstring -> jstring -> list api)
    (extractLinks : option sitePattern -> jstring -> jstring -> option (list jstring))
    (i : input) : output :=
  let maxPages := default (integer 10) (maxPages i) in
  let st :=
    crawl fetch extractAPIsFromHTML extractLinks (profileOf (url i)) maxPages
          (Z.to_nat (ceiling maxPages))
          {| found := []; visitedUrls := ∅; urlsToVisit := [url i]; scraped := 0 |} in
  let uniqueApis := dedupLoop (found st) ∅ [] in
  {| apis := uniqueApis;
     pagesScraped := scraped st;
     success := bool_decide (uniqueApis ≠ []);
     error := if bool_decide (uniqueApis = []) then Some (lit "No APIs found") else None |}.

(** ** Sample site: one page with two headings of the same name *)
Definition samplePage : jstring := lit "<h2>chunk</h2><h2>chunk</h2>".
Definition sampleSite : jstring -> fetched :=
  fun u => if eqs u (lit "https://lodash.com/docs") then Response true 200 (Some samplePage)
           else Response false 404 None.
(** A scanner that reports one record per occurrence of "<h2>" *)
Definition sampleScan (profile : option sitePattern) (html pageUrl : jstring) : list api :=
  map (fun _ => {| name := lit "chunk"; signature := lit "chunk";
                   description := lit "API method"; pageUrl := pageUrl;
                   category := default (lit "generic") (structure <$> profile) |})
      (execAll false true (str "<h2>") html).
Definition noLinks (profile : option sitePattern) (html baseUrl : jstring)
    : option (list jstring) := Some [].

End ScrapeDocumentation.

(** * analyze-repository

    [src/mastra/tools/analyze-repository.ts]: language, documentation
    sources, package manager and layout of a repository, from the hosting
    API. *)
Module AnalyzeRepository.
Import JS Net.

Record language := { name : jstring; percentage : Z }.

Inductive sourceType := Website | Wiki | Readme | Source | Registry | Generated.

(** [url] is a string whenever the repository metadata has the types the
    hosting API documents. *)
Record source := {
  type : sourceType;
  url : option value;
  path : option jstring;
  priority : Z
}.

(** The [error] text of a failed run: a message the tool knows, or the
    text of an exception raised by the platform ([TypeError],
    [SyntaxError]), which is not modelled. *)
Inductive errorMessage :=
| Message (text : jstring)
| PlatformMessage.

Record packageManager := {
  pmName : jstring;
  registry : jstring;
  packageName : value
}.

Inductive structureType := Monorepo | Standard | MultiPackage.

Record projectStructure := {
  layout : structureType;
  mainPath : option jstring;
  packages : option (list value);
  hasDocs : bool;
  hasTests : bool;
  hasExamples : bool
}.

Record output := {
  primaryLanguage : jstring;
  languages : list language;
  documentationSources : list source;
  manager : option packageManager;
  structure : projectStructure;
  success : bool;
  error : option errorMessage
}.

Definition standardStructure : projectStructure :=
  {| layout := Standard; mainPath := None; packages := None;
     hasDocs := false; hasTests := false; hasExamples := false |}.

(** The result of the outer [catch]. *)
Definition failure (message : errorMessage) : output :=
  {| primaryLanguage := lit "unknown"; languages := []; documentationSources := [];
     manager := None; structure := standardStructure;
     success := false; error := Some message |}.

Definition website (u : jstring) : source :=
  {| type := Website; url := Some (VStr u); path := None; priority := 1 |}.

(** "https?:\/\/" *)
Definition scheme : re := seq [str "http"; opt (chr "s"); str "://"].

(** [DOC_PATTERNS.websites], all with the [i] flag *)
Definition websitePatterns : list re :=
  [ (* "/https?:\/\/[\w.-]+\.(?:io|dev|com|org|net)\/(?:docs?|api|reference)/i" *)
    seq [scheme; plus (oneOf [ClsW; ch "."; ch "-"]); chr ".";
         alts [str "io"; str "dev"; str "com"; str "org"; str "net"]; chr "/";
         alts [seq [str "doc"; opt (chr "s")]; str "api"; str "reference"]];
    (* "/documentation.*(?:url|site|link)/i" *)
    seq [str "documentation"; star Dot; alts [str "url"; str "site"; str "link"]];
    (* "/(?:docs?|api).*https?:\/\//i" *)
    seq [alts [seq [str "doc"; opt (chr "s")]; str "api"]; star Dot; scheme] ].

(** "/https?:\/\/[^\s)>\]]+/" *)
Definition urlRegex : re :=
  seq [scheme; plus (noneOf [ClsS; ch ")"; ch ">"; ch "]"])].

Definition DOC_SITES : list (jstring * list string) :=
  [ (lit "javascript", ["npmjs.com"; "unpkg.com"; "jsdelivr.com"; "nodejs.org"]);
    (lit "python", ["readthedocs.io"; "pypi.org"; "python.org"; "sphinx-doc.org"]);
    (lit "java", ["javadoc.io"; "maven.org"; "docs.oracle.com"]);
    (lit "rust", ["docs.rs"; "crates.io"; "rust-lang.org"]);
    (lit "go", ["pkg.go.dev"; "godoc.org"; "golang.org"]);
    (lit "ruby", ["rubydoc.info"; "rubygems.org"; "ruby-doc.org"]);
    (lit "cpp", ["cppreference.com"; "cplusplus.com"; "doxygen.org"]);
    (lit "csharp", ["docs.microsoft.com"; "nuget.org"]);
    (lit "php", ["php.net"; "packagist.org"; "phpdoc.org"]);
    (lit "swift", ["developer.apple.com"; "swiftpackageindex.com"]);
    (lit "kotlin", ["kotlinlang.org"; "dokka.dev"]) ]%string.

(** [DOC_SITES[primaryLanguage] || []]; [None] when the key names an
    inherited property of the table, whose value is not iterable. *)
Definition sitesFor (primaryLanguage : jstring) : option (list string) :=
  match List.find (fun entry => eqs (fst entry) primaryLanguage) DOC_SITES with
  | Some entry => Some (snd entry)
  | None =>
      if eqs primaryLanguage (lit "constructor") || eqs primaryLanguage (lit "__proto__")
      then None else Some []
  end.

(** [new RegExp(`https?://[\\w.-]*${site}[/\\w.-]*`, 'gi')]: a dot of the
    site name is the wildcard. *)
Definition siteRegex (siteName : string) : re :=
  seq [scheme; star (oneOf [ClsW; ch "."; ch "-"]);
       seq (map (fun x => if x =? cu "." then Dot else Set_ false [One x]) (lit siteName));
       star (oneOf [ch "/"; ClsW; ch "."; ch "-"])].

Definition PACKAGE_MANAGERS : list (string * (string * string)) :=
  [ ("package.json", ("npm", "https://registry.npmjs.org/"));
    ("Cargo.toml", ("cargo", "https://crates.io/"));
    ("pom.xml", ("maven", "https://search.maven.org/"));
    ("build.gradle", ("gradle", "https://search.maven.org/"));
    ("requirements.txt", ("pip", "https://pypi.org/"));
    ("setup.py", ("pip", "https://pypi.org/"));
    ("pyproject.toml", ("pip", "https://pypi.org/"));
    ("go.mod", ("go", "https://pkg.go.dev/"));
    ("Gemfile", ("bundler", "https://rubygems.org/"));
    ("*.gemspec", ("gem", "https://rubygems.org/"));
    ("composer.json", ("composer", "https://packagist.org/"));
    ("Package.swift", ("spm", "https://swiftpackageindex.com/"));
    ("*.csproj", ("nuget", "https://www.nuget.org/")) ]%string.

(** [xs.some(f)] where [f] can throw: [None] is the throw. *)
Fixpoint someM {A} (f : A -> option bool) (xs : list A) : option bool :=
  match xs with
  | [] => Some false
  | x :: more => b ← f x; if b : bool then Some true else someM f more
  end.

Definition oneOfNames (names : list string) (s : jstring) : bool :=
  existsb (eqs s) (map lit names).

(** Stable sort by priority, as [sort((a, b) => a.priority - b.priority)]. *)
Fixpoint insertByPriority (x : source) (sorted : list source) : list source :=
  match sorted with
  | [] => [x]
  | y :: more =>
      if (priority x <=? priority y)%Z then x :: sorted else y :: insertByPriority x more
  end.
Definition sortByPriority (sources : list source) : list source :=
  fold_right insertByPriority [] sources.

Section Run.
Variable fetch : jstring -> fetched.

(** The language shares computed from the histogram
    ([Object.values], [reduce], [Math.round] of a quotient of doubles,
    [sort]), most used first; [None] when that code throws.  Floating
    point is not modelled: any such function. *)
Variable languageBreakdown : value -> option (list language).

Variable repoUrl : jstring.

Definition parts : list jstring :=
  split (cu "/") (replaceFirst (lit "https://github.com/") [] repoUrl).
Definition owner : jstring := part parts 0.
Definition repo : jstring := part parts 1.
Definition api : jstring :=
  lit "https://api.github.com/repos/" ++ owner ++ lit "/" ++ repo.

(** "3. Fetch README to find documentation links": the [try] block; what
    was pushed before a throw stays. *)
Definition readmeSources (primaryLanguage : jstring) (sources : list source)
    : list source :=
  match fetch (api ++ lit "/readme") with
  | Response true _ body =>
      match text body with
      | Some readmeContent =>
          let sources :=
            sources ++ [{| type := Readme; url := None; path := Some (lit "README.md");
                           priority := 2 |}] in
          let sources :=
            fold_left (fun sources pattern =>
              match execFirst false true pattern readmeContent with
              | Some m =>
                  match execFirst false false urlRegex (m_text m) with
                  | Some u => sources ++ [website (m_text u)]
                  | None => sources
                  end
              | None => sources
              end) websitePatterns sources in
          match sitesFor primaryLanguage with
          | Some langDocSites =>
              fold_left (fun sources siteName =>
                if includes (lit siteName) readmeContent then
                  match execFirst false true (siteRegex siteName) readmeContent with
                  | Some m => sources ++ [website (m_text m)]
                  | None => sources
                  end
                else sources) langDocSites sources
          | None => sources
          end
      | None => sources
      end
  | _ => sources
  end.

(** [file.includes('*') ? name.endsWith(file.replace('*', '')) : name === file] *)
Definition matchesManifest (file : string) (name : value) : option bool :=
  if includes (lit "*") (lit file)
  then (fun s => endsWith (replaceFirst (lit "*") [] (lit file)) s) <$> asString name
  else Some (isStr (lit file) name).

(** [for (const [file, info] of Object.entries(PACKAGE_MANAGERS))]: the
    binding and its registry source, or a throw ([None]).  The binding is
    assigned before the URL of the source is built: when that conversion
    throws, the binding stays and there is no source. *)
Fixpoint findManager (table : list (string * (string * string))) (fileNames : list value)
    (packageName : value) : option (option (packageManager * option source)) :=
  match table with
  | [] => Some None
  | (file, (pm, reg)) :: more =>
      hit ← someM (matchesManifest file) fileNames;
      if hit : bool then
        Some (Some ({| pmName := lit pm; registry := lit reg; packageName := packageName |},
                    (fun name => {| type := Registry; url := Some (VStr (lit reg ++ name));
                                    path := None; priority := 2 |})
                      <$> toStr packageName))
      else findManager more fileNames packageName
  end.

(** "4. Check for package manager and registry": the [try] block, on the
    sources and the binding; both keep what was assigned before a throw. *)
Definition contentsFacet (packageName : value) (sources : list source)
    : list source * option packageManager :=
  match fetch (api ++ lit "/contents") with
  | Response true _ body =>
      match json body with
      | Some (VArr contents) =>
          match mapM (fun item => getProp item (lit "name")) contents with
          | Some fileNames =>
              match findManager PACKAGE_MANAGERS fileNames packageName with
              | None => (sources, None)
              | Some (Some (manager, None)) => (sources, Some manager)
              | Some found =>
                  let sources := sources ++ option_list (found ≫= snd) in
                  let manager := fst <$> found in
                  match someM (fun name => oneOfNames ["docs"; "documentation"; "doc"; "api"]
                                             <$> (toLowerCase <$> asString name))
                              fileNames with
                  | None => (sources, manager)
                  | Some hasDocs =>
                      let sources :=
                        if hasDocs
                        then sources ++ [{| type := Source; url := None;
                                            path := Some (lit "docs/"); priority := 4 |}]
                        else sources in
                      match someM (fun name =>
                               (fun lower =>
                                  existsb (fun doc => includes (lit doc) lower)
                                    ["javadoc"; "rustdoc"; "godoc"; "yard"; "doxygen";
                                     "sphinx"]%string)
                               <$> (toLowerCase <$> asString name))
                             fileNames with
                      | None => (sources, manager)
                      | Some hasGeneratedDocs =>
                          (if hasGeneratedDocs
                           then sources ++ [{| type := Generated; url := None;
                                               path := Some (lit "generated-docs/");
                                               priority := 3 |}]
                           else sources, manager)
                      end
                  end
              end
          | None => (sources, None)
          end
      | _ => (sources, None)    (* [json()] throws, or no [map] method *)
      end
  | _ => (sources, None)
  end.

(** [item.name.toLowerCase()] *)
Definition lowerName (item : value) : option jstring :=
  n ← getProp item (lit "name"); toLowerCase <$> asString n.

(** [items.filter(item => item.type === 'dir')] *)
Fixpoint dirsOf (items : list value) : option (list value) :=
  match items with
  | [] => Some []
  | item :: more =>
      ty ← getProp item (lit "type");
      dirs ← dirsOf more;
      Some (if isStr (lit "dir") ty then item :: dirs else dirs)
  end.

(** [determineProjectStructure(owner, repo)] *)
Definition determineProjectStructure : projectStructure :=
  match fetch (api ++ lit "/contents") with
  | Response true _ body =>
      match json body with
      | Some (VArr contents) =>
          match mapM lowerName contents, dirsOf contents ≫= mapM lowerName with
          | Some fileNames, Some dirNames =>
              let has (names : list string) (among : list jstring) : bool :=
                existsb (fun n => oneOfNames names n) among in
              let isMonorepo :=
                has ["lerna.json"; "rush.json"; "pnpm-workspace.yaml"; "nx.json"]%string fileNames
                || has ["packages"]%string dirNames in
              let isMultiPackage :=
                has ["packages"; "libs"; "modules"; "components"]%string dirNames in
              let pkgs :=
                if isMonorepo && has ["packages"]%string dirNames then
                  match fetch (api ++ lit "/contents/packages") with
                  | Response true _ body' =>
                      match json body' with
                      | Some (VArr packagesData) =>
                          dirsOf packagesData
                          ≫= mapM (fun item => getProp item (lit "name"))
                      | _ => None
                      end
                  | _ => None
                  end
                else None in
              {| layout := if isMonorepo then Monorepo
                           else if isMultiPackage then MultiPackage else Standard;
                 mainPath :=
                   if has ["src"]%string dirNames then Some (lit "src/")
                   else if has ["lib"]%string dirNames then Some (lit "lib/")
                   else if has ["app"]%string dirNames then Some (lit "app/")
                   else None;
                 packages := pkgs;
                 hasDocs := has ["docs"; "documentation"; "doc"; "api"]%string dirNames;
                 hasTests := has ["test"; "tests"; "spec"; "specs"; "__tests__"]%string dirNames;
                 hasExamples :=
                   has ["examples"; "example"; "demo"; "demos"; "samples"]%string dirNames |}
          | _, _ => standardStructure
          end
      | _ => standardStructure
      end
  | _ => standardStructure
  end.

(** [execute] *)
Definition analyzeRepository : output :=
  match fetch api with
  | Rejected message => failure (Message message)
  | Response false status _ =>
      failure (Message (lit "Failed to fetch repository metadata: " ++ lit (pretty status)))
  | Response true _ body =>
      match json body with
      | None => failure PlatformMessage
      | Some repoData =>
          (* "Get language statistics": no [try] around this fetch *)
          match fetch (api ++ lit "/languages") with
          | Rejected message => failure (Message message)
          | Response _ _ languagesBody =>
              match json languagesBody ≫= languageBreakdown with
              | None => failure PlatformMessage
              | Some languages =>
                  let primaryLanguage :=
                    match languages with
                    | first :: _ =>
                        if eqs (name first) [] then lit "unknown"
                        else toLowerCase (name first)
                    | [] => lit "unknown"
                    end in
                  (* [repoData.homepage] throws when [repoData] is null *)
                  match getProp repoData (lit "homepage") with
                  | None => failure PlatformMessage
                  | Some homepage =>
                      let prop k := default VUndefined (getProp repoData (lit k)) in
                      (* [repoData.homepage && repoData.homepage.includes('http')] *)
                      match (if truthy homepage then
                               match homepage with
                               | VStr h => Some (includes (lit "http") h)
                               | VArr items => Some (existsb (isStr (lit "http")) items)
                               | _ => None
                               end
                             else Some false) with
                      | None => failure PlatformMessage
                      | Some linked =>
                      let sources :=
                        if linked : bool
                        then [{| type := Website; url := Some homepage; path := None;
                                 priority := 1 |}]
                        else [] in
                      let sources :=
                        if truthy (prop "has_wiki")
                        then sources ++ [{| type := Wiki;
                                            url := Some (VStr (repoUrl ++ lit "/wiki"));
                                            path := None; priority := 3 |}]
                        else sources in
                      let sources := readmeSources primaryLanguage sources in
                      let '(sources, pm) := contentsFacet (prop "name") sources in
                      {| primaryLanguage := primaryLanguage;
                         languages := languages;
                         documentationSources := sortByPriority sources;
                         manager := pm;
                         structure := determineProjectStructure;
                         success := true;
                         error := None |}
                      end
                  end
              end
          end
      end
  end.
End Run.

(** ** Sample host: metadata is served, the language histogram is not *)
Definition metadataOnly : jstring -> fetched :=
  fun u =>
    if eqs u (lit "https://api.github.com/repos/o/r")
    then Response true 200 (Some (qlit "{'name':'r','homepage':null,'has_wiki':false}"))
    else if eqs u (lit "https://api.github.com/repos/o/r/languages")
    then Rejected (lit "fetch failed")
    else Response false 404 None.

(** The same host with the histogram served and the readme request
    rejected instead. *)
Definition readmeRejected : jstring -> fetched :=
  fun u =>
    if eqs u (lit "https://api.github.com/repos/o/r")
    then Response true 200 (Some (qlit "{'name':'r','homepage':null,'has_wiki':false}"))
    else if eqs u (lit "https://api.github.com/repos/o/r/languages")
    then Response true 200 (Some (qlit "{'TypeScript':10}"))
    else if eqs u (lit "https://api.github.com/repos/o/r/readme")
    then Rejected (lit "fetch failed")
    else Response false 404 None.

(** A stand-in for the share computation: one language at 100 per cent
    for each key of the histogram. *)
Definition allOrNothing (histogram : value) : option (list language) :=
  (fun ms => map (fun kv => {| name := fst kv; percentage := 100 |}) ms)
  <$> entries histogram.

(** A host that serves the metadata and the histogram and rejects every
    other request. *)
Definition laterDown : jstring -> fetched :=
  fun u =>
    if eqs u (lit "https://api.github.com/repos/o/r")
    then Response true 200
           (Some (qlit "{'name':'r','homepage':'https://r.dev','has_wiki':true}"))
    else if eqs u (lit "https://api.github.com/repos/o/r/languages")
    then Response true 200 (Some (qlit "{'TypeScript':10}"))
    else Rejected (lit "fetch failed").

(** A source whose priority is one of the four the tool assigns. *)
Definition ranked (s : source) : Prop := (1 <= priority s <= 4)%Z.

End AnalyzeRepository.

(** * extract-code-patterns

    [src/mastra/tools/extract-code-patterns.ts]: class instantiations,
    method calls and configuration calls found in code blocks, each kind
    without repeats. *)
Module ExtractCodePatterns.
Import JS.

(** [className] is the first group of a match ([None]: [undefined]). *)
Record instantiation := {
  className : option jstring;
  instantiationDescription : jstring
}.

Record methodCall := {
  objectName : option jstring;
  methodName : option jstring;
  methodCallDescription : jstring
}.

Record configuration := {
  functionName : option jstring;
  configurationDescription : jstring
}.

Record output := {
  instantiations : list instantiation;
  methodCalls : list methodCall;
  configurations : list configuration
}.

(** "[A-Za-z0-9_]+" *)
Definition word : re :=
  plus (oneOf [rng "A" "Z"; rng "a" "z"; rng "0" "9"; ch "_"]).
(** "[A-Za-z0-9_]+(?:\.[A-Za-z0-9_]+)*" *)
Definition dotted : re := seq [word; star (seq [chr "."; word])].

(** "/new\s+([A-Za-z0-9_]+(?:\.[A-Za-z0-9_]+)*)\s*\(/g" *)
Definition instantiationRegex : re :=
  seq [str "new"; plus s_; Cap 1 dotted; star s_; chr "("].

(** "/([A-Za-z0-9_]+(?:\.[A-Za-z0-9_]+)*)\s*\.\s*([A-Za-z0-9_]+)\s*\(/g" *)
Definition methodCallRegex : re :=
  seq [Cap 1 dotted; star s_; chr "."; star s_; Cap 2 word; star s_; chr "("].

(** "/([A-Za-z0-9_]+(?:\.[A-Za-z0-9_]+)*)\s*\(\s*\{[^}]*\}/g" *)
Definition configRegex : re :=
  seq [Cap 1 dotted; star s_; chr "("; star s_; chr "{"; star (noneOf [ch "}"]);
       chr "}"].

(** The body of [for (const match of instantiationMatches)]. *)
Definition addInstantiation (instantiations : list instantiation) (m : rmatch)
    : list instantiation :=
  let className_ := group m 1 in
  if existsb (fun i => bool_decide (className i = className_)) instantiations
  then instantiations
  else instantiations ++
       [{| className := className_;
           instantiationDescription :=
             lit "Creates a new instance of " ++ default (lit "undefined") className_ |}].

(** What [methodCalls.some(m => m.objectName === objectName && m.methodName
    === methodName)] compares. *)
Definition callKey (c : methodCall) : option jstring * option jstring :=
  (objectName c, methodName c).

(** The body of [for (const match of methodCallMatches)]. *)
Definition addMethodCall (methodCalls : list methodCall) (m : rmatch)
    : list methodCall :=
  let objectName_ := group m 1 in
  let methodName_ := group m 2 in
  if existsb (fun c => bool_decide (objectName c = objectName_)
                       && bool_decide (methodName c = methodName_)) methodCalls
  then methodCalls
  else methodCalls ++
       [{| objectName := objectName_; methodName := methodName_;
           methodCallDescription :=
             lit "Calls the " ++ default (lit "undefined") methodName_
             ++ lit " method on " ++ default (lit "undefined") objectName_ |}].

(** The body of [for (const match of configMatches)]. *)
Definition addConfiguration (configurations : list configuration) (m : rmatch)
    : list configuration :=
  let functionName_ := group m 1 in
  if existsb (fun c => bool_decide (functionName c = functionName_)) configurations
  then configurations
  else configurations ++
       [{| functionName := functionName_;
           configurationDescription :=
             lit "Configures " ++ default (lit "undefined") functionName_
             ++ lit " with options" |}].

(** One iteration of [for (const block of codeBlocks)]: the three
    [matchAll] loops, each over all the matches of its pattern. *)
Definition scanBlock (found : output) (block : jstring) : output :=
  {| instantiations :=
       fold_left addInstantiation (execAll false false instantiationRegex block)
                 (instantiations found);
     methodCalls :=
       fold_left addMethodCall (execAll false false methodCallRegex block)
                 (methodCalls found);
     configurations :=
       fold_left addConfiguration (execAll false false configRegex block)
                 (configurations found) |}.

Definition nothing : output :=
  {| instantiations := []; methodCalls := []; configurations := [] |}.

Definition scanBlocks (codeBlocks : list jstring) : output :=
  fold_left scanBlock codeBlocks nothing.

(** [execute], with the log and the clock it touches. *)
Definition extractCodePatterns (codeBlocks : list jstring) (rt : Logger.runtime)
    : output * Logger.runtime :=
  let rt :=
    Logger.logToolExecution (lit "extract-code-patterns")
      [(lit "codeBlockCount", Logger.num (length codeBlocks))] None rt in
  let result := scanBlocks codeBlocks in
  (result,
   Logger.logToolExecution (lit "extract-code-patterns")
     [(lit "codeBlockCount", Logger.num (length codeBlocks))]
     (Some [(lit "instantiationsFound", Logger.num (length (instantiations result)));
            (lit "methodCallsFound", Logger.num (length (methodCalls result)));
            (lit "configurationsFound", Logger.num (length (configurations result)))])
     rt).

(** A unit of a dotted name, and of a plain one. *)
Definition nameUnit (x : N) : bool := isWord x || (x =? cu ".").

(** A dotted name: set, not empty, made of letters, digits, underscores
    and dots. *)
Definition dottedName (n : option jstring) : Prop :=
  exists t, n = Some t /\ t <> [] /\ Forall (fun x => nameUnit x = true) t.

(** A plain name: set, not empty, made of letters, digits and
    underscores. *)
Definition plainName (n : option jstring) : Prop :=
  exists t, n = Some t /\ t <> [] /\ Forall (fun x => isWord x = true) t.

(** Some code with an instantiation, a method call and a configuration. *)
Definition sampleBlock : jstring :=
  lit "const wb = new ExcelJS.Workbook(); wb.xlsx.readFile(p); configure({ a: 1 })".

End ExtractCodePatterns.

(** * The page scanners of scrape-documentation

    [extractAPIsFromHTML] and [extractLinks], the two helpers that
    [execute] of [src/mastra/tools/scrape-documentation.ts] defines and
    calls on every page it reads.  In the patterns quoted below an
    apostrophe stands for a double quote. *)
Module ScrapePages.
Import JS Net ScrapeDocumentation.

(** [s.split(sep)] for a separator of at least one code unit; [skip]
    counts the units of a separator still to pass. *)
Fixpoint splitAux (sep : jstring) (skip : nat) (s : jstring) : list jstring :=
  match s with
  | [] => [[]]
  | x :: s' =>
      match skip with
      | S k => splitAux sep k s'
      | O =>
          if startsWith sep s then [] :: splitAux sep (length sep - 1) s'
          else match splitAux sep 0 s' with
               | cur :: more => (x :: cur) :: more
               | [] => [[x]]
               end
      end
  end.
Definition splitOn (sep s : jstring) : list jstring := splitAux sep 0 s.

(** The double quote. *)
Definition dq : N := 34.
Definition notQuote : re := noneOf [One dq].        (* [^'] *)
Definition notGt : re := noneOf [ch ">"].           (* [^>] *)
Definition notLt : re := noneOf [ch "<"].           (* [^<] *)

(** A selector text spliced into the source of a pattern: a dot becomes
    [dot], any other unit stands for itself.  The selectors of
    [SITE_PATTERNS] hold letters, digits, hyphens, spaces and dots only
    (see [plainSelectors]), none of which is special in a pattern but
    the dot. *)
Definition unitRe (dot : re) (x : N) : re :=
  if x =? cu "." then dot else Set_ false [One x].
Definition selectorRe (dot : re) (s : jstring) : re := seq (map (unitRe dot) s).

(** "[^>]*class='[^']*", what [replace(/\./g, ...)] puts for a dot *)
Definition classOpen : re :=
  seq [star notGt; seq (map (fun x => Set_ false [One x]) (qlit "class='"));
       star notQuote].
(** "[^']*'", what [replace(/$/g, ...)] appends to the source *)
Definition classClose : re := seq [star notQuote; Set_ false [One dq]].

(** The appended text belongs to the last alternative. *)
Fixpoint closeLast (rs : list re) : list re :=
  match rs with
  | [] => []
  | [r] => [Cat r classClose]
  | r :: more => r :: closeLast more
  end.

(** "<(S)[^>]*>([^<]+)<" with the flags [gi], where [S] is
    [selector.split(', ').join('|')] *)
Definition methodPattern (selector : jstring) : re :=
  seq [chr "<"; Cap 1 (alts (map (selectorRe Dot) (splitOn (lit ", ") selector)));
       star notGt; chr ">"; Cap 2 (plus notLt); chr "<"].

(** "<(?:S)[^>]*>([^<]+)<" with the flag [i], where [S] is
    [selector.split(', ').join('|')] with every dot replaced and the
    closing text appended *)
Definition classPattern (selector : jstring) : re :=
  seq [chr "<"; alts (closeLast (map (selectorRe classOpen) (splitOn (lit ", ") selector)));
       star notGt; chr ">"; Cap 1 (plus notLt); chr "<"].

(** [GENERIC_PATTERNS.methodSelectors] after [selector.replace('.', '')],
    as they read inside a pattern: a word, or (the last two) a bracketed
    class of the units between the brackets. *)
Definition genericSelectors : list re :=
  map str ["h1"; "h2"; "h3"; "method-name"; "function-name"; "api-name"]%string
  ++ [oneOf (map One (qlit "class*='method'"));
      oneOf (map One (qlit "class*='function'"))].

(** "<[^>]*(?:class|id)='[^']*S[^']*'[^>]*>([^<]+)<" with the flags
    [gi], where [S] is the selector *)
Definition genericPattern (selector : re) : re :=
  seq [chr "<"; star notGt; alts [str "class"; str "id"]; chr "=";
       Set_ false [One dq]; star notQuote; selector; star notQuote;
       Set_ false [One dq]; star notGt; chr ">"; Cap 1 (plus notLt); chr "<"].

(** "/<(?:pre|code)[^>]*>([^<]+)</i" *)
Definition codePattern : re :=
  seq [chr "<"; alts [str "pre"; str "code"]; star notGt; chr ">";
       Cap 1 (plus notLt); chr "<"].

(** "/<p[^>]*>([^<]+)</i" *)
Definition paraPattern : re :=
  seq [str "<p"; star notGt; chr ">"; Cap 1 (plus notLt); chr "<"].

(** [html.substring(from, to)] for [from <= to]. *)
Definition substring (from to : nat) (s : jstring) : jstring :=
  take (to - from) (drop from s).

(** [/^[a-zA-Z_$]/.test(s)] *)
Definition startsLikeName (s : jstring) : bool :=
  match s with
  | x :: _ => isLower x || isUpper x || (x =? cu "_") || (x =? cu "$")
  | [] => false
  end.

(** [methodName.length < 2 || methodName.length > 100] and the test of
    the first unit: the two [continue]s. *)
Definition skipped (methodName : jstring) : bool :=
  (length methodName <? 2)%nat || (100 <? length methodName)%nat
  || negb (startsLikeName methodName).

(** [m ? m[1].trim() : alt] for the first match [m] of a pattern in the
    context; [None] when the group is unset (a [TypeError]). *)
Definition firstGroupOr (r : re) (context alt : jstring) : option jstring :=
  match execFirst false true r context with
  | Some m => trim <$> group m 1
  | None => Some alt
  end.

(** [m ? m[1].trim().substring(0, 200) : ''] *)
Definition describe (r : re) (context : jstring) : option jstring :=
  match execFirst false true r context with
  | Some m => (fun d => substring0 200 (trim d)) <$> group m 1
  | None => Some []
  end.

(** [description || 'API method'] *)
Definition orApiMethod (description : jstring) : jstring :=
  if eqs description [] then lit "API method" else description.

(** The body of the [while] loop of the site-specific branch. *)
Definition siteRecord (patterns : sitePattern) (html pageUrl : jstring)
    (pageApis : list api) (methodMatch : rmatch) : option (list api) :=
  methodName ← trim <$> group methodMatch 2;
  if skipped methodName then Some pageApis
  else
    let contextStart := (m_index methodMatch - 500)%nat in
    let contextEnd := Nat.min (length html) (m_index methodMatch + 2000) in
    let context := substring contextStart contextEnd html in
    signature ← firstGroupOr (classPattern (signatureSelector patterns)) context methodName;
    description ← describe (classPattern (descriptionSelector patterns)) context;
    Some (pageApis ++
          [{| name := methodName; signature := signature;
              description := orApiMethod description;
              pageUrl := pageUrl; category := structure patterns |}]).

(** The body of the [while] loop of the generic branch. *)
Definition genericRecord (html pageUrl : jstring) (pageApis : list api) (m : rmatch)
    : option (list api) :=
  methodName ← trim <$> group m 1;
  if skipped methodName then Some pageApis
  else
    let contextStart := m_index m in
    let contextEnd := Nat.min (length html) (m_index m + 1500) in
    let context := substring contextStart contextEnd html in
    signature ← firstGroupOr codePattern context methodName;
    description ← describe paraPattern context;
    Some (pageApis ++
          [{| name := methodName; signature := signature;
              description := orApiMethod description;
              pageUrl := pageUrl; category := lit "generic" |}]).

(** [extractAPIsFromHTML(html, pageUrl)]; [None] is a thrown exception. *)
Definition extractAPIsFromHTML (patterns : option sitePattern) (html pageUrl : jstring)
    : option (list api) :=
  match patterns with
  | Some patterns =>
      forEach (siteRecord patterns html pageUrl) []
              (execAll false true (methodPattern (methodSelector patterns)) html)
  | None =>
      forEach (fun pageApis selector =>
                 forEach (genericRecord html pageUrl) pageApis
                         (execAll false true (genericPattern selector) html))
              [] genericSelectors
  end.

(** What the crawl gets from the scanner.  On the profiles the tool
    passes the scanner never throws, so the default is never used. *)
Definition scanApis (patterns : option sitePattern) (html pageUrl : jstring) : list api :=
  default [] (extractAPIsFromHTML patterns html pageUrl).

(** ** Links *)

(** What the code reads of [new URL(baseUrl)]. *)
Record urlParts := { protocol : jstring; host : jstring; pathname : jstring }.

(** "/<a[^>]*href='([^']+)'[^>]*>/gi" *)
Definition linkPattern : re :=
  seq [str "<a"; star notGt; seq (map (fun x => Set_ false [One x]) (qlit "href='"));
       Cap 1 (plus notQuote); Set_ false [One dq]; star notGt; chr ">"].

(** "/api|reference|docs|methods|functions|classes/i" *)
Definition keywords : re :=
  alts [str "api"; str "reference"; str "docs"; str "methods"; str "functions";
        str "classes"].

(** The text from the first [c] on, or nothing. *)
Fixpoint fromFirst (c : N) (s : jstring) : jstring :=
  match s with
  | [] => []
  | x :: s' => if x =? c then s else fromFirst c s'
  end.

(** [s.substring(0, s.lastIndexOf('/'))]: empty when [s] has no slash. *)
Definition beforeLastSlash (s : jstring) : jstring :=
  rev (drop 1 (fromFirst (cu "/") (rev s))).

Section Links.
(** The platform's URL parser: [None] when [new URL] throws. *)
Variable parseUrl : jstring -> option urlParts.

(** The absolute URL of an [href] found on the page at [baseUrl]. *)
Definition absoluteUrl (baseUrl href : jstring) : option jstring :=
  if startsWith (lit "/") href then
    urlObj ← parseUrl baseUrl;
    Some (protocol urlObj ++ lit "//" ++ host urlObj ++ href)
  else if negb (startsWith (lit "http") href) then
    urlObj ← parseUrl baseUrl;
    let basePath := beforeLastSlash (pathname urlObj) in
    Some (protocol urlObj ++ lit "//" ++ host urlObj ++ basePath ++ lit "/" ++ href)
  else Some href.

(** "Filter for API-related links" *)
Definition followed (patterns : option sitePattern) (href : jstring) : bool :=
  match patterns with
  | Some patterns =>
      includes (apiPath patterns) href || includes (lit "api") href
      || includes (lit "reference") href
  | None => if execFirst false true keywords href is Some _ then true else false
  end.

(** The body of the [while] loop of [extractLinks]. *)
Definition linkStep (patterns : option sitePattern) (baseUrl : jstring)
    (links : list jstring) (m : rmatch) : option (list jstring) :=
  href ← group m 1;
  absolute ← absoluteUrl baseUrl href;
  Some (if followed patterns href then links ++ [absolute] else links).

(** [extractLinks(html, baseUrl)]; [None] is a thrown exception. *)
Definition extractLinks (patterns : option sitePattern) (html baseUrl : jstring)
    : option (list jstring) :=
  forEach (linkStep patterns baseUrl) [] (execAll false true linkPattern html).

(** [execute] with its own scanners. *)
Definition scrape (fetch : jstring -> fetched) (i : input) : output :=
  scrapeDocumentation fetch scanApis extractLinks i.
End Links.

(** The selectors read by the scanners hold no unit that is special in
    a pattern, the dot apart. *)
Definition plainUnit (x : N) : bool :=
  isWord x || (x =? cu "-") || (x =? cu " ") || (x =? cu ".") || (x =? cu ",").
Definition plainSelectors : bool :=
  forallb (fun entry =>
             forallb plainUnit (methodSelector (snd entry))
             && forallb plainUnit (signatureSelector (snd entry))
             && forallb plainUnit (descriptionSelector (snd entry)))
          SITE_PATTERNS.

(** A record as the scanners build them. *)
Definition wellFormed (a : api) : Prop :=
  (2 <= length (name a) <= 100)%nat
  /\ startsLikeName (name a) = true
  /\ description a <> []
  /\ (length (description a) <= 200)%nat.

(** A page of lodash's documentation. *)
Definition lodashPage : jstring :=
  qlit "<h3 id='chunk'>_.chunk</h3><pre>_.chunk(array, [size=1])</pre><div class='doc-desc'>Creates chunks.</div><a href='/docs#compact'>compact</a>".

End ScrapePages.

(** * Properties *)

(** ** Loops, strings and the [seen] set *)
Module JSFacts.
Import JS.

Section ForEach.
Context {S A : Type} (body : S -> A -> option S).

(** A loop over [xs ++ ys] is the loop over [xs] followed by the loop
    over [ys]. *)
Lemma forEach_app (xs ys : list A) (st : S) :
  forEach body st (xs ++ ys) = forEach body st xs ≫= (fun st' => forEach body st' ys).
Proof.
  revert st. induction xs as [|x xs IH]; intros st; simpl; [done|].
  destruct (body st x) as [st1|]; simpl; [apply IH | done].
Qed.
End ForEach.

(** Appending one line per element is appending the concatenated lines. *)
Lemma fold_append {A} (line : A -> jstring) (xs : list A) (acc : jstring) :
  fold_left (fun text x => text ++ line x) xs acc = acc ++ concat (map line xs).
Proof.
  revert acc. induction xs as [|x xs IH]; intros acc; simpl.
  - by rewrite app_nil_r.
  - by rewrite IH, <- app_assoc.
Qed.

(** [split] is never empty. *)
Lemma split_cons (sep : N) (s : jstring) : exists l ls, split sep s = l :: ls.
Proof.
  induction s as [|x s (l & ls & IH)]; simpl; [by eexists _, _|].
  destruct (x =? sep); [by eexists _, _|]. rewrite IH. by eexists _, _.
Qed.

(** A line without the separator, followed by the separator, is split off. *)
Lemma split_line (sep : N) (l rest : jstring) :
  Forall (fun x => x <> sep) l ->
  split sep (l ++ sep :: rest) = l :: split sep rest.
Proof.
  induction 1 as [|x l Hx _ IH]; simpl.
  - by rewrite N.eqb_refl.
  - apply N.eqb_neq in Hx. by rewrite Hx, IH.
Qed.

Lemma split_last (sep : N) (l : jstring) :
  Forall (fun x => x <> sep) l -> split sep l = [l].
Proof.
  induction 1 as [|x l Hx _ IH]; simpl; [done|].
  apply N.eqb_neq in Hx. by rewrite Hx, IH.
Qed.

(** Splitting the lines joined by the separator gives the lines back. *)
Lemma split_join (sep : N) (lines : list jstring) :
  lines <> [] ->
  Forall (Forall (fun x => x <> sep)) lines ->
  split sep (join [sep] lines) = lines.
Proof.
  intros Hne Hall. induction Hall as [|l ls Hl Hls IH]; [done|].
  destruct ls as [|l' ls'].
  - simpl. by apply split_last.
  - change (join [sep] (l :: l' :: ls')) with (l ++ sep :: join [sep] (l' :: ls')).
    rewrite split_line by done. by rewrite IH.
Qed.

Section KeepNewFacts.
Context {A : Type} (key : A -> jstring).

Lemma keepNew_fresh (xs : list A) (seen : gset jstring) (x : A) :
  x ∈ keepNew key xs seen -> key x ∉ seen.
Proof.
  revert seen. induction xs as [|y rest IH]; intros seen; simpl.
  - by intros ?%elem_of_nil.
  - case_decide as Hy; [apply IH|].
    intros [->|Hin]%elem_of_cons; [done|].
    apply IH in Hin. intros Hx. apply Hin, elem_of_union_r, Hx.
Qed.

(** No two kept elements share a key. *)
Lemma keepNew_NoDup (xs : list A) (seen : gset jstring) :
  NoDup (key <$> keepNew key xs seen).
Proof.
  revert seen. induction xs as [|x rest IH]; intros seen; simpl.
  - constructor.
  - case_decide; [apply IH|]. rewrite fmap_cons. constructor; [|apply IH].
    intros (y & Hkey & Hy)%list_elem_of_fmap.
    apply keepNew_fresh in Hy. rewrite <- Hkey in Hy.
    apply Hy, elem_of_union_l, elem_of_singleton. done.
Qed.

(** The kept elements are elements of the input, in its order. *)
Lemma keepNew_sublist (xs : list A) (seen : gset jstring) :
  keepNew key xs seen `sublist_of` xs.
Proof.
  revert seen. induction xs as [|x rest IH]; intros seen; simpl; [done|].
  case_decide; [by apply sublist_cons | by apply sublist_skip].
Qed.

(** For every element with a key not seen before, the first element of
    the input with that key is kept. *)
Lemma keepNew_first (xs : list A) (seen : gset jstring) (x : A) :
  x ∈ xs -> key x ∉ seen ->
  exists y, List.find (sameKey key x) xs = Some y /\ y ∈ keepNew key xs seen.
Proof.
  revert seen. induction xs as [|z rest IH]; intros seen Hin Hnew.
  - by apply elem_of_nil in Hin.
  - simpl. unfold sameKey at 1, eqs. case_bool_decide as Hz.
    + exists z. split; [done|]. rewrite decide_False by congruence. left.
    + apply elem_of_cons in Hin as [->|Hin]; [done|].
      case_decide.
      * apply (IH seen Hin Hnew).
      * destruct (IH ({[key z]} ∪ seen) Hin) as (y & Hf & Hy).
        { rewrite not_elem_of_union, not_elem_of_singleton. done. }
        exists y. split; [done|]. by right.
Qed.

Lemma keepNew_nil (xs : list A) : keepNew key xs ∅ = [] <-> xs = [].
Proof.
  destruct xs as [|x rest]; simpl; [done|].
  rewrite decide_False by apply not_elem_of_empty. done.
Qed.
End KeepNewFacts.

(** *** Numbers and values as text *)

(** [String(x)] on number literals: the shortest digits that read back
    as the same double, in the layout of [Number::toString]. *)
Example numberToString_cases :
  map (fun l => numberToString (lit l))
      ["1.50"; "100"; "1e21"; "1e20"; "0.000001"; "0.0000001"; "-0";
       "9007199254740993"; "0.1"; "0.30000000000000004"; "5e-324"; "1e400";
       "-1.5E2"; "123456789012345678901234567890"]%string
  = map lit
      ["1.5"; "100"; "1e+21"; "100000000000000000000"; "0.000001"; "1e-7"; "0";
       "9007199254740992"; "0.1"; "0.30000000000000004"; "5e-324"; "Infinity";
       "-150"; "1.2345678901234568e+29"]%string.
Proof. vm_compute. reflexivity. Qed.

(** A number is falsy when it is zero as a double. *)
Example truthy_numbers :
  map (fun l => truthy (VNum (lit l))) ["0"; "-0.0"; "1e-400"; "5e-324"; "1"]%string
  = [false; false; false; true; true].
Proof. vm_compute. reflexivity. Qed.

(** [String(v)]: an array joins its elements, an object with a member
    [toString] throws, in an array too. *)
Example toStr_cases :
  toStr (VArr [VNull; VNum (lit "1.50"); VArr [VStr (lit "a"); VUndefined]; VObj []])
  = Some (lit ",1.5,a,,[object Object]")
  /\ toStr (VObj [(lit "toString", VNum (lit "1"))]) = None
  /\ toStr (VArr [VStr (lit "a"); VObj [(lit "toString", VNull)]]) = None.
Proof. vm_compute. done. Qed.

(** *** Comparisons of a count with a number *)

Lemma below_atLeast (n : Z) (x : Q) : below n x = negb (atLeast n x).
Proof.
  unfold below, atLeast, ltQ, leQ.
  rewrite <- (QArith_base.Qcompare_antisym x (QArith_base.inject_Z n)).
  by destruct (QArith_base.Qcompare x _).
Qed.

Lemma atLeast_ceiling (n : Z) (x : Q) :
  atLeast n x = (ceiling x <=? n)%Z.
Proof.
  unfold atLeast, leQ.
  destruct (Z.leb_spec (Qround.Qceiling x) n) as [H|H].
  - assert (Hle : QArith_base.Qle x (QArith_base.inject_Z n)).
    { eapply QArith_base.Qle_trans; [apply Qround.Qle_ceiling|].
      by rewrite <- QArith_base.Zle_Qle. }
    unfold QArith_base.Qle in Hle. unfold QArith_base.Qcompare.
    destruct (Z.compare_spec (QArith_base.Qnum x * QArith_base.QDen (QArith_base.inject_Z n))
                             (QArith_base.Qnum (QArith_base.inject_Z n) * QArith_base.QDen x)); try done; lia.
  - assert (Hlt : QArith_base.Qlt (QArith_base.inject_Z n) x).
    { eapply QArith_base.Qle_lt_trans; [|apply Qround.Qceiling_lt].
      rewrite <- QArith_base.Zle_Qle. lia. }
    unfold QArith_base.Qlt in Hlt. unfold QArith_base.Qcompare.
    destruct (Z.compare_spec (QArith_base.Qnum x * QArith_base.QDen (QArith_base.inject_Z n))
                             (QArith_base.Qnum (QArith_base.inject_Z n) * QArith_base.QDen x)); try done; lia.
Qed.

End JSFacts.

(** ** The pattern matcher *)
Module RegexFacts.
Import JS.

Lemma reach_refl (p : pos) : reach p p.
Proof. split; lia. Qed.

Lemma reach_trans (p q r : pos) : reach p q -> reach q r -> reach p r.
Proof. unfold reach. lia. Qed.

Lemma advance_reach (p q : pos) (x : N) :
  advance p = Some (x, q) -> reach p q /\ (idx p < idx q)%nat.
Proof.
  unfold advance, reach. destruct p as [i pv [|y ys]]; simpl; [done|].
  intros [= _ <-]. simpl. lia.
Qed.

Lemma orElse_cases {A} (P : Prop) (a b : option A) (res : A) (greedy : bool) :
  (a = Some res -> P) -> (b = Some res -> P) ->
  (if greedy then orElse a b else orElse b a) = Some res -> P.
Proof. destruct greedy, a, b; simpl; auto; congruence. Qed.

Section IterFacts.
Context (body : pos -> caps -> cont -> option (pos * caps)) (gs : list nat).
Context (nb : bool) (Hadv : advances nb body) (Hloc : local body).

Lemma iter_advances lo hi greedy k fuel n p c res :
  iter body gs lo hi greedy k fuel n p c = Some res ->
  exists p' c', reach p p' /\ k p' c' = Some res /\
                ((n < lo)%nat -> nb = false -> (idx p < idx p')%nat).
Proof.
  revert n p c. induction fuel as [|fuel IH]; intros n p c; simpl; [done|].
  apply orElse_cases.
  - destruct (belowMax n hi); [|done]. intros Hb.
    apply Hadv in Hb as (p1 & c1 & Hr1 & Hk1 & Hlt1).
    destruct ((lo <=? n)%nat && (idx p1 =? idx p)%nat); [done|].
    apply IH in Hk1 as (p2 & c2 & Hr2 & Hk2 & _).
    exists p2, c2. split; [by eapply reach_trans|]. split; [done|].
    intros _ Hnb. specialize (Hlt1 Hnb). destruct Hr2. lia.
  - destruct (Nat.leb_spec lo n); [|done]. intros Hk.
    exists p, c. split; [apply reach_refl|]. split; [done|lia].
Qed.

Lemma iter_local lo hi greedy (k1 k2 : cont) fuel n p c :
  (forall p' c', reach p p' -> k1 p' c' = k2 p' c') ->
  iter body gs lo hi greedy k1 fuel n p c = iter body gs lo hi greedy k2 fuel n p c.
Proof.
  revert n p c. induction fuel as [|fuel IH]; intros n p c Hk; simpl; [done|].
  rewrite (Hk p c (reach_refl p)).
  assert (Hb : body p (clearGroups gs c) (fun p' c' =>
        if (lo <=? n)%nat && (idx p' =? idx p)%nat then None
        else iter body gs lo hi greedy k1 fuel (S n) p' c')
      = body p (clearGroups gs c) (fun p' c' =>
        if (lo <=? n)%nat && (idx p' =? idx p)%nat then None
        else iter body gs lo hi greedy k2 fuel (S n) p' c')).
  { apply Hloc. intros p' c' Hr.
    destruct ((lo <=? n)%nat && (idx p' =? idx p)%nat); [done|].
    apply IH. intros p2 c2 Hr2. apply Hk. by eapply reach_trans. }
  by rewrite Hb.
Qed.

(** Fuel beyond the iterations still owed plus the units left changes
    nothing. *)
Lemma iter_fuel lo hi greedy k fuel1 fuel2 n p c :
  (lo - n + length (rest p) < fuel1)%nat ->
  (lo - n + length (rest p) < fuel2)%nat ->
  iter body gs lo hi greedy k fuel1 n p c = iter body gs lo hi greedy k fuel2 n p c.
Proof.
  revert fuel2 n p c.
  induction fuel1 as [|fuel1 IH]; intros fuel2 n p c H1 H2; [lia|].
  destruct fuel2 as [|fuel2]; [lia|]. simpl.
  assert (Hb : body p (clearGroups gs c) (fun p' c' =>
        if (lo <=? n)%nat && (idx p' =? idx p)%nat then None
        else iter body gs lo hi greedy k fuel1 (S n) p' c')
      = body p (clearGroups gs c) (fun p' c' =>
        if (lo <=? n)%nat && (idx p' =? idx p)%nat then None
        else iter body gs lo hi greedy k fuel2 (S n) p' c')).
  { apply Hloc. intros p' c' [Hle Hlen].
    destruct (Nat.leb_spec lo n); destruct (Nat.eqb_spec (idx p') (idx p));
      simpl; try done; apply IH; lia. }
  by rewrite Hb.
Qed.

(** One iteration done under bounds [lo] and [hi] is none done under
    the bounds less one. *)
Lemma iter_shift lo hi greedy k fuel n p c :
  iter body gs lo hi greedy k fuel (S n) p c
  = iter body gs (pred lo) (pred <$> hi) greedy k fuel n p c.
Proof.
  revert n p c. induction fuel as [|fuel IH]; intros n p c; simpl; [done|].
  assert (Hlo : (lo <=? S n)%nat = (pred lo <=? n)%nat).
  { destruct (Nat.leb_spec lo (S n)), (Nat.leb_spec (pred lo) n); lia. }
  assert (Hhi : belowMax (S n) hi = belowMax n (pred <$> hi)).
  { destruct hi as [h|]; simpl; [|done].
    destruct (Nat.ltb_spec (S n) h), (Nat.ltb_spec n (pred h)); lia. }
  rewrite Hlo, Hhi.
  assert (Hb : body p (clearGroups gs c) (fun p' c' =>
        if (pred lo <=? n)%nat && (idx p' =? idx p)%nat then None
        else iter body gs lo hi greedy k fuel (S (S n)) p' c')
      = body p (clearGroups gs c) (fun p' c' =>
        if (pred lo <=? n)%nat && (idx p' =? idx p)%nat then None
        else iter body gs (pred lo) (pred <$> hi) greedy k fuel (S n) p' c')).
  { apply Hloc. intros p' c' _.
    destruct ((pred lo <=? n)%nat && (idx p' =? idx p)%nat); [done|]. apply IH. }
  by rewrite Hb.
Qed.
End IterFacts.

Section MatcherFacts.
Context (multiline ignoreCase : bool).
#[local] Abbreviation mre := (JS.mre multiline ignoreCase).
#[local] Abbreviation search := (JS.search multiline ignoreCase).
#[local] Abbreviation matchAt := (JS.matchAt multiline ignoreCase).
#[local] Abbreviation searchFrom := (JS.searchFrom multiline ignoreCase).
#[local] Abbreviation matchesFrom := (JS.matchesFrom multiline ignoreCase).
#[local] Abbreviation matches := (JS.matches multiline ignoreCase).

(** A match ends at or after its start in the same subject, and after
    it when the pattern is not nullable. *)
Lemma mre_advances (r : re) : advances (nullable r) (mre r).
Proof.
  induction r as [|neg items| |r1 IH1 r2 IH2|r1 IH1 r2 IH2|r1 IH1 lo hi greedy|i r1 IH1| |];
    intros p c k res; cbn [JS.mre nullable].
  - intros Hk. exists p, c. split; [apply reach_refl|]. by split.
  - destruct (advance p) as [[x p']|] eqn:Ea; [|done].
    destruct (xorb _ _); [|done]. intros Hk.
    apply advance_reach in Ea as [Hr Hlt]. by exists p', c.
  - destruct (advance p) as [[x p']|] eqn:Ea; [|done].
    destruct (isLineTerminator x); [done|]. intros Hk.
    apply advance_reach in Ea as [Hr Hlt]. by exists p', c.
  - intros H1. apply IH1 in H1 as (p1 & c1 & Hr1 & H2 & Hlt1).
    apply IH2 in H2 as (p2 & c2 & Hr2 & Hk & Hlt2).
    exists p2, c2. split; [by eapply reach_trans|]. split; [done|].
    intros Hnb. apply andb_false_iff in Hnb as [Hnb|Hnb].
    + specialize (Hlt1 Hnb). destruct Hr2. lia.
    + specialize (Hlt2 Hnb). destruct Hr1. lia.
  - unfold orElse. destruct (mre r1 p c k) as [res1|] eqn:E1.
    + intros <-. apply IH1 in E1 as (p1 & c1 & Hr1 & Hk & Hlt1).
      exists p1, c1. split; [done|]. split; [done|].
      intros Hnb. apply orb_false_iff in Hnb as [Hnb _]. auto.
    + intros E2. apply IH2 in E2 as (p2 & c2 & Hr2 & Hk & Hlt2).
      exists p2, c2. split; [done|]. split; [done|].
      intros Hnb. apply orb_false_iff in Hnb as [_ Hnb]. auto.
  - intros Hi.
    apply (iter_advances _ _ _ IH1) in Hi as (p' & c' & Hr & Hk & Hlt).
    exists p', c'. split; [done|]. split; [done|].
    intros Hnb. apply orb_false_iff in Hnb as [Hlo Hnb].
    apply Nat.eqb_neq in Hlo. apply Hlt; [lia|done].
  - intros H1. apply IH1 in H1 as (p1 & c1 & Hr1 & Hk & Hlt1).
    by eexists p1, _.
  - destruct (atBol _ p); [|done]. intros Hk.
    exists p, c. split; [apply reach_refl|]. by split.
  - destruct (atEol _ p); [|done]. intros Hk.
    exists p, c. split; [apply reach_refl|]. by split.
Qed.

Lemma mre_local (r : re) : local (mre r).
Proof.
  induction r as [|neg items| |r1 IH1 r2 IH2|r1 IH1 r2 IH2|r1 IH1 lo hi greedy|i r1 IH1| |];
    intros p c k1 k2 Hk; cbn [JS.mre].
  - apply Hk, reach_refl.
  - destruct (advance p) as [[x p']|] eqn:Ea; [|done].
    apply advance_reach in Ea as [Hr _]. destruct (xorb _ _); [by apply Hk|done].
  - destruct (advance p) as [[x p']|] eqn:Ea; [|done].
    apply advance_reach in Ea as [Hr _].
    destruct (isLineTerminator x); [done|by apply Hk].
  - apply IH1. intros p1 c1 Hr1. apply IH2. intros p2 c2 Hr2.
    apply Hk. by eapply reach_trans.
  - by rewrite (IH1 p c k1 k2 Hk), (IH2 p c k1 k2 Hk).
  - by apply iter_local.
  - apply IH1. intros p1 c1 Hr1. by apply Hk.
  - destruct (atBol _ p); [apply Hk, reach_refl|done].
  - destruct (atEol _ p); [apply Hk, reach_refl|done].
Qed.

(** The quantifier without its fuel: [r{lo,hi}] stops if [lo] is zero,
    or matches [r] (rejecting an empty iteration once [lo] is zero) and
    goes on as [r{lo-1,hi-1}]; greedy quantifiers try the iteration
    first, lazy ones the stop.  The fuel of the matcher is therefore
    never the reason of a failure. *)
Theorem mre_Rep (r1 : re) (lo : nat) (hi : option nat) (greedy : bool)
    (p : pos) (c : caps) (k : cont) :
  mre (Rep r1 lo hi greedy) p c k =
  let stop := if (lo =? 0)%nat then k p c else None in
  let more :=
    if belowMax 0 hi then
      mre r1 p (clearGroups (groupsOf r1) c) (fun p' c' =>
        if (lo =? 0)%nat && (idx p' =? idx p)%nat then None
        else mre (Rep r1 (pred lo) (pred <$> hi) greedy) p' c' k)
    else None in
  if greedy then orElse more stop else orElse stop more.
Proof.
  cbn [JS.mre iter]. cbv zeta.
  assert (Hlo : (lo <=? 0)%nat = (lo =? 0)%nat).
  { destruct (Nat.leb_spec lo 0), (Nat.eqb_spec lo 0); lia. }
  rewrite Hlo.
  assert (Hb : mre r1 p (clearGroups (groupsOf r1) c) (fun p' c' =>
        if (lo =? 0)%nat && (idx p' =? idx p)%nat then None
        else iter (mre r1) (groupsOf r1) lo hi greedy k (lo + length (rest p)) 1 p' c')
      = mre r1 p (clearGroups (groupsOf r1) c) (fun p' c' =>
        if (lo =? 0)%nat && (idx p' =? idx p)%nat then None
        else iter (mre r1) (groupsOf r1) (pred lo) (pred <$> hi) greedy k
               (S (pred lo + length (rest p'))) 0 p' c')).
  { apply mre_local. intros p' c' [Hle Hlen].
    destruct (Nat.eqb_spec lo 0); destruct (Nat.eqb_spec (idx p') (idx p));
      cbn [andb]; try done;
      (rewrite (iter_shift _ _ (mre_local r1));
       apply (iter_fuel _ _ (mre_local r1)); lia). }
  by rewrite Hb.
Qed.

Lemma matchAt_advances (r : re) (p : pos) (m : rmatch) :
  matchAt r p = Some m ->
  reach p (m_end m) /\ (nullable r = false -> (idx p < idx (m_end m))%nat).
Proof.
  unfold matchAt.
  destruct (mre r p _ _) as [[p' c']|] eqn:E; [|done]. intros [= <-]. simpl.
  apply mre_advances in E as (p1 & c1 & Hr & [= -> ->] & Hlt). by split.
Qed.

Lemma searchFrom_advances (r : re) (s : jstring) (i : nat) (pv : option N) (m : rmatch) :
  searchFrom r i pv s = Some m ->
  reach {| idx := i; prev := pv; rest := s |} (m_end m) /\
  (nullable r = false -> (i < idx (m_end m))%nat).
Proof.
  revert i pv. induction s as [|x s IH]; intros i pv; simpl.
  - destruct (matchAt r _) as [m'|] eqn:E; [|done]. intros [= ->].
    by apply matchAt_advances in E.
  - destruct (matchAt r _) as [m'|] eqn:E.
    + intros [= ->]. by apply matchAt_advances in E.
    + intros Hs. apply IH in Hs as [[Hle Hlen] Hlt]. simpl in *.
      split; [split; simpl; lia|]. intros Hnb. specialize (Hlt Hnb). lia.
Qed.

Lemma search_advances (r : re) (p : pos) (m : rmatch) :
  search r p = Some m ->
  reach p (m_end m) /\ (nullable r = false -> (idx p < idx (m_end m))%nat).
Proof.
  unfold JS.search. intros Hs. apply searchFrom_advances in Hs as [[Hle Hlen] Hlt].
  by repeat split.
Qed.

Lemma matchesFrom_S (r : re) (fuel : nat) (p : pos) :
  matchesFrom (S fuel) r p =
  match search r p with
  | Some m => m :: (if (idx (m_end m) <=? idx p)%nat then []
                    else matchesFrom fuel r (m_end m))
  | None => []
  end.
Proof. done. Qed.

Lemma matchesFrom_fuel (r : re) (fuel1 fuel2 : nat) (p : pos) :
  nullable r = false ->
  (length (rest p) < fuel1)%nat -> (length (rest p) < fuel2)%nat ->
  matchesFrom fuel1 r p = matchesFrom fuel2 r p.
Proof.
  intros Hnb. revert fuel2 p.
  induction fuel1 as [|fuel1 IH]; intros fuel2 p H1 H2; [lia|].
  destruct fuel2 as [|fuel2]; [lia|]. simpl.
  destruct (search r p) as [m|] eqn:Es; [|done].
  apply search_advances in Es as [[Hle Hlen] Hlt]. specialize (Hlt Hnb).
  destruct (Nat.leb_spec (idx (m_end m)) (idx p)); [done|].
  f_equal. apply IH; lia.
Qed.

(** The loop [while ((m = r.exec(s)) !== null)] without its fuel, for a
    pattern that is not nullable: the first match, then the matches
    from where it ends. *)
Theorem matches_loop (r : re) (p : pos) :
  nullable r = false ->
  matchesFrom (S (length (rest p))) r p =
  match search r p with
  | Some m => m :: matchesFrom (S (length (rest (m_end m)))) r (m_end m)
  | None => []
  end.
Proof.
  intros Hnb. rewrite matchesFrom_S.
  destruct (search r p) as [m|] eqn:Es; [|done].
  apply search_advances in Es as [[Hle Hlen] Hlt]. specialize (Hlt Hnb).
  destruct (Nat.leb_spec (idx (m_end m)) (idx p)); [lia|].
  f_equal. apply matchesFrom_fuel; [done|lia|lia].
Qed.

(** *** The matcher finds matches *)

Lemma iter_sound (r1 : re) (greedy : bool) (k : cont) :
  (forall p c k res, mre r1 p c k = Some res ->
     exists p' c', matches r1 p c p' c' /\ k p' c' = Some res) ->
  forall fuel lo hi p c res,
    iter (mre r1) (groupsOf r1) lo hi greedy k fuel 0 p c = Some res ->
    exists p' c', matches (Rep r1 lo hi greedy) p c p' c' /\ k p' c' = Some res.
Proof.
  intros IH fuel. induction fuel as [|fuel IHf]; intros lo hi p c res; simpl; [done|].
  apply orElse_cases.
  - destruct (belowMax 0 hi) eqn:Hb; [|done]. intros Hm.
    apply IH in Hm as (p1 & c1 & M1 & Hk).
    destruct ((lo <=? 0)%nat && (idx p1 =? idx p)%nat); [done|].
    rewrite (iter_shift _ _ (mre_local r1)) in Hk.
    apply IHf in Hk as (p2 & c2 & M2 & Hk2).
    exists p2, c2. split; [|done]. by eapply MRepMore.
  - destruct (Nat.leb_spec lo 0) as [Hlo|]; [|done].
    assert (lo = 0%nat) as -> by lia. intros Hk.
    exists p, c. split; [constructor|done].
Qed.

(** Whatever the matcher returns comes from a match of the pattern,
    followed by the continuation. *)
Lemma mre_sound (r : re) (p : pos) (c : caps) (k : cont) (res : pos * caps) :
  mre r p c k = Some res ->
  exists p' c', matches r p c p' c' /\ k p' c' = Some res.
Proof.
  revert p c k res.
  induction r as [|neg items| |r1 IH1 r2 IH2|r1 IH1 r2 IH2|r1 IH1 lo hi greedy|i r1 IH1| |];
    intros p c k res; cbn [JS.mre].
  - intros Hk. exists p, c. split; [constructor|done].
  - destruct (advance p) as [[x p']|] eqn:Ea; [|done].
    destruct (xorb _ _) eqn:Hx; [|done]. intros Hk.
    exists p', c. split; [by econstructor|done].
  - destruct (advance p) as [[x p']|] eqn:Ea; [|done].
    destruct (isLineTerminator x) eqn:Hx; [done|]. intros Hk.
    exists p', c. split; [by econstructor|done].
  - intros H1. apply IH1 in H1 as (p1 & c1 & M1 & H2).
    apply IH2 in H2 as (p2 & c2 & M2 & Hk).
    exists p2, c2. split; [by econstructor|done].
  - unfold orElse. destruct (mre r1 p c k) as [res1|] eqn:E1.
    + intros <-. apply IH1 in E1 as (p1 & c1 & M1 & Hk).
      exists p1, c1. split; [by apply MAltL|done].
    + intros E2. apply IH2 in E2 as (p2 & c2 & M2 & Hk).
      exists p2, c2. split; [by apply MAltR|done].
  - by apply iter_sound.
  - intros H1. apply IH1 in H1 as (p1 & c1 & M1 & Hk).
    eexists p1, _. split; [by apply MCap|done].
  - destruct (atBol _ p) eqn:Hb; [|done]. intros Hk.
    exists p, c. split; [by constructor|done].
  - destruct (atEol _ p) eqn:Hb; [|done]. intros Hk.
    exists p, c. split; [by constructor|done].
Qed.

Lemma spans_nil (r : re) : minWidth r = 0%nat -> spans ignoreCase r [].
Proof.
  intros E. split; [constructor|]. split; [rewrite E; simpl; lia|].
  intros h _. simpl. lia.
Qed.

Lemma spans_unit (r : re) (x : N) :
  accepts ignoreCase r x = true -> minWidth r = 1%nat -> maxWidth r = Some 1%nat ->
  spans ignoreCase r [x].
Proof.
  intros Ha E1 E2. split; [by repeat constructor|]. split; [rewrite E1; simpl; lia|].
  intros h Hh. rewrite E2 in Hh. injection Hh as <-. simpl. lia.
Qed.

Lemma advance_between (p p' : pos) (x : N) :
  advance p = Some (x, p') -> rest p = [x] ++ rest p' /\ idx p' = (idx p + 1)%nat.
Proof.
  unfold advance. destruct (rest p) as [|y ys]; [done|].
  intros [= <- <-]. simpl. split; [done|lia].
Qed.

(** The text of a match lies between its ends, and is made of units the
    pattern accepts, within its widths. *)
Lemma matches_between (r : re) (p p' : pos) (c c' : caps) :
  matches r p c p' c' ->
  exists t, rest p = t ++ rest p' /\ idx p' = (idx p + length t)%nat
            /\ spans ignoreCase r t.
Proof.
  induction 1 as [p c|neg items p c x p' Ha Hx|p c x p' Ha Hx
                  |r1 r2 p c p1 c1 p2 c2 _ IH1 _ IH2
                  |r1 r2 p c p' c' _ IH|r1 r2 p c p' c' _ IH
                  |i r p c p' c' _ IH|r hi greedy p c
                  |r lo hi greedy p c p1 c1 p2 c2 Hb _ IH1 _ IH2|p c Hb|p c Hb].
  - exists []. split; [done|]. split; [simpl; lia|]. by apply spans_nil.
  - apply advance_between in Ha as [E I]. exists [x].
    split; [done|]. split; [done|]. by apply spans_unit.
  - apply advance_between in Ha as [E I]. exists [x].
    split; [done|]. split; [done|]. apply spans_unit; [|done|done].
    simpl. by rewrite Hx.
  - destruct IH1 as (t1 & E1 & I1 & F1 & L1 & U1).
    destruct IH2 as (t2 & E2 & I2 & F2 & L2 & U2).
    exists (t1 ++ t2). rewrite E1, E2, I2, I1, length_app, <- app_assoc.
    split; [done|]. split; [lia|]. split; [|split].
    + apply Forall_app. split; (eapply Forall_impl; [eassumption|]);
        intros x Hx; simpl in Hx; simpl; rewrite Hx; [done|apply orb_true_r].
    + rewrite length_app. simpl. lia.
    + intros h Hh. simpl in Hh. rewrite length_app.
      destruct (maxWidth r1) as [a|]; [|done].
      destruct (maxWidth r2) as [b|]; [|done]. injection Hh as <-.
      specialize (U1 _ eq_refl). specialize (U2 _ eq_refl). lia.
  - destruct IH as (t & E & I & F & L & U). exists t.
    split; [done|]. split; [done|]. split; [|split].
    + eapply Forall_impl; [eassumption|]. intros x Hx. simpl in Hx. simpl. by rewrite Hx.
    + simpl. lia.
    + intros h Hh. simpl in Hh. destruct (maxWidth r1) as [a|]; [|done].
      destruct (maxWidth r2) as [b|]; [|done]. injection Hh as <-.
      specialize (U _ eq_refl). lia.
  - destruct IH as (t & E & I & F & L & U). exists t.
    split; [done|]. split; [done|]. split; [|split].
    + eapply Forall_impl; [eassumption|]. intros x Hx. simpl in Hx. simpl.
      rewrite Hx. apply orb_true_r.
    + simpl. lia.
    + intros h Hh. simpl in Hh. destruct (maxWidth r1) as [a|]; [|done].
      destruct (maxWidth r2) as [b|]; [|done]. injection Hh as <-.
      specialize (U _ eq_refl). lia.
  - exact IH.
  - exists []. split; [done|]. split; [simpl; lia|]. by apply spans_nil.
  - destruct IH1 as (t1 & E1 & I1 & F1 & L1 & U1).
    destruct IH2 as (t2 & E2 & I2 & F2 & L2 & U2).
    exists (t1 ++ t2). rewrite E1, E2, I2, I1, length_app, <- app_assoc.
    split; [done|]. split; [lia|]. split; [|split].
    + apply Forall_app. by split.
    + rewrite length_app. simpl in *. destruct lo as [|lo]; simpl in *; lia.
    + intros h Hh. rewrite length_app. destruct hi as [hi|]; [|done]. simpl in Hh, Hb, U2.
      destruct (maxWidth r) as [a|] eqn:Ea; [|done]. injection Hh as <-.
      specialize (U1 _ eq_refl). specialize (U2 _ eq_refl).
      apply Nat.ltb_lt in Hb. destruct hi as [|hi]; [lia|]. simpl in *. lia.
  - exists []. split; [done|]. split; [simpl; lia|]. by apply spans_nil.
  - exists []. split; [done|]. split; [simpl; lia|]. by apply spans_nil.
Qed.

(** *** Capture registers *)

Lemma clearGroups_length (gs : list nat) (c : caps) :
  length (clearGroups gs c) = length c.
Proof.
  unfold clearGroups. revert c. induction gs as [|g gs IH]; intros c; simpl; [done|].
  by rewrite IH, length_insert.
Qed.

Lemma clearGroups_other (gs : list nat) (c : caps) (i : nat) :
  ~ In i gs -> clearGroups gs c !! i = c !! i.
Proof.
  unfold clearGroups. revert c. induction gs as [|g gs IH]; intros c Hi; simpl; [done|].
  rewrite IH by (intros H; apply Hi; by right).
  apply list_lookup_insert_ne. intros ->. apply Hi. by left.
Qed.

Lemma sure_groups (r : re) (i : nat) : In i (sure r) -> In i (groupsOf r).
Proof.
  induction r as [|neg items| |r1 IH1 r2 IH2|r1 IH1 r2 IH2|r1 IH1 lo hi greedy|j r1 IH1| |];
    simpl; try done.
  - rewrite !in_app_iff. intros [H|H]; auto.
  - rewrite filter_In, in_app_iff. intros [H _]. auto.
  - destruct lo; [done|auto].
  - intros [H|H]; auto.
Qed.

(** A match leaves the number of registers and the groups outside the
    pattern as they were. *)
Lemma matches_frame (r : re) (p p' : pos) (c c' : caps) :
  matches r p c p' c' ->
  length c' = length c /\ forall i, ~ In i (groupsOf r) -> c' !! i = c !! i.
Proof.
  induction 1 as [p c|neg items p c x p' Ha Hx|p c x p' Ha Hx
                  |r1 r2 p c p1 c1 p2 c2 _ IH1 _ IH2
                  |r1 r2 p c p' c' _ IH|r1 r2 p c p' c' _ IH
                  |i r p c p' c' _ IH|r hi greedy p c
                  |r lo hi greedy p c p1 c1 p2 c2 Hb _ IH1 _ IH2|p c Hb|p c Hb];
    try done.
  - destruct IH1 as [L1 F1], IH2 as [L2 F2]. split; [congruence|].
    intros i Hi. simpl in Hi. rewrite in_app_iff in Hi.
    rewrite F2, F1; auto.
  - destruct IH as [L F]. split; [done|]. intros i Hi. apply F.
    simpl in Hi. rewrite in_app_iff in Hi. auto.
  - destruct IH as [L F]. split; [done|]. intros i Hi. apply F.
    simpl in Hi. rewrite in_app_iff in Hi. auto.
  - destruct IH as [L F]. split; [by rewrite length_insert|].
    intros j Hj. simpl in Hj.
    rewrite list_lookup_insert_ne by (intros ->; apply Hj; by left).
    apply F. intros H. apply Hj. by right.
  - destruct IH1 as [L1 F1], IH2 as [L2 F2].
    rewrite clearGroups_length in L1. split; [congruence|].
    intros i Hi. simpl in Hi, F2. rewrite F2, F1 by done.
    by apply clearGroups_other.
Qed.

(** Every group that the pattern sets on all its paths holds, after a
    match, a text of what the group encloses.  For a quantifier, a group
    set before the match and set by every iteration is still set after
    it. *)
Lemma matches_sure (r : re) (p p' : pos) (c c' : caps) :
  matches r p c p' c' ->
  NoDup (groupsOf r) -> (forall i, In i (groupsOf r) -> (i < length c)%nat) ->
  (forall i, In i (sure r) ->
     exists t, c' !! i = Some (Some t) /\ captured ignoreCase r i t)
  /\ (forall r1 lo hi greedy, r = Rep r1 lo hi greedy ->
      forall i, In i (sure r1) ->
        (exists t, c !! i = Some (Some t) /\ captured ignoreCase r1 i t) ->
        exists t, c' !! i = Some (Some t) /\ captured ignoreCase r1 i t).
Proof.
  induction 1 as [p c|neg items p c x p' Ha Hx|p c x p' Ha Hx
                  |r1 r2 p c p1 c1 p2 c2 M1 IH1 M2 IH2
                  |r1 r2 p c p' c' _ IH|r1 r2 p c p' c' _ IH
                  |i r p c p' c' M IH|r hi greedy p c
                  |r lo hi greedy p c p1 c1 p2 c2 Hb M1 IH1 M2 IH2|p c Hb|p c Hb];
    intros Hnd Hlen; (split; [|try done]); try done.
  - (* Cat *)
    simpl in Hnd. apply NoDup_app in Hnd as (Hnd1 & Hdis & Hnd2).
    apply matches_frame in M1 as [L1 F1]. pose proof (matches_frame _ _ _ _ _ M2) as [L2 F2].
    destruct IH1 as [S1 _]; [done|by intros i Hi; apply Hlen; simpl; apply in_app_iff; left|].
    destruct IH2 as [S2 _];
      [done|by intros i Hi; rewrite L1; apply Hlen; simpl; apply in_app_iff; right|].
    intros i Hi. simpl in Hi. apply in_app_iff in Hi as [Hi|Hi].
    + destruct (S1 i Hi) as (t & Ht & (r' & Hin & Hs)).
      exists t. split.
      * rewrite F2; [done|]. intros H2. apply sure_groups in Hi.
        apply (Hdis i); by apply list_elem_of_In.
      * exists r'. split; [|done]. simpl. apply in_app_iff. by left.
    + destruct (S2 i Hi) as (t & Ht & (r' & Hin & Hs)).
      exists t. split; [done|]. exists r'. split; [|done]. simpl. apply in_app_iff. by right.
  - (* AltL *)
    simpl in Hnd. apply NoDup_app in Hnd as (Hnd1 & Hdis & Hnd2).
    destruct IH as [S1 _]; [done|by intros i Hi; apply Hlen; simpl; apply in_app_iff; left|].
    intros i Hi. simpl in Hi. apply filter_In in Hi as [Hi _].
    destruct (S1 i Hi) as (t & Ht & (r' & Hin & Hs)).
    exists t. split; [done|]. exists r'. split; [|done]. simpl. apply in_app_iff. by left.
  - (* AltR *)
    simpl in Hnd. apply NoDup_app in Hnd as (Hnd1 & Hdis & Hnd2).
    destruct IH as [S2 _]; [done|by intros i Hi; apply Hlen; simpl; apply in_app_iff; right|].
    intros i Hi. simpl in Hi. apply filter_In in Hi as [_ Hi].
    apply existsb_exists in Hi as (j & Hj & Heq). apply Nat.eqb_eq in Heq. subst j.
    destruct (S2 i Hj) as (t & Ht & (r' & Hin & Hs)).
    exists t. split; [done|]. exists r'. split; [|done]. simpl. apply in_app_iff. by right.
  - (* Cap *)
    simpl in Hnd. apply NoDup_cons in Hnd as [Hi Hnd].
    pose proof (matches_frame _ _ _ _ _ M) as [L F].
    destruct IH as [S1 _]; [done|by intros j Hj; apply Hlen; simpl; right|].
    intros j [<-|Hj].
    + eexists. split.
      * apply list_lookup_insert_eq. rewrite L. apply Hlen. by left.
      * exists r. split; [by left|].
        apply matches_between in M as (t & E & I & Hs).
        replace (idx p' - idx p)%nat with (length t) by lia.
        by rewrite E, take_app_length.
    + destruct (S1 j Hj) as (t & Ht & (r' & Hin & Hs)).
      exists t. split.
      * rewrite list_lookup_insert_ne; [done|]. intros ->. apply Hi.
        apply list_elem_of_In. by apply sure_groups.
      * exists r'. split; [by right|done].
  - (* RepMore, first part *)
    simpl in Hnd, Hlen.
    destruct IH1 as [S1 _]; [done|by intros i Hi; rewrite clearGroups_length; apply Hlen|].
    pose proof (matches_frame _ _ _ _ _ M1) as [L1 _]. rewrite clearGroups_length in L1.
    destruct IH2 as [_ K2]; [done|by intros i Hi; rewrite L1; apply Hlen|].
    intros i Hi. simpl in Hi. destruct lo as [|lo]; [done|].
    destruct (S1 i Hi) as (t & Ht & Hc).
    destruct (K2 _ _ _ _ eq_refl i Hi) as (t' & Ht' & Hc'); [by exists t|].
    by exists t'.
  - (* RepMore, second part *)
    simpl in Hnd, Hlen.
    destruct IH1 as [S1 _]; [done|by intros i Hi; rewrite clearGroups_length; apply Hlen|].
    pose proof (matches_frame _ _ _ _ _ M1) as [L1 _]. rewrite clearGroups_length in L1.
    destruct IH2 as [_ K2]; [done|by intros i Hi; rewrite L1; apply Hlen|].
    intros r1 lo' hi' g [= -> -> -> ->] i Hi _.
    destruct (S1 i Hi) as (t & Ht & Hc).
    apply (K2 _ _ _ _ eq_refl i Hi). by exists t.
Qed.

(** *** Matches found by a search *)

Lemma groupCount_bound (r : re) (i : nat) :
  In i (groupsOf r) -> (i < S (groupCount r))%nat.
Proof.
  unfold groupCount. induction (groupsOf r) as [|g gs IH]; simpl; [done|].
  intros [->|H]; [lia|]. specialize (IH H). lia.
Qed.

Lemma matchAt_matches (r : re) (p : pos) (m : rmatch) :
  matchAt r p = Some m ->
  matches r p (replicate (S (groupCount r)) None) (m_end m) (m_groups m)
  /\ m_index m = idx p
  /\ m_text m = take (idx (m_end m) - idx p) (rest p).
Proof.
  unfold JS.matchAt.
  destruct (JS.mre _ _ r p _ _) as [[p' c']|] eqn:E; [|done]. intros [= <-]. simpl.
  apply mre_sound in E as (p1 & c1 & M & [= -> ->]). done.
Qed.

(** The text of a match is a text the pattern spans. *)
Lemma matchAt_text (r : re) (p : pos) (m : rmatch) :
  matchAt r p = Some m -> spans ignoreCase r (m_text m).
Proof.
  intros Hm. apply matchAt_matches in Hm as (M & _ & ->).
  apply matches_between in M as (t & E & I & Hs).
  replace (idx (m_end m) - idx p)%nat with (length t) by lia.
  by rewrite E, take_app_length.
Qed.

(** A group set on every path of the pattern is set in the match. *)
Lemma matchAt_group (r : re) (p : pos) (m : rmatch) (i : nat) :
  matchAt r p = Some m -> wellGrouped r = true -> In i (sure r) ->
  exists t, group m i = Some t /\ captured ignoreCase r i t.
Proof.
  intros Hm Hwf Hi. apply matchAt_matches in Hm as (M & _ & _).
  apply bool_decide_eq_true in Hwf. apply NoDup_ListNoDup in Hwf.
  apply matches_sure in M as [S _].
  - destruct (S i Hi) as (t & Ht & Hc). exists t. split; [|done].
    unfold group. by rewrite Ht.
  - by apply NoDup_ListNoDup.
  - intros j Hj. rewrite length_replicate. by apply groupCount_bound.
Qed.

(** A group beyond those of the pattern is [undefined]. *)
Lemma matchAt_no_group (r : re) (p : pos) (m : rmatch) (i : nat) :
  matchAt r p = Some m -> (groupCount r < i)%nat -> group m i = None.
Proof.
  intros Hm Hi. apply matchAt_matches in Hm as (M & _ & _).
  apply matches_frame in M as [L _]. rewrite length_replicate in L.
  unfold group. rewrite lookup_ge_None_2; [done|lia].
Qed.

Lemma searchFrom_matchAt (r : re) (s : jstring) (i : nat) (pv : option N) (m : rmatch) :
  searchFrom r i pv s = Some m -> exists q, matchAt r q = Some m.
Proof.
  revert i pv. induction s as [|x s IH]; intros i pv; simpl.
  - destruct (matchAt r _) as [m'|] eqn:E; [|done]. intros [= ->]. eauto.
  - destruct (matchAt r _) as [m'|] eqn:E; [intros [= ->]; eauto|]. apply IH.
Qed.

Lemma search_matchAt (r : re) (p : pos) (m : rmatch) :
  search r p = Some m -> exists q, matchAt r q = Some m.
Proof. apply searchFrom_matchAt. Qed.

Lemma matchesFrom_matchAt (r : re) (fuel : nat) (p : pos) (m : rmatch) :
  In m (matchesFrom fuel r p) -> exists q, matchAt r q = Some m.
Proof.
  revert p. induction fuel as [|fuel IH]; intros p; simpl; [done|].
  destruct (search r p) as [m'|] eqn:Es; [|done].
  intros [<-|Hin]; [by eapply search_matchAt|].
  destruct (_ <=? _)%nat; [done|]. by eapply IH.
Qed.

Lemma execAll_matchAt (r : re) (s : jstring) (m : rmatch) :
  In m (JS.execAll multiline ignoreCase r s) -> exists q, matchAt r q = Some m.
Proof. apply matchesFrom_matchAt. Qed.

Lemma execFirst_matchAt (r : re) (s : jstring) (m : rmatch) :
  JS.execFirst multiline ignoreCase r s = Some m -> exists q, matchAt r q = Some m.
Proof. apply search_matchAt. Qed.
End MatcherFacts.

End RegexFacts.

(** ** The JSON parser *)
Module JsonFacts.
Import JS.

Lemma skipWs_length (s : jstring) : (length (skipWs s) <= length s)%nat.
Proof.
  induction s as [|x s IH]; simpl; [lia|]. destruct (isJsonWs x); simpl; lia.
Qed.

Lemma skipWs_cons (s r : jstring) (x : N) :
  skipWs s = x :: r -> (length r < length s)%nat.
Proof. intros E. pose proof (skipWs_length s) as H. rewrite E in H. simpl in H. lia. Qed.

Lemma parseStringBody_length (s body r : jstring) :
  parseStringBody s = Some (body, r) -> (length r < length s)%nat.
Proof.
  remember (length s) as n eqn:Hn. revert s body r Hn.
  induction n as [n IH] using lt_wf_ind. intros s body r -> .
  destruct s as [|x s]; simpl; [done|].
  assert (Hrec : forall t b r',
    (length t <= length s)%nat ->
    parseStringBody t = Some (b, r') -> (length r' < S (length s))%nat).
  { intros t b r' Hle E.
    eapply (IH (length t)) in E; [|simpl in *; lia|done]. lia. }
  assert (Hsimple : forall y t,
    (length t <= length s)%nat ->
    ('(body0, r2) ← parseStringBody t; Some (y :: body0, r2)) = Some (body, r) ->
    (length r < S (length s))%nat).
  { intros y t Hle Hb.
    destruct (parseStringBody t) as [[b0 r0]|] eqn:E; simpl in Hb; [|done].
    injection Hb as <- <-. by eapply Hrec. }
  clear IH.
  destruct (x =? 34); [intros [= <- <-]; lia|].
  destruct (x =? 92).
  - destruct s as [|e r1]; [done|]. cbv zeta.
    repeat match goal with
           | |- context [if ?b then _ else _] =>
               destruct b; [first [by apply Hsimple; simpl; lia | idtac]|]
           end; try done.
    destruct r1 as [|h1 [|h2 [|h3 [|h4 r2]]]]; try done.
    destruct (hexVal h1); simpl; [|done]. destruct (hexVal h2); simpl; [|done].
    destruct (hexVal h3); simpl; [|done]. destruct (hexVal h4); simpl; [|done].
    destruct (parseStringBody r2) as [[b0 r0]|] eqn:E; simpl; [|done].
    intros [= <- <-]. eapply Hrec in E; simpl in *; lia.
  - destruct (x <? 32); [done|]. by apply Hsimple.
Qed.

Lemma spanDigits_length (s ds r : jstring) :
  spanDigits s = (ds, r) -> (length r <= length s)%nat.
Proof.
  revert ds r. induction s as [|x s IH]; intros ds r; simpl.
  - intros [= <- <-]. simpl. lia.
  - destruct (isDigit x); [|intros [= <- <-]; simpl; lia].
    destruct (spanDigits s) as [ds' r'] eqn:E. intros [= <- <-].
    specialize (IH _ _ eq_refl). lia.
Qed.

Lemma parseNumber_length (s num r : jstring) :
  parseNumber s = Some (num, r) -> (length r <= length s)%nat.
Proof.
  unfold parseNumber.
  set (signed := match s with
                 | x :: r0 => if x =? 45 then ([x], r0) else ([], s)
                 | [] => ([], s)
                 end).
  assert (H1 : (length signed.2 <= length s)%nat).
  { subst signed. destruct s as [|x s']; simpl; [lia|].
    destruct (x =? 45); simpl; lia. }
  destruct signed as [sign s1]. simpl in H1.
  match goal with |- context [mbind _ ?m] => destruct m as [[int s2]|] eqn:E2 end;
    simpl; [|done].
  assert (H2 : (length s2 <= length s1)%nat).
  { destruct s1 as [|x r0]; [done|].
    destruct (x =? 48); [injection E2 as <- <-; simpl; lia|].
    destruct (isDigit x); [|done].
    destruct (spanDigits r0) as [ds r'] eqn:Es. injection E2 as <- <-.
    apply spanDigits_length in Es. simpl. lia. }
  match goal with |- context [mbind _ ?m] => destruct m as [[frac s3]|] eqn:E3 end;
    simpl; [|done].
  assert (H3 : (length s3 <= length s2)%nat).
  { destruct s2 as [|x r0]; [injection E3 as <- <-; simpl; lia|].
    destruct (x =? 46); [|injection E3 as <- <-; simpl; lia].
    destruct (spanDigits r0) as [[|d ds] r'] eqn:Es; [done|].
    injection E3 as <- <-. apply spanDigits_length in Es. simpl. lia. }
  match goal with |- context [mbind _ ?m] => destruct m as [[exp s4]|] eqn:E4 end;
    simpl; [|done].
  assert (H4 : (length s4 <= length s3)%nat).
  { destruct s3 as [|x r0]; [injection E4 as <- <-; simpl; lia|].
    destruct ((x =? 101) || (x =? 69)); [|injection E4 as <- <-; simpl; lia].
    set (sg := match r0 with
               | y :: r' => if (y =? 43) || (y =? 45) then ([y], r') else ([], r0)
               | [] => ([], r0)
               end) in E4.
    assert (Hsg : (length sg.2 <= length r0)%nat).
    { subst sg. destruct r0 as [|y r']; simpl; [lia|].
      destruct ((y =? 43) || (y =? 45)); simpl; lia. }
    destruct sg as [sg r1]. simpl in Hsg.
    destruct (spanDigits r1) as [[|d ds] r'] eqn:Es; [done|].
    injection E4 as <- <-. apply spanDigits_length in Es. simpl. lia. }
  intros [= <- <-]. lia.
Qed.

Lemma expect_length (word : jstring) (v w : value) (s r : jstring) :
  expect word v s = Some (w, r) -> (length r <= length s)%nat.
Proof.
  unfold expect. destruct (startsWith word s); [|done]. intros [= <- <-].
  rewrite length_drop. lia.
Qed.

Lemma parse_length (fuel : nat) :
  (forall s v r, parseValue fuel s = Some (v, r) -> (length r <= length s)%nat) /\
  (forall s acc v r, parseMembers fuel s acc = Some (v, r) -> (length r <= length s)%nat) /\
  (forall s acc v r, parseElements fuel s acc = Some (v, r) -> (length r <= length s)%nat).
Proof.
  induction fuel as [|fuel (IHV & IHM & IHE)]; [by repeat split|].
  split; [|split].
  - intros s v r. simpl.
    destruct (skipWs s) as [|x r0] eqn:Ews; [done|]. apply skipWs_cons in Ews.
    destruct (x =? 123).
    { destruct (skipWs r0) as [|y r1] eqn:E1; [done|]. apply skipWs_cons in E1.
      destruct (y =? 125); [intros [= <- <-]; lia|].
      intros H. apply IHM in H. lia. }
    destruct (x =? 91).
    { destruct (skipWs r0) as [|y r1] eqn:E1; [done|]. apply skipWs_cons in E1.
      destruct (y =? 93); [intros [= <- <-]; lia|].
      intros H. apply IHE in H. lia. }
    destruct (x =? 34).
    { destruct (parseStringBody r0) as [[str r1]|] eqn:Eb; simpl; [|done].
      intros [= <- <-]. apply parseStringBody_length in Eb. lia. }
    destruct (x =? 116); [intros H; apply expect_length in H; simpl in H; lia|].
    destruct (x =? 102); [intros H; apply expect_length in H; simpl in H; lia|].
    destruct (x =? 110); [intros H; apply expect_length in H; simpl in H; lia|].
    destruct (parseNumber (x :: r0)) as [[num r1]|] eqn:En; simpl; [|done].
    intros [= <- <-]. apply parseNumber_length in En. simpl in En. lia.
  - intros s acc v r. simpl.
    destruct (skipWs s) as [|x r0] eqn:Ews; [done|]. apply skipWs_cons in Ews.
    destruct (x =? 34); [|done].
    destruct (parseStringBody r0) as [[key r1]|] eqn:Eb; simpl; [|done].
    apply parseStringBody_length in Eb.
    destruct (skipWs r1) as [|c r2] eqn:E2; [done|]. apply skipWs_cons in E2.
    destruct (c =? 58); [|done].
    destruct (parseValue fuel r2) as [[w r3]|] eqn:Ev; simpl; [|done].
    apply IHV in Ev.
    destruct (skipWs r3) as [|d r4] eqn:E4; [done|]. apply skipWs_cons in E4.
    destruct (d =? 44); [intros H; apply IHM in H; lia|].
    destruct (d =? 125); [|done]. intros [= <- <-]. lia.
  - intros s acc v r. simpl.
    destruct (parseValue fuel s) as [[w r0]|] eqn:Ev; simpl; [|done].
    apply IHV in Ev.
    destruct (skipWs r0) as [|d r1] eqn:E1; [done|]. apply skipWs_cons in E1.
    destruct (d =? 44); [intros H; apply IHE in H; lia|].
    destruct (d =? 93); [|done]. intros [= <- <-]. lia.
Qed.

(** Fuel beyond twice the length of the text changes nothing: a nested
    value or a further member costs one unit and at least one code unit
    of the text. *)
Lemma parse_fuel (fuel1 fuel2 : nat) :
  (forall s, (2 * length s < fuel1)%nat -> (2 * length s < fuel2)%nat ->
     parseValue fuel1 s = parseValue fuel2 s) /\
  (forall s acc, (2 * length s + 1 < fuel1)%nat -> (2 * length s + 1 < fuel2)%nat ->
     parseMembers fuel1 s acc = parseMembers fuel2 s acc) /\
  (forall s acc, (2 * length s + 1 < fuel1)%nat -> (2 * length s + 1 < fuel2)%nat ->
     parseElements fuel1 s acc = parseElements fuel2 s acc).
Proof.
  revert fuel2. induction fuel1 as [|fuel1 IH]; intros fuel2;
    [repeat split; intros; lia|].
  destruct fuel2 as [|fuel2]; [repeat split; intros; lia|].
  destruct (IH fuel2) as (IHV & IHM & IHE). clear IH.
  split; [|split].
  - intros s H1 H2. simpl.
    destruct (skipWs s) as [|x r0] eqn:Ews; [done|]. apply skipWs_cons in Ews.
    destruct (x =? 123).
    { destruct (skipWs r0) as [|y r1] eqn:E1; [done|].
      destruct (y =? 125); [done|]. apply IHM; lia. }
    destruct (x =? 91); [|done].
    destruct (skipWs r0) as [|y r1] eqn:E1; [done|].
    destruct (y =? 93); [done|]. apply IHE; lia.
  - intros s acc H1 H2. simpl.
    destruct (skipWs s) as [|x r0] eqn:Ews; [done|]. apply skipWs_cons in Ews.
    destruct (x =? 34); [|done].
    destruct (parseStringBody r0) as [[key r1]|] eqn:Eb; simpl; [|done].
    apply parseStringBody_length in Eb.
    destruct (skipWs r1) as [|c r2] eqn:E2; [done|]. apply skipWs_cons in E2.
    destruct (c =? 58); [|done].
    rewrite (IHV r2) by lia.
    destruct (parseValue fuel2 r2) as [[w r3]|] eqn:Ev; simpl; [|done].
    apply parse_length in Ev.
    destruct (skipWs r3) as [|d r4] eqn:E4; [done|]. apply skipWs_cons in E4.
    destruct (d =? 44); [|done]. apply IHM; lia.
  - intros s acc H1 H2. simpl.
    rewrite (IHV s) by lia.
    destruct (parseValue fuel2 s) as [[w r0]|] eqn:Ev; simpl; [|done].
    apply parse_length in Ev.
    destruct (skipWs r0) as [|d r1] eqn:E1; [done|]. apply skipWs_cons in E1.
    destruct (d =? 44); [|done]. apply IHE; lia.
Qed.

(** [JSON.parse] with any fuel above twice the length of the text. *)
Theorem JSON_parse_fuel (text : jstring) (fuel : nat) :
  (2 * length text < fuel)%nat ->
  JSON_parse text =
  '(v, r) ← parseValue fuel text; if skipWs r is [] then Some v else None.
Proof.
  intros H. unfold JSON_parse.
  by rewrite (proj1 (parse_fuel (S (2 * length text)) fuel) text) by lia.
Qed.

End JsonFacts.

(** ** parse-markdown *)
Module ParseMarkdownFacts.
Import JS JSFacts ParseMarkdown.

(** A link match is never empty, so [line.match(/.../g)] enumerates the
    matches as the loop of [execAll] does. *)
Lemma linkRegex_consumes : nullable linkRegex = false.
Proof. reflexivity. Qed.

(** An opening fence only sets the flag. *)
Lemma step_open (st : state) (line : jstring) :
  inCodeBlock st = false -> isFence line = true ->
  step st line = Some (buffering st (currentCodeBlock st)).
Proof. intros Hc Hf. unfold step. by rewrite Hf, Hc. Qed.

(** Inside a code block, a line that is not a fence goes to the buffer. *)
Lemma step_buffer (st : state) (line : jstring) :
  inCodeBlock st = true -> isFence line = false ->
  step st line = Some (buffering st (currentCodeBlock st ++ [line])).
Proof. intros Hc Hf. unfold step. by rewrite Hf, Hc. Qed.

(** A fence line flips [inCodeBlock]; every other line keeps it. *)
Lemma step_inCodeBlock (st st' : state) (line : jstring) :
  step st line = Some st' ->
  inCodeBlock st' = xorb (inCodeBlock st) (isFence line).
Proof.
  unfold step. destruct (isFence line) eqn:Hf.
  - destruct (inCodeBlock st) eqn:Hc; intros [= <-]; simpl; done.
  - destruct (inCodeBlock st) eqn:Hc.
    + intros [= <-]; simpl; done.
    + destruct (linkTargets line); simpl; [|done].
      destruct (execFirst _ _ _ _); simpl.
      * destruct (group _ 1); simpl; [|done].
        destruct (group _ 2); simpl; [|done].
        intros [= <-]; done.
      * intros [= <-]; done.
Qed.

(** After a run, the parser is inside a code block exactly when it met an
    odd number of fences (starting outside). *)
Lemma run_inCodeBlock (lines : list jstring) (st st' : state) :
  run lines st = Some st' ->
  inCodeBlock st' = xorb (inCodeBlock st) (Nat.odd (fenceCount lines)).
Proof.
  unfold run, fenceCount. revert st.
  induction lines as [|l ls IH]; intros st; cbn [forEach List.filter].
  - intros [= <-]. by destruct (inCodeBlock st).
  - destruct (step st l) as [st1|] eqn:Hs; cbn [mbind option_bind]; [|done].
    intros Hr. rewrite (IH _ Hr), (step_inCodeBlock _ _ _ Hs).
    destruct (isFence l); cbn [length].
    + rewrite Nat.odd_succ, <- Nat.negb_odd.
      by destruct (inCodeBlock st), (Nat.odd _).
    + by destruct (inCodeBlock st), (Nat.odd _).
Qed.

(** Inside a code block, lines that are not fences only grow the buffer. *)
Lemma run_inside (post : list jstring) (st : state) :
  inCodeBlock st = true ->
  forallb (fun l => negb (isFence l)) post = true ->
  run post st = Some (buffering st (currentCodeBlock st ++ post)).
Proof.
  unfold run. revert st. induction post as [|l ls IH]; intros st Hin Hall.
  - cbn [forEach]. rewrite app_nil_r. destruct st; simpl in *; by subst.
  - cbn [forallb] in Hall. apply andb_prop in Hall as [Hl Hls].
    apply negb_true_iff in Hl.
    cbn [forEach]. rewrite (step_buffer _ _ Hin Hl). cbn [mbind option_bind].
    rewrite IH by done. unfold buffering; simpl. by rewrite <- app_assoc.
Qed.

(** The buffer of an open code block is not part of the result. *)
Lemma finish_buffering (st : state) (buffer : list jstring) :
  finish (buffering st buffer) = finish st.
Proof. reflexivity. Qed.

(** C10: when the lines of the input are [pre], then a fence line that
    opens a code block (an even number of fences precede it), then lines
    [post] none of which is a fence, the result is the result of parsing
    [pre] alone: the lines after the opening fence reach neither
    [codeBlocks] nor any section, nor [links]. *)
Theorem unclosed_fence_drops_rest (content : jstring) (pre post : list jstring)
    (fence : jstring) :
  split LF content = pre ++ fence :: post ->
  Nat.even (fenceCount pre) = true ->
  isFence fence = true ->
  forallb (fun l => negb (isFence l)) post = true ->
  parseMarkdown content = parseLines pre.
Proof.
  intros Hsplit Heven Hfence Hpost.
  unfold parseMarkdown, parseLines. rewrite Hsplit. unfold run at 1.
  rewrite forEach_app. fold (run pre init).
  destruct (run pre init) as [st|] eqn:Hpre; simpl; [|done].
  assert (Hout : inCodeBlock st = false).
  { rewrite (run_inCodeBlock _ _ _ Hpre). simpl.
    rewrite <- Nat.negb_even, Heven. done. }
  cbn [forEach]. rewrite (step_open _ _ Hout Hfence). cbn [mbind option_bind].
  fold (run post (buffering st (currentCodeBlock st))).
  by rewrite run_inside.
Qed.

Lemma unclosed_fence_witness :
  parseMarkdown unclosed = parseLines [lit "# T"; lit "body"].
Proof.
  apply (unclosed_fence_drops_rest unclosed [lit "# T"; lit "body"]
           [lit "let x = [1](2)"; lit "# not a heading"] (lit "```js"));
    reflexivity.
Defined.

(** The unclosed sample, spelled out: one section, no code block, no link. *)
Example unclosed_result :
  parseMarkdown unclosed
  = Some {| sections := [{| heading := lit "T"; level := 1; content := lit "body" |}];
            codeBlocks := []; links := [] |}.
Proof. vm_compute. reflexivity. Qed.

(** The same holds of any text built from such lines. *)
Corollary unclosed_fence_in_text (pre post : list jstring) (fence : jstring) :
  Forall (Forall (fun x => x <> LF)) (pre ++ fence :: post) ->
  Nat.even (fenceCount pre) = true ->
  isFence fence = true ->
  forallb (fun l => negb (isFence l)) post = true ->
  parseMarkdown (join nl (pre ++ fence :: post)) = parseLines pre.
Proof.
  intros Hlines Heven Hfence Hpost.
  unfold parseMarkdown. rewrite split_join; [|by destruct pre|done].
  unfold parseLines, run at 1. rewrite forEach_app. fold (run pre init).
  destruct (run pre init) as [st|] eqn:Hpre; simpl; [|done].
  assert (Hout : inCodeBlock st = false).
  { rewrite (run_inCodeBlock _ _ _ Hpre). simpl.
    rewrite <- Nat.negb_even, Heven. done. }
  cbn [forEach]. rewrite (step_open _ _ Hout Hfence). cbn [mbind option_bind].
  fold (run post (buffering st (currentCodeBlock st))).
  by rewrite run_inside.
Qed.

(** A closed fence, for contrast: the block is committed. *)
Example closed_fence_commits :
  codeBlocks <$> parseMarkdown (unclosed ++ nl ++ lit "```")
  = Some [lit "let x = [1](2)" ++ nl ++ lit "# not a heading"].
Proof. vm_compute. reflexivity. Qed.


(** *** Every line is handled *)

(** The groups of a heading match: one to six hashes, and a title. *)
Lemma headingRegex_groups (line : jstring) (m : rmatch) :
  execFirst false false headingRegex line = Some m ->
  exists hashes title, group m 1 = Some hashes /\ group m 2 = Some title
                       /\ (1 <= length hashes <= 6)%nat.
Proof.
  intros Hm. apply RegexFacts.execFirst_matchAt in Hm as [q Hq].
  destruct (RegexFacts.matchAt_group _ _ _ _ _ 1%nat Hq) as (h & Hh & (r' & Hin & Hs));
    [done|simpl; auto|].
  destruct (RegexFacts.matchAt_group _ _ _ _ _ 2%nat Hq) as (t & Ht & _);
    [done|simpl; auto|].
  exists h, t. split; [done|]. split; [done|].
  simpl in Hin. destruct Hin as [[= <-]|[[=]|[]]].
  destruct Hs as (_ & Hmin & Hmax). specialize (Hmax _ eq_refl). simpl in Hmin. lia.
Qed.

(** The first parenthesised text of a link is always found set. *)
Lemma linkTargets_total (line : jstring) : is_Some (linkTargets line).
Proof.
  unfold linkTargets. apply mapM_is_Some, Forall_forall. intros m _. simpl.
  destruct (execFirst false false urlRegex (m_text m)) as [u|] eqn:Hu; [|done].
  apply RegexFacts.execFirst_matchAt in Hu as [q Hq].
  destruct (RegexFacts.matchAt_group _ _ _ _ _ 1%nat Hq) as (t & Ht & _);
    [done|simpl; auto|].
  by rewrite Ht.
Qed.

(** The five ways a line is handled. *)
Ltac step_cases Hs :=
  unfold step in Hs;
  destruct (isFence _) eqn:Hf;
  [ destruct (inCodeBlock _) eqn:Hc
  | destruct (inCodeBlock _) eqn:Hc;
    [ | destruct (linkTargets _) as [found|]; cbn [mbind option_bind] in Hs; [|done];
        destruct (execFirst _ _ _ _) as [hm|] eqn:Hh;
        [ destruct (group hm 1) as [hashes|] eqn:G1; cbn [mbind option_bind] in Hs; [|done];
          destruct (group hm 2) as [title|] eqn:G2; cbn [mbind option_bind] in Hs; [|done]
        | ] ] ];
  injection Hs as <-.

Lemma step_total (st : state) (line : jstring) : is_Some (step st line).
Proof.
  unfold step. destruct (isFence line); [by destruct (inCodeBlock st)|].
  destruct (inCodeBlock st); [done|].
  destruct (linkTargets_total line) as [found ->]. cbn [mbind option_bind].
  destruct (execFirst _ _ _ _) as [m|] eqn:Hm; [|done].
  apply headingRegex_groups in Hm as (h & t & -> & -> & _). done.
Qed.

Lemma run_total (lines : list jstring) (st : state) : is_Some (run lines st).
Proof.
  unfold run. revert st. induction lines as [|l ls IH]; intros st; cbn [forEach]; [done|].
  destruct (step_total st l) as [st1 ->]. cbn [mbind option_bind]. apply IH.
Qed.

Lemma fenceCount_cons (l : jstring) (ls : list jstring) :
  fenceCount (l :: ls) = if isFence l then S (fenceCount ls) else fenceCount ls.
Proof. unfold fenceCount. simpl. by destruct (isFence l). Qed.

Lemma closeSection_length (st : state) :
  length (closeSection st)
  = (length (st_sections st) + if currentSection st is Some _ then 1 else 0)%nat.
Proof.
  unfold closeSection. destruct (currentSection st) as [[h lv]|]; [|lia].
  rewrite length_app. simpl. lia.
Qed.

(** A closing fence commits one block; nothing else touches [codeBlocks]. *)
Lemma run_blocks (lines : list jstring) (st st' : state) :
  run lines st = Some st' ->
  length (st_codeBlocks st')
  = (length (st_codeBlocks st)
     + (fenceCount lines + if inCodeBlock st then 1 else 0) / 2)%nat.
Proof.
  unfold run. revert st. induction lines as [|l ls IH]; intros st; cbn [forEach].
  - intros [= <-]. destruct (inCodeBlock st); simpl; lia.
  - destruct (step st l) as [st1|] eqn:Hs; cbn [mbind option_bind]; [|done].
    intros Hr. rewrite (IH _ Hr), fenceCount_cons. clear IH Hr.
    step_cases Hs; cbn [st_codeBlocks inCodeBlock]; rewrite ?length_app; cbn [length].
    + replace (S (fenceCount ls) + 1)%nat with (fenceCount ls + 0 + 1 * 2)%nat by lia.
      rewrite Nat.div_add by lia. lia.
    + replace (S (fenceCount ls) + 0)%nat with (fenceCount ls + 1)%nat by lia. done.
    + done.
    + done.
    + done.
Qed.

(** A heading line outside the code blocks opens one section; nothing
    else adds one. *)
Lemma run_sections (lines : list jstring) (st st' : state) :
  run lines st = Some st' ->
  length (closeSection st')
  = (length (closeSection st)
     + length (List.filter isHeading (outsideFences (inCodeBlock st) lines)))%nat.
Proof.
  unfold run. revert st. induction lines as [|l ls IH]; intros st; cbn [forEach].
  - intros [= <-]. simpl. lia.
  - destruct (step st l) as [st1|] eqn:Hs; cbn [mbind option_bind]; [|done].
    intros Hr. rewrite (IH _ Hr). clear IH Hr. cbn [outsideFences].
    pose proof Hs as Hs0.
    step_cases Hs; rewrite !closeSection_length;
      cbn [st_sections currentSection inCodeBlock negb List.filter]; try done.
    + unfold isHeading. rewrite Hh. cbn [length].
      rewrite closeSection_length. lia.
    + unfold isHeading. rewrite Hh. done.
Qed.

Lemma levelled_close (st : state) :
  levelled st -> Forall (fun s => (1 <= level s <= 6)%nat) (closeSection st).
Proof.
  intros [Hs Hc]. unfold closeSection. destruct (currentSection st) as [[h lv]|]; [|done].
  apply Forall_app. split; [done|]. constructor; [|constructor]. simpl. by eapply Hc.
Qed.

Lemma run_levelled (lines : list jstring) (st st' : state) :
  run lines st = Some st' -> levelled st -> levelled st'.
Proof.
  unfold run. revert st. induction lines as [|l ls IH]; intros st; cbn [forEach].
  - by intros [= <-].
  - destruct (step st l) as [st1|] eqn:Hs; cbn [mbind option_bind]; [|done].
    intros Hr Hl. apply (IH _ Hr). clear IH Hr.
    step_cases Hs; try exact Hl.
    + destruct (headingRegex_groups _ _ Hh) as (h & t & G1' & _ & Hlen).
      rewrite G1 in G1'. injection G1' as <-.
      split; cbn [st_sections currentSection]; [by apply levelled_close|].
      by intros h' lv [= _ <-].
Qed.

(** Outside the code blocks the buffer is empty. *)
Lemma run_buffer (lines : list jstring) (st st' : state) :
  run lines st = Some st' ->
  (inCodeBlock st = false -> currentCodeBlock st = []) ->
  inCodeBlock st' = false -> currentCodeBlock st' = [].
Proof.
  unfold run. revert st. induction lines as [|l ls IH]; intros st; cbn [forEach].
  - intros [= <-]. auto.
  - destruct (step st l) as [st1|] eqn:Hs; cbn [mbind option_bind]; [|done].
    intros Hr Hb. apply (IH _ Hr). clear IH Hr.
    step_cases Hs; cbn [inCodeBlock currentCodeBlock]; auto; done.
Qed.

(** X1: parse-markdown returns a result for every content; no line makes
    the loop throw, because the groups of a heading match and of a link
    match are always set where the code reads them. *)
Theorem parseMarkdown_never_throws (content : jstring) :
  is_Some (parseMarkdown content).
Proof.
  unfold parseMarkdown, parseLines.
  destruct (run_total (split LF content) init) as [st ->]. done.
Qed.

(** X2: the number of code blocks returned is half the number of fence
    lines, rounded down: every second fence line commits one block, and
    an odd last fence commits none. *)
Theorem codeBlocks_per_fence_pair (content : jstring) :
  (fun r => length (codeBlocks r)) <$> parseMarkdown content
  = Some (fenceCount (split LF content) / 2)%nat.
Proof.
  unfold parseMarkdown, parseLines.
  destruct (run_total (split LF content) init) as [st Hr]. rewrite Hr. simpl.
  apply run_blocks in Hr. cbn [init st_codeBlocks inCodeBlock length] in Hr.
  rewrite Hr, Nat.add_0_r. done.
Qed.

(** X3: the number of sections returned is the number of lines that
    match the heading pattern and lie outside the fenced code blocks;
    text with no such line yields no section. *)
Theorem sections_per_heading (content : jstring) :
  (fun r => length (sections r)) <$> parseMarkdown content
  = Some (length (List.filter isHeading (outsideFences false (split LF content)))).
Proof.
  unfold parseMarkdown, parseLines.
  destruct (run_total (split LF content) init) as [st Hr]. rewrite Hr. simpl.
  apply run_sections in Hr. by rewrite Hr.
Qed.

(** X4: every section returned has a level between 1 and 6. *)
Theorem section_levels (content : jstring) :
  exists r, parseMarkdown content = Some r
            /\ Forall (fun s => (1 <= level s <= 6)%nat) (sections r).
Proof.
  unfold parseMarkdown, parseLines.
  destruct (run_total (split LF content) init) as [st Hr]. rewrite Hr.
  eexists. split; [done|]. simpl. apply levelled_close.
  apply (run_levelled _ _ _ Hr). split; [constructor|done].
Qed.

(** Inside a code block, lines up to the closing fence become one block. *)
Lemma run_block (body : list jstring) (closing : jstring) (st : state) :
  inCodeBlock st = true ->
  forallb (fun l => negb (isFence l)) body = true ->
  isFence closing = true ->
  run (body ++ [closing]) st
  = Some {| st_sections := st_sections st;
            st_codeBlocks := st_codeBlocks st ++ [join nl (currentCodeBlock st ++ body)];
            st_links := st_links st; currentSection := currentSection st;
            currentContent := currentContent st;
            inCodeBlock := false; currentCodeBlock := [] |}.
Proof.
  intros Hin Hbody Hclose. unfold run. rewrite forEach_app.
  fold (run body st). rewrite run_inside by done. cbn [mbind option_bind forEach].
  unfold step. rewrite Hclose. done.
Qed.

(** X5: when the lines of the input are [pre] (with an even number of
    fence lines), an opening fence, lines [body] none of which is a
    fence, and a closing fence, the result is that of [pre] with one
    more code block, the lines of [body] joined by newlines: the body
    adds nothing to the sections or the links. *)
Theorem fenced_block_committed (content : jstring) (pre body : list jstring)
    (opening closing : jstring) :
  split LF content = pre ++ opening :: body ++ [closing] ->
  Nat.even (fenceCount pre) = true ->
  isFence opening = true ->
  forallb (fun l => negb (isFence l)) body = true ->
  isFence closing = true ->
  parseMarkdown content = withBlock (join nl body) <$> parseLines pre.
Proof.
  intros Hsplit Heven Hopen Hbody Hclose.
  unfold parseMarkdown, parseLines. rewrite Hsplit. unfold run at 1.
  rewrite forEach_app. fold (run pre init).
  destruct (run pre init) as [st|] eqn:Hpre; simpl; [|done].
  assert (Hout : inCodeBlock st = false).
  { rewrite (run_inCodeBlock _ _ _ Hpre). simpl.
    rewrite <- Nat.negb_even, Heven. done. }
  assert (Hbuf : currentCodeBlock st = []) by (by apply (run_buffer _ _ _ Hpre)).
  rewrite (step_open _ _ Hout Hopen). cbn [mbind option_bind].
  fold (run (body ++ [closing]) (buffering st (currentCodeBlock st))).
  rewrite run_block by done. simpl. rewrite Hbuf. done.
Qed.

Lemma fenced_block_witness :
  parseMarkdown (unclosed ++ nl ++ lit "```")
  = withBlock (join nl [lit "let x = [1](2)"; lit "# not a heading"])
      <$> parseLines [lit "# T"; lit "body"].
Proof.
  apply (fenced_block_committed (unclosed ++ nl ++ lit "```") [lit "# T"; lit "body"]
           [lit "let x = [1](2)"; lit "# not a heading"] (lit "```js") (lit "```"));
    reflexivity.
Defined.

End ParseMarkdownFacts.

(** ** extract-all-apis *)
Module ExtractFacts.
Import JS JSFacts ExtractAllApis.

(** No pattern run in a loop matches the empty string. *)
Lemma loopPatterns_consume : Forall (fun r => nullable r = false) loopPatterns.
Proof. unfold loopPatterns. repeat (apply Forall_app; split); repeat constructor. Qed.

(** Hence every [while (... exec ...)] loop of the tool ends, with the
    matches the loop equation gives. *)
Lemma whileExec_loop (multiline : bool) (r : re) (content : jstring) :
  In r loopPatterns ->
  execAll multiline false r content =
  match search multiline false r (start content) with
  | Some m => m :: matchesFrom multiline false (S (length (rest (m_end m)))) r (m_end m)
  | None => []
  end.
Proof.
  intros Hin. apply (RegexFacts.matches_loop multiline false r (start content)).
  pose proof loopPatterns_consume as H.
  rewrite List.Forall_forall in H. by apply H.
Qed.

(** The loop with its [seen] set computes [keepNew]. *)
Lemma dedupLoop_keepNew (found : list api) (seen : gset jstring) (uniqueApis : list api) :
  dedupLoop found seen uniqueApis = uniqueApis ++ keepNew signature found seen.
Proof.
  revert seen uniqueApis. induction found as [|a rest IH]; intros seen uniq; simpl.
  - by rewrite app_nil_r.
  - case_decide; [apply IH|]. rewrite IH, <- app_assoc. done.
Qed.

(** The result does not depend on the log, the clock or [language]. *)
Lemma result_independent (c t : jstring) (l : option jstring) (rt : Logger.runtime) :
  fst (extractAllApis {| content := c; contentType := t; language := l |} rt)
  = match collect c t with
    | Some found => {| apis := dedup found; success := true |}
    | None => {| apis := []; success := false |}
    end.
Proof. unfold extractAllApis. simpl. by destruct (collect c t). Qed.

(** C3: in the list a call returns no two entries have the same
    signature; the list is made of entries the passes collected, in
    their order, and for every collected entry it holds the first
    collected entry with that signature; a call on the same content and
    content type, whatever its [language] argument and whatever the state
    of the log and the clock, returns the same list. *)
Theorem extractAllApis_dedup (c t : jstring) (l l' : option jstring)
    (rt rt' : Logger.runtime) :
  let out := fst (extractAllApis {| content := c; contentType := t; language := l |} rt) in
  NoDup (signature <$> apis out)
  /\ match collect c t with
     | Some found =>
         apis out `sublist_of` found
         /\ Forall (fun a => exists b,
                      List.find (sameKey signature a) found = Some b /\ b ∈ apis out) found
     | None => apis out = []
     end
  /\ fst (extractAllApis {| content := c; contentType := t; language := l' |} rt') = out.
Proof.
  cbv zeta. rewrite !result_independent.
  destruct (collect c t) as [found|]; simpl.
  - unfold dedup. rewrite dedupLoop_keepNew. simpl.
    split; [apply keepNew_NoDup|]. split; [|done].
    split; [apply keepNew_sublist|].
    apply Forall_forall. intros a Ha. apply keepNew_first; [done | apply not_elem_of_empty].
  - split; [constructor|done].
Qed.

(** Deduplicating twice changes nothing. *)
Lemma dedup_idempotent (found : list api) : dedup (dedup found) = dedup found.
Proof.
  unfold dedup. rewrite !dedupLoop_keepNew. simpl.
  assert (H : forall xs (seen : gset jstring),
             NoDup (signature <$> xs) -> (forall x, x ∈ xs -> signature x ∉ seen) ->
             keepNew signature xs seen = xs).
  { induction xs as [|x xs IH]; intros seen Hnd Hseen; simpl; [done|].
    rewrite fmap_cons in Hnd. apply NoDup_cons in Hnd as [Hx Hnd].
    rewrite decide_False by (apply Hseen; left). f_equal.
    apply IH; [done|]. intros y Hy. rewrite not_elem_of_union, not_elem_of_singleton.
    split; [|apply Hseen; by right].
    intros Heq. apply Hx. rewrite <- Heq. by apply list_elem_of_fmap_2. }
  apply H; [apply keepNew_NoDup|]. intros x _. apply not_elem_of_empty.
Qed.

(** What the claim of example A says of the extraction does not hold:
    the entry for [foo(x)] does not carry the description "does foo". *)
Lemma exampleA_description_lost :
  ~ (exists a, a ∈ apis (fst (extractAllApis (ask (lit "* `foo(x)` - does foo") (lit "md"))
                                             Logger.idle))
               /\ signature a = lit "foo(x)" /\ description a = lit "does foo").
Proof.
  intros (a & Hin & _ & Hd).
  assert (E : apis (fst (extractAllApis (ask (lit "* `foo(x)` - does foo") (lit "md"))
                                        Logger.idle))
              = [fooInline]) by (vm_compute; reflexivity).
  rewrite E in Hin. apply list_elem_of_singleton in Hin as ->. discriminate Hd.
Qed.

(** C1, amended: example A parses to the two sections [Intro] and [API],
    no code block and no link; in the content of the second section the
    passes collect [foo(x)] twice, first from the inline-code pass with
    the default description, then from the list pass with "does foo"; the
    call returns the first of the two only. *)
Theorem exampleA_amended (l : option jstring) (rt : Logger.runtime) :
  ParseMarkdown.parseMarkdown ParseMarkdown.exampleA
  = Some {| ParseMarkdown.sections := ParseMarkdown.sectionsA;
            ParseMarkdown.codeBlocks := []; ParseMarkdown.links := [] |}
  /\ collect (lit "* `foo(x)` - does foo") (lit "md") = Some [fooInline; fooListed]
  /\ fst (extractAllApis {| content := lit "* `foo(x)` - does foo";
                            contentType := lit "md"; language := l |} rt)
     = {| apis := [fooInline]; success := true |}.
Proof.
  split; [vm_compute; reflexivity|]. split; [vm_compute; reflexivity|].
  rewrite result_independent. vm_compute. reflexivity.
Qed.

(** What the claim of example B says does not hold: the call returns no
    export entry at all. *)
Lemma exampleB_no_entries :
  ~ (exists a, a ∈ apis (fst (extractAllApis (ask exampleB (lit "json")) Logger.idle))
               /\ category a = Some (lit "export")).
Proof.
  intros (a & Hin & _).
  assert (E : apis (fst (extractAllApis (ask exampleB (lit "json")) Logger.idle)) = [])
    by (vm_compute; reflexivity).
  rewrite E in Hin. by apply elem_of_nil in Hin.
Qed.

(** C6, amended: the manifest branch runs only when the content contains
    the text package.json; the manifest of example B does not, and the
    call returns no entry, with success; the same manifest with a [name]
    member that contains it yields three export entries, signed
    "default export" (for the key "."), "main" and "types". *)
Theorem exampleB_amended (l : option jstring) (rt : Logger.runtime) :
  includes (lit "package.json") exampleB = false
  /\ fst (extractAllApis {| content := exampleB; contentType := lit "json";
                            language := l |} rt)
     = {| apis := []; success := true |}
  /\ fst (extractAllApis {| content := exampleBNamed; contentType := lit "json";
                            language := l |} rt)
     = {| apis := [ exported "default export" "Exported from ./index.js";
                    exported "main" "Main entry: ./index.js";
                    exported "types" "TypeScript definitions: ./index.d.ts" ];
          success := true |}.
Proof.
  split; [vm_compute; reflexivity|].
  rewrite !result_independent. split; vm_compute; reflexivity.
Qed.

(** *** The passes never throw *)

Lemma forEach_is_Some {S A} (body : S -> A -> option S) (xs : list A) (st : S) :
  (forall st x, In x xs -> is_Some (body st x)) -> is_Some (forEach body st xs).
Proof.
  revert st. induction xs as [|x xs IH]; intros st Hb; cbn [forEach]; [done|].
  destruct (Hb st x) as [st1 ->]; [by left|]. cbn [mbind option_bind].
  apply IH. intros st' y Hy. apply Hb. by right.
Qed.

Lemma whileExec_is_Some (multiline : bool) (r : re) (content : jstring)
    (body : list api -> rmatch -> option (list api)) (apis : list api) :
  (forall apis m q, matchAt multiline false r q = Some m -> is_Some (body apis m)) ->
  is_Some (whileExec multiline r content body apis).
Proof.
  intros Hb. unfold whileExec. apply forEach_is_Some. intros st m Hm.
  apply RegexFacts.execAll_matchAt in Hm as [q Hq]. by eapply Hb.
Qed.

Lemma sets_group (multiline : bool) (r : re) (i : nat) (q : pos) (m : rmatch) :
  sets i r -> matchAt multiline false r q = Some m -> is_Some (group m i).
Proof.
  intros [Hw Hi] Hm.
  destruct (RegexFacts.matchAt_group _ _ _ _ _ i Hm Hw Hi) as (t & -> & _). done.
Qed.

Ltac sets_now := split; [reflexivity | simpl; auto 10].

Lemma namedPass_is_Some (multiline : bool) (r : re) (keyword desc cat : string)
    (content : jstring) (apis : list api) :
  is_Some (namedPass multiline r keyword desc cat content apis).
Proof. apply whileExec_is_Some. done. Qed.

Lemma callPass_is_Some (r : re) (keyword desc cat : string) (excluded : list string)
    (content : jstring) (apis : list api) :
  is_Some (callPass r keyword desc cat excluded content apis).
Proof. apply whileExec_is_Some. done. Qed.

Ltac bind_some H := destruct H as [? ->]; cbn [mbind option_bind].

Lemma markdownApis_is_Some (content : jstring) : is_Some (markdownApis content).
Proof.
  unfold markdownApis.
  assert (H1 : forall apis, is_Some (codeBlockPass content apis)).
  { intros apis. apply whileExec_is_Some. intros apis' m q Hm.
    apply forEach_is_Some. intros st pattern _. by apply whileExec_is_Some. }
  assert (H2 : forall apis, is_Some (inlinePass content apis)).
  { intros apis. unfold inlinePass. apply forEach_is_Some. intros st pattern Hp.
    apply whileExec_is_Some. intros apis' m q Hm.
    assert (Hs : sets 1 pattern).
    { simpl in Hp. destruct Hp as [<-|[<-|[<-|[<-|[]]]]]; sets_now. }
    destruct (sets_group _ _ _ _ _ Hs Hm) as [sig ->]. done. }
  assert (H3 : forall apis, is_Some (listPass content apis)).
  { intros apis. unfold listPass. apply forEach_is_Some. intros st pattern Hp.
    apply whileExec_is_Some. intros apis' m q Hm.
    assert (Hs : sets 1 pattern /\ sets 2 pattern).
    { simpl in Hp. destruct Hp as [<-|[<-|[<-|[]]]]; split; sets_now. }
    destruct (sets_group _ _ _ _ _ (proj1 Hs) Hm) as [sig ->].
    destruct (sets_group _ _ _ _ _ (proj2 Hs) Hm) as [desc ->]. done. }
  assert (H4 : forall apis, is_Some (tablePass content apis)).
  { intros apis. apply whileExec_is_Some. intros apis' m q Hm.
    destruct (sets_group _ tableRowRegex 1 _ _ ltac:(sets_now) Hm) as [sig ->].
    destruct (sets_group _ tableRowRegex 2 _ _ ltac:(sets_now) Hm) as [desc ->]. done. }
  assert (H5 : forall apis, is_Some (headerPass content apis)).
  { intros apis. apply whileExec_is_Some. intros apis' m q Hm.
    destruct (sets_group _ headerRegex 1 _ _ ltac:(sets_now) Hm) as [sig ->]. done. }
  bind_some (H1 []). bind_some (H2 x). bind_some (H3 x0). bind_some (H4 x1). apply H5.
Qed.

Lemma TS_extract_is_Some (content : jstring) : is_Some (TS.extract content).
Proof.
  unfold TS.extract.
  match goal with |- is_Some (mbind _ ?w) => assert (H1 : is_Some w) end.
  { apply whileExec_is_Some. intros apis' m q Hm. cbv zeta.
    destruct (sets_group _ TS.methodRegex 4 _ _ ltac:(sets_now) Hm) as [ty ->]. done. }
  bind_some H1.
  match goal with |- is_Some (mbind _ ?w) => assert (H2 : is_Some w) end.
  { apply whileExec_is_Some. intros apis' m q Hm.
    destruct (sets_group _ TS.propertyRegex 3 _ _ ltac:(sets_now) Hm) as [ty ->]. done. }
  bind_some H2.
  apply whileExec_is_Some. intros apis' m q Hm.
  destruct (sets_group _ TS.exportRegex 1 _ _ ltac:(sets_now) Hm) as [name ->]. done.
Qed.

Lemma collect_is_Some (content contentType : jstring) :
  is_Some (collect content contentType).
Proof.
  unfold collect.
  repeat match goal with
         | |- is_Some (if ?b then _ else _) => destruct b
         end; try done.
  - apply markdownApis_is_Some.
  - apply TS_extract_is_Some.
  - unfold JavaScript.extract.
    bind_some (callPass_is_Some JavaScript.functionRegex "" "Function" "function" []
                 content []).
    bind_some (callPass_is_Some JavaScript.arrowRegex "" "Arrow function" "function" []
                 content x).
    bind_some (callPass_is_Some JavaScript.methodRegex "" "Method" "method" []
                 content x0).
    apply callPass_is_Some.
  - unfold Python.extract.
    bind_some (namedPass_is_Some true Python.classRegex "class " "Python class" "class"
                 content []).
    match goal with |- is_Some (mbind _ ?w) => assert (H2 : is_Some w) end.
    { by apply whileExec_is_Some. }
    bind_some H2. apply namedPass_is_Some.
  - unfold Java.extract.
    bind_some (namedPass_is_Some false Java.classRegex "class " "Java class" "class"
                 content []).
    bind_some (namedPass_is_Some false Java.interfaceRegex "interface " "Java interface"
                 "interface" content x).
    apply callPass_is_Some.
  - unfold Rust.extract.
    bind_some (namedPass_is_Some false Rust.structRegex "struct " "Rust struct" "struct"
                 content []).
    bind_some (namedPass_is_Some false Rust.enumRegex "enum " "Rust enum" "enum"
                 content x).
    match goal with |- is_Some (mbind _ ?w) => assert (H2 : is_Some w) end.
    { by apply whileExec_is_Some. }
    bind_some H2. apply namedPass_is_Some.
  - unfold Go.extract.
    bind_some (callPass_is_Some Go.funcRegex "func " "Go function" "function" []
                 content []).
    apply namedPass_is_Some.
  - unfold Ruby.extract.
    bind_some (namedPass_is_Some false Ruby.classRegex "class " "Ruby class" "class"
                 content []).
    bind_some (namedPass_is_Some false Ruby.moduleRegex "module " "Ruby module" "module"
                 content x).
    by apply whileExec_is_Some.
  - unfold Cpp.extract.
    bind_some (namedPass_is_Some false Cpp.classRegex "class " "C++ class" "class"
                 content []).
    bind_some (namedPass_is_Some false Cpp.structRegex "struct " "C++ struct" "struct"
                 content x).
    apply namedPass_is_Some.
  - unfold CSharp.extract.
    bind_some (namedPass_is_Some false CSharp.classRegex "class " "C# class" "class"
                 content []).
    bind_some (namedPass_is_Some false CSharp.interfaceRegex "interface " "C# interface"
                 "interface" content x).
    apply callPass_is_Some.
  - unfold Php.extract.
    bind_some (namedPass_is_Some false Php.classRegex "class " "PHP class" "class"
                 content []).
    apply callPass_is_Some.
Qed.

(** X6: extract-all-apis never reports a failure: for every content and
    content type the result has [success = true].  The handler that
    returns [success = false] is reached only by an exception, and no
    pass throws: every capture group a pass calls a method on is set by
    every match of its pattern. *)
Theorem extractAllApis_never_fails (i : input) (rt : Logger.runtime) :
  success (fst (extractAllApis i rt)) = true.
Proof.
  unfold extractAllApis. cbv zeta.
  destruct (collect_is_Some (content i) (contentType i)) as [found ->]. done.
Qed.

End ExtractFacts.

(** ** generate-output *)
Module OutputFacts.
Import JS JSFacts GenerateOutput.

(** The concatenation loop builds the template. *)
Lemma render_template (i : input) : render i = template i.
Proof.
  unfold render, template, titled, item, attribution.
  rewrite !fold_append. simpl concat. rewrite app_nil_r.
  rewrite <- !app_assoc. reflexivity.
Qed.

(** C9: two calls on the same input return the same markdown, whatever
    the state of the log and the clock at each call; that markdown is
    the title line, the four titled sections and the closing attribution
    line of the template. *)
Theorem generateOutput_deterministic (i : input) (rt rt' : Logger.runtime) :
  markdown (fst (generateOutput i rt)) = markdown (fst (generateOutput i rt'))
  /\ markdown (fst (generateOutput i rt)) = template i.
Proof.
  unfold generateOutput. simpl. split; [reflexivity | apply render_template].
Qed.

(** The only trace of a call is in the log: two entries. *)
Lemma generateOutput_logs (i : input) (rt : Logger.runtime) :
  length (Logger.sink (snd (generateOutput i rt))) = S (S (length (Logger.sink rt))).
Proof. unfold generateOutput. simpl. rewrite !length_app. simpl. lia. Qed.

End OutputFacts.

(** ** fetch-all-docs *)
Module FetchFacts.
Import JS JSFacts Net FetchAllDocs.

(** Over 50000 estimated tokens is over 200000 characters. *)
Lemma tokens_over (text : jstring) :
  (50000 <? estimateTokens text)%Z = true <-> (200000 < Z.of_nat (length text))%Z.
Proof.
  unfold estimateTokens. rewrite Z.ltb_lt.
  split; intros H; Z.div_mod_to_equations; lia.
Qed.

Lemma substring0_length (n : Z) (s : jstring) :
  (0 <= n)%Z -> (Z.of_nat (length (substring0 n s)) <= n)%Z.
Proof. intros Hn. unfold substring0. rewrite length_take. lia. Qed.

Ltac cases :=
  repeat match goal with
         | |- context [match ?x with _ => _ end] => destruct x eqn:?; simpl
         end.

Section Passes.
Variable fetch : jstring -> fetched.
Variable base64ToString : value -> option jstring.
Variable url : jstring.
Variable kind : searchKind.
Variable limit : Q.

(** The [try] block of the candidate loop adds at most one entry; the
    entry has a path the denylist lets through and went through the
    size handling. *)
Lemma fetchCandidate_spec (branch path : jstring) (files : list file) :
  shouldSkipFile path = false ->
  fetchCandidate fetch url branch path files = files
  \/ exists f, fetchCandidate fetch url branch path files = files ++ [f]
               /\ allowed f /\ sized f.
Proof.
  intros Hskip. unfold fetchCandidate.
  destruct (fetch _) as [|[] status body]; [by left| |by left].
  destruct (text body) as [content|]; [|by left].
  cbv zeta. destruct (50000 <? _)%Z eqn:Hbig.
  - unfold eqs. case_bool_decide as Hpkg.
    + right. eexists. split; [done|]. split; [by eexists|].
      right. simpl. split; [done|]. right. by rewrite Hpkg.
    + right. eexists. split; [done|]. split; [by eexists|].
      left. simpl. split; [done|]. by apply substring0_length.
  - right. eexists. split; [done|]. split; [by eexists|].
    right. simpl. split; [done|]. left.
    apply not_true_iff_false in Hbig. rewrite tokens_over in Hbig. lia.
Qed.

(** The same for the inner [try] of the documentation-directory pass. *)
Lemma fetchDocFile_spec (f : value) (filePath name : jstring) (files : list file) :
  shouldSkipFile filePath = false ->
  fetchDocFile fetch f filePath name files = files
  \/ exists e, fetchDocFile fetch f filePath name files = files ++ [e]
               /\ allowed e /\ sized e.
Proof.
  intros Hskip. unfold fetchDocFile.
  destruct (fetchValue fetch _) as [|[] status body]; [by left| |by left].
  destruct (text body) as [content|]; [|by left].
  cbv zeta. destruct (50000 <? _)%Z eqn:Hbig.
  - right. eexists. split; [done|]. split; [by eexists|].
    left. simpl. split; [done|]. by apply substring0_length.
  - right. eexists. split; [done|]. split; [by eexists|].
    right. simpl. split; [done|]. left.
    apply not_true_iff_false in Hbig. rewrite tokens_over in Hbig. lia.
Qed.

(** A property [ok] of entries, and the invariant of the passes: the
    array holds at most [max 0 limit] entries, all [ok]. *)
Variable ok : file -> Prop.

Definition inv (files : list file) : Prop :=
  (Z.of_nat (length files) <= Z.max 0 (ceiling limit))%Z /\ Forall ok files.

(** The two tests on the budget are each other's negation, and compare
    the count with the budget rounded up. *)
Lemma room_full (files : list file) : room limit files = negb (full limit files).
Proof. apply below_atLeast. Qed.

Lemma full_ceiling (files : list file) :
  full limit files = (ceiling limit <=? Z.of_nat (length files))%Z.
Proof. apply atLeast_ceiling. Qed.

Lemma inv_push (files : list file) (f : file) :
  inv files -> full limit files = false -> ok f -> inv (files ++ [f]).
Proof.
  unfold inv. rewrite full_ceiling. intros [Hn Hall] Hfull Hok. split.
  - rewrite length_app. simpl. apply Z.leb_gt in Hfull. lia.
  - apply Forall_app. split; [done | by constructor].
Qed.

Section Guarded.
(** The two passes that consult the denylist and handle sizes. *)
Hypothesis ok_guarded : forall f, allowed f -> sized f -> ok f.

Lemma candidateLoop_inv (branch : jstring) (paths : list jstring) (files : list file) :
  inv files -> inv (candidateLoop fetch url limit branch paths files).
Proof.
  revert files. induction paths as [|path more IH]; intros files Hinv; simpl; [done|].
  destruct (full limit files) eqn:Hfull; [done|].
  destruct (shouldSkipFile path) eqn:Hskip; [by apply IH|].
  apply IH.
  destruct (fetchCandidate_spec branch path files Hskip) as [->|(f & -> & Ha & Hs)];
    [done | by apply inv_push; auto].
Qed.

Lemma docsEntries_inv (dir : jstring) (listing : list value) (files : list file) :
  inv files -> inv (fst (docsEntries fetch limit dir listing files)).
Proof.
  revert files. induction listing as [|f more IH]; intros files Hinv; simpl; [done|].
  destruct (full limit files) eqn:Hfull; [done|].
  destruct (getProp f (lit "type")) as [ty|]; [|done].
  destruct (isStr (lit "file") ty); [|by apply IH].
  destruct (getProp f (lit "name") ≫= asString) as [name|]; [|done].
  destruct (endsWith (lit ".md") name || endsWith (lit ".rst") name); [|by apply IH].
  destruct (shouldSkipFile _) eqn:Hskip; [by apply IH|].
  apply IH.
  destruct (fetchDocFile_spec f _ name files Hskip) as [->|(e & -> & Ha & Hs)];
    [done | by apply inv_push; auto].
Qed.

Lemma docsDirs_inv (dirs : list jstring) (files : list file) :
  inv files -> inv (fst (docsDirs fetch url limit dirs files)).
Proof.
  revert files. induction dirs as [|dir more IH]; intros files Hinv; simpl; [done|].
  destruct (full limit files); [done|].
  destruct (fetch _) as [|[] status body]; [done| |by apply IH].
  destruct (json body ≫= iterate) as [listing|]; [|done].
  pose proof (docsEntries_inv dir listing files Hinv) as Hd.
  destruct (docsEntries fetch limit dir listing files) as [files' []];
    [by apply IH|done].
Qed.

Lemma discoverDocs_inv (files : list file) :
  inv files -> inv (discoverDocs fetch url limit files).
Proof.
  intros Hinv. unfold discoverDocs.
  destruct (fetch _) as [|[] status body]; [done| |by apply docsDirs_inv].
  destruct (_ ≫= _); [by apply docsDirs_inv|done].
Qed.

Lemma afterDocs_inv (branch : jstring) : inv (afterDocs fetch url kind limit branch).
Proof.
  unfold afterDocs.
  assert (H0 : inv []) by (split; [simpl; lia | constructor]).
  pose proof (candidateLoop_inv branch (docPaths kind) [] H0) as H1.
  destruct (_ && _); [|done]. by apply discoverDocs_inv.
Qed.
End Guarded.

Section Unguarded.
(** The other passes check the budget only. *)
Hypothesis ok_any : forall f, ok f.

Lemma typeEntries_inv (location : jstring) (listing : list value) (files : list file) :
  inv files -> inv (fst (typeEntries fetch limit location listing files)).
Proof.
  revert files. induction listing as [|f more IH]; intros files Hinv; simpl; [done|].
  destruct (full limit files) eqn:Hfull; [done|].
  destruct (getProp f (lit "type")) as [ty|]; [|done].
  destruct (isStr (lit "file") ty); [|by apply IH].
  destruct (getProp f (lit "name") ≫= asString) as [name|]; [|done].
  destruct (endsWith (lit ".d.ts") name); [|by apply IH].
  apply IH. cases; try done; by apply inv_push.
Qed.

Lemma typeDirs_inv (locations : list jstring) (files : list file) :
  inv files -> inv (fst (typeDirs fetch url limit locations files)).
Proof.
  revert files. induction locations as [|location more IH]; intros files Hinv;
    simpl; [done|].
  destruct (full limit files); [done|].
  destruct (fetch _) as [|[] status body]; [done| |by apply IH].
  destruct (json body) as [[| | | | |listing|]|]; try done; try by apply IH.
  pose proof (typeEntries_inv location listing files Hinv) as Hd.
  destruct (typeEntries fetch limit location listing files) as [files' []];
    [by apply IH|done].
Qed.

Lemma packageEntries_inv (pkgName : jstring) (listing : list value) (files : list file) :
  inv files -> inv (fst (packageEntries fetch limit pkgName listing files)).
Proof.
  revert files. induction listing as [|f more IH]; intros files Hinv; simpl; [done|].
  destruct (full limit files) eqn:Hfull; [done|].
  destruct (getProp f (lit "type")) as [ty|]; [|done].
  destruct (if isStr (lit "file") ty then _ else _) as [name|]; [|by apply IH].
  apply IH. cases; try done; by apply inv_push.
Qed.

Lemma packagesLoop_inv (packages : list value) (files : list file) :
  inv files -> inv (fst (packagesLoop fetch base64ToString url limit packages files)).
Proof.
  revert files. induction packages as [|pkg more IH]; intros files Hinv; simpl; [done|].
  destruct (full limit files) eqn:Hfull; [done|].
  destruct (getProp pkg (lit "type")) as [ty|]; [|done].
  destruct (isStr (lit "dir") ty); [|by apply IH].
  destruct (toStr _) as [pkgName|]; [|done].
  destruct (fetch _) as [|[] status body]; [done| |by apply IH].
  destruct (_ ≫= _) as [pkgJsonContent|]; [|done].
  match goal with
  | |- context [files ++ [?f]] =>
      pose proof (inv_push files f Hinv Hfull (ok_any _)) as Hpush
  end.
  destruct (fetch _) as [|ok' status' body']; [done|].
  destruct (ok' && room limit _); [|by apply IH].
  destruct (json body' ≫= iterate) as [listing|]; [|done].
  match goal with
  | |- context [packageEntries _ _ ?n ?l ?fs] =>
      pose proof (packageEntries_inv n l fs Hpush) as Hd;
      destruct (packageEntries fetch limit n l fs) as [files' []]
  end; [by apply IH|done].
Qed.

Lemma monorepo_inv (files : list file) :
  inv files -> inv (monorepo fetch base64ToString url limit files).
Proof.
  intros Hinv. unfold monorepo.
  destruct (fetch _) as [|[] status body]; [done| |done].
  destruct (json body ≫= iterate); [by apply packagesLoop_inv|done].
Qed.

Lemma manifestEntries_inv (branch : jstring) (files : list file) :
  inv files -> inv (manifestEntries fetch url limit branch files).
Proof.
  intros Hinv. unfold manifestEntries.
  destruct (List.find _ files) as [packageJsonFile|]; [|done].
  destruct (truncated packageJsonFile); [done|].
  destruct (JSON_parse _) as [pkg|]; [|done].
  destruct (getProp pkg (lit "main")) as [main|]; [|done].
  cbv zeta.
  match goal with
  | |- context [let '(files, ok) := ?main in _] =>
      assert (Hmain : inv main.1); [|destruct main as [files1 done]]
  end.
  { destruct (truthy _); [|done].
    rewrite room_full. destruct (full limit files) eqn:Hfull; [done|].
    simpl. cases; try done; by apply inv_push. }
  cbn [fst] in Hmain.
  destruct done; [|done]. cbn [andb].
  destruct (truthy _); [|done].
  rewrite room_full. destruct (full limit files1) eqn:Hfull; [done|].
  simpl. cases; try done; by apply inv_push.
Qed.
End Unguarded.
End Passes.

(** All the passes together stay within the budget. *)
Lemma gather_within (fetch : jstring -> fetched) (base64ToString : value -> option jstring)
    (url : jstring) (kind : searchKind) (limit : Q) (branch : jstring) :
  (Z.of_nat (length (gather fetch base64ToString url kind limit branch))
   <= Z.max 0 (ceiling limit))%Z.
Proof.
  set (ok := fun _ : file => True).
  assert (Hany : forall f, ok f) by done.
  assert (H1 : inv limit ok (afterDocs fetch url kind limit branch)).
  { apply afterDocs_inv. done. }
  unfold gather. cbv zeta.
  assert (H2 : forall files : list file, inv limit ok files ->
            inv limit ok (if room limit files && isTypes kind
                          then discoverTypes fetch url limit files else files)).
  { intros files Hf. destruct (_ && _); [|done]. by apply typeDirs_inv. }
  assert (H3 : forall files : list file, inv limit ok files ->
            inv limit ok (if room limit files && isTypes kind
                          then monorepo fetch base64ToString url limit files else files)).
  { intros files Hf. destruct (_ && _); [|done]. by apply monorepo_inv. }
  assert (H4 : forall files : list file, inv limit ok files ->
            inv limit ok (if isSource kind
                          then manifestEntries fetch url limit branch files else files)).
  { intros files Hf. destruct (isSource kind); [|done]. by apply manifestEntries_inv. }
  apply H4, H3, H2, H1.
Qed.

(** For any [maxFiles], negative and fractional ones included, a call
    returns at most [max 0 (ceiling maxFiles)] entries. *)
Lemma files_within_budget (fetch : jstring -> fetched)
    (base64ToString : value -> option jstring) (i : input) :
  (Z.of_nat (length (files (fetchAllDocs fetch base64ToString i)))
   <= Z.max 0 (ceiling (default (integer 50) (maxFiles i))))%Z.
Proof.
  unfold fetchAllDocs, run.
  destruct (probeBranches _ _ _ _) as [branch|message]; simpl; [|lia].
  apply gather_within.
Qed.

(** The claim of C4 does not hold for a fractional [maxFiles], which the
    input schema admits: with [maxFiles = 1/2] the first budget test,
    [0 >= 0.5], is false, and the readme the host serves is returned:
    one entry, more than [maxFiles]. *)
Lemma fractional_budget_exceeded :
  let out := fetchAllDocs twoDocsHost noBase64 (request All (Some (QArith_base.Qmake 1 2))) in
  map path (files out) = [VStr (lit "README.md")]
  /\ QArith_base.Qlt (QArith_base.Qmake 1 2) (integer (Z.of_nat (length (files out)))).
Proof. cbv zeta. split; vm_compute; reflexivity. Qed.

(** C4, amended: with [maxFiles = N] (50 when absent), any number, a call
    returns at most [N] rounded up to an integer entries, and none when
    [N] is not positive, whatever the repository, the phase and the
    answers of the host; when [N] is an integer that is not negative, it
    returns at most [N] entries.  The candidate paths, the
    documentation directories, the type-definition directories, the
    monorepo packages and the manifest entries share the one budget. *)
Theorem files_within_maxFiles (fetch : jstring -> fetched)
    (base64ToString : value -> option jstring) (i : input) :
  let N := default (integer 50) (maxFiles i) in
  let returned := Z.of_nat (length (files (fetchAllDocs fetch base64ToString i))) in
  (returned <= Z.max 0 (ceiling N))%Z
  /\ (forall n : Z, (0 <= n)%Z -> QArith_base.Qeq N (integer n) -> (returned <= n)%Z).
Proof.
  cbv zeta. pose proof (files_within_budget fetch base64ToString i) as H.
  split; [exact H|]. intros n Hn HN.
  rewrite (Qround.Qceiling_comp _ _ HN), Qround.Qceiling_Z in H. lia.
Qed.

Lemma files_within_maxFiles_witness :
  (Z.of_nat (length (files (fetchAllDocs twoDocsHost noBase64 (request All (Some (integer 1))))))
   <= 1)%Z.
Proof.
  apply (proj2 (files_within_maxFiles twoDocsHost noBase64 (request All (Some (integer 1)))) 1%Z).
  - lia.
  - reflexivity.
Defined.

(** The budget at work: the host serves two candidate files, one is
    returned under [maxFiles = 1], both under [maxFiles = 5]. *)
Example budget_of_one :
  map path (files (fetchAllDocs twoDocsHost noBase64 (request All (Some (integer 1)))))
  = [VStr (lit "README.md")].
Proof. vm_compute. reflexivity. Qed.

Example budget_of_five :
  map path (files (fetchAllDocs twoDocsHost noBase64 (request All (Some (integer 5)))))
  = [VStr (lit "README.md"); VStr (lit "API.md")].
Proof. vm_compute. reflexivity. Qed.

(** A path the denylist lets through does not contain CHANGELOG.MD in
    any letter case. *)
Lemma allowed_changelog (p : jstring) :
  shouldSkipFile p = false -> includes (lit "CHANGELOG.MD") (toUpperCase p) = false.
Proof.
  unfold shouldSkipFile, SKIP_FILES. cbn [map existsb].
  intros H. apply orb_false_elim in H as [H _]. exact H.
Qed.

(** In the docs phase only the two guarded passes run. *)
Lemma gather_docs (fetch : jstring -> fetched) (base64ToString : value -> option jstring)
    (url : jstring) (limit : Q) (branch : jstring) :
  gather fetch base64ToString url Docs limit branch = afterDocs fetch url Docs limit branch.
Proof. unfold gather. cbn [isTypes isSource]. by rewrite !andb_false_r. Qed.

(** The entries of the two guarded passes, in any phase. *)
Lemma afterDocs_guarded (fetch : jstring -> fetched) (url : jstring) (kind : searchKind)
    (limit : Q) (branch : jstring) :
  Forall (fun f => allowed f /\ sized f) (afterDocs fetch url kind limit branch).
Proof.
  apply (afterDocs_inv fetch url kind limit (fun f => allowed f /\ sized f)). done.
Qed.

(** The claim of C5 does not hold: a type definition named
    [changelog.d.ts] at the root is returned in the types phase, and
    [docs/CHANGELOG.rst] is returned in the docs phase. *)
Lemma changelog_paths_returned :
  (exists f p, f ∈ files (fetchAllDocs changelogTypesHost noBase64 (request Types None))
               /\ path f = VStr p /\ includes (lit "CHANGELOG") (toUpperCase p) = true)
  /\ (exists f p, f ∈ files (fetchAllDocs changelogRstHost noBase64 (request Docs None))
                  /\ path f = VStr p /\ includes (lit "CHANGELOG") (toUpperCase p) = true).
Proof.
  split.
  - exists (plain (VStr (lit "changelog.d.ts")) (lit "export {}") (lit "d.ts")),
           (lit "changelog.d.ts").
    split; [|by vm_compute].
    assert (E : files (fetchAllDocs changelogTypesHost noBase64 (request Types None))
                = [plain (VStr (lit "changelog.d.ts")) (lit "export {}") (lit "d.ts")])
      by (vm_compute; reflexivity).
    rewrite E. apply list_elem_of_singleton. reflexivity.
  - set (f := {| path := VStr (lit "docs/CHANGELOG.rst"); content := lit "Changes";
                  type := lit "rst"; truncated := false; originalSize := None;
                  estimatedTokens := Some 2%Z; largeFile := false |}).
    exists f, (lit "docs/CHANGELOG.rst").
    split; [|by vm_compute].
    assert (E : files (fetchAllDocs changelogRstHost noBase64 (request Docs None)) = [f])
      by (vm_compute; reflexivity).
    rewrite E. apply list_elem_of_singleton. reflexivity.
Qed.

(** C5, amended: every entry added by the candidate-path pass or the
    documentation-directory pass, in any phase, has a string path that
    no denylist entry occurs in, letter case apart; in particular it
    does not contain CHANGELOG.md in any letter case.  The docs phase
    runs these two passes only, so this holds of all it returns. *)
Theorem denylist_enforced (fetch : jstring -> fetched)
    (base64ToString : value -> option jstring) (url : jstring) (limit : option Q) :
  let passed (f : file) :=
    exists p, path f = VStr p /\ shouldSkipFile p = false
              /\ includes (lit "CHANGELOG.MD") (toUpperCase p) = false in
  (forall kind branch,
      Forall passed (afterDocs fetch url kind (default (integer 50) limit) branch))
  /\ Forall passed
       (files (fetchAllDocs fetch base64ToString
                 {| repoUrl := url; searchType := Some Docs; maxFiles := limit |})).
Proof.
  cbv zeta.
  assert (Hstage : forall kind branch,
             Forall (fun f => exists p, path f = VStr p /\ shouldSkipFile p = false
                        /\ includes (lit "CHANGELOG.MD") (toUpperCase p) = false)
                    (afterDocs fetch url kind (default (integer 50) limit) branch)).
  { intros kind branch.
    eapply Forall_impl; [apply afterDocs_guarded|].
    intros f [(p & Hp & Hs) _]. exists p. by auto using allowed_changelog. }
  split; [exact Hstage|].
  unfold fetchAllDocs, run. cbn [repoUrl searchType maxFiles default].
  destruct (probeBranches _ _ _ _) as [branch|message]; cbn [files]; [|constructor].
  rewrite gather_docs. apply Hstage.
Qed.

(** C2, the code at the failing input: the repository holds [big.d.ts],
    200001 characters long, at its root; in the types phase the
    type-definition pass returns it whole and not marked truncated. *)
Theorem big_type_definition_kept_whole :
  exists f, files (fetchAllDocs bigTypesHost noBase64 (request Types None)) = [f]
            /\ path f = VStr (lit "big.d.ts") /\ content f = bigTypes
            /\ (200000 < Z.of_nat (length (content f)))%Z /\ truncated f = false.
Proof.
  assert (H : keptWhole (files (fetchAllDocs bigTypesHost noBase64 (request Types None)))
              = true) by (vm_compute; reflexivity).
  destruct (files _) as [|f [|]]; try discriminate H.
  exists f. split; [done|]. unfold keptWhole in H.
  apply andb_prop in H as [H Ht]. apply andb_prop in H as [H Hl].
  apply andb_prop in H as [Hp Hc].
  apply bool_decide_eq_true in Hc. apply Z.ltb_lt in Hl. apply negb_true_iff in Ht.
  destruct (path f); try discriminate Hp. unfold isStr, eqs in Hp.
  apply bool_decide_eq_true in Hp. by subst.
Qed.

(** The sibling passes do handle sizes: every entry of the candidate-path
    and documentation-directory passes is marked truncated and holds at
    most 200000 characters, or is unmarked and holds at most 200000
    characters unless it is the root manifest. *)
Lemma guarded_passes_truncate (fetch : jstring -> fetched) (url : jstring)
    (kind : searchKind) (limit : Q) (branch : jstring) :
  Forall sized (afterDocs fetch url kind limit branch).
Proof. eapply Forall_impl; [apply afterDocs_guarded|]. by intros f [_ Hs]. Qed.

(** *** Where the entries of the size-handling passes come from *)

Lemma startsWith_app (p s t : jstring) :
  startsWith p s = true -> startsWith p (s ++ t) = true.
Proof.
  revert s. induction p as [|x p IH]; intros s; [done|].
  destruct s as [|y s]; simpl; [done|].
  intros H. apply andb_prop in H as [-> H]. by rewrite IH.
Qed.

Lemma endsWith_app (p s t : jstring) :
  endsWith p s = true -> endsWith p (t ++ s) = true.
Proof. unfold endsWith. rewrite rev_app_distr. apply startsWith_app. Qed.

Section Origins.
Variable fetch : jstring -> fetched.
Variable url : jstring.
Variable kind : searchKind.
Variable limit : Q.
Variable ok : file -> Prop.

Lemma fetchCandidate_entry (branch path : jstring) (files : list file) :
  fetchCandidate fetch url branch path files = files
  \/ exists content,
       fetchCandidate fetch url branch path files = files ++ [candidateEntry path content].
Proof.
  unfold fetchCandidate, candidateEntry.
  destruct (fetch _) as [|[] status body]; [by left| |by left].
  destruct (text body) as [content|]; [|by left].
  right. exists content. cbv zeta.
  destruct (50000 <? _)%Z; [destruct (eqs _ _)|]; done.
Qed.

Lemma fetchDocFile_entry (f : value) (filePath name : jstring) (files : list file) :
  fetchDocFile fetch f filePath name files = files
  \/ exists content,
       fetchDocFile fetch f filePath name files = files ++ [docEntry filePath name content].
Proof.
  unfold fetchDocFile, docEntry.
  destruct (fetchValue fetch _) as [|[] status body]; [by left| |by left].
  destruct (text body) as [content|]; [|by left].
  right. exists content. cbv zeta. destruct (50000 <? _)%Z; done.
Qed.

Lemma candidateLoop_ok (branch : jstring) (paths : list jstring) (files : list file) :
  (forall path content, In path paths -> ok (candidateEntry path content)) ->
  Forall ok files -> Forall ok (candidateLoop fetch url limit branch paths files).
Proof.
  revert files. induction paths as [|path more IH]; intros files Hp Hall; simpl; [done|].
  destruct (full limit files); [done|].
  assert (Hmore : forall p c, In p more -> ok (candidateEntry p c))
    by (intros p c Hin; apply Hp; by right).
  destruct (shouldSkipFile path); [by apply IH|].
  apply IH; [done|].
  destruct (fetchCandidate_entry branch path files) as [->|(content & ->)]; [done|].
  apply Forall_app. split; [done|]. constructor; [|constructor]. apply Hp. by left.
Qed.

Hypothesis ok_doc : forall dir name content,
  In dir docDirs ->
  endsWith (lit ".md") name || endsWith (lit ".rst") name = true ->
  ok (docEntry (dir ++ lit "/" ++ name) name content).

Lemma docsEntries_ok (dir : jstring) (listing : list value) (files : list file) :
  In dir docDirs ->
  Forall ok files -> Forall ok (fst (docsEntries fetch limit dir listing files)).
Proof.
  intros Hdir. revert files. induction listing as [|f more IH]; intros files Hall;
    simpl; [done|].
  destruct (full limit files); [done|].
  destruct (getProp f (lit "type")) as [ty|]; [|done].
  destruct (isStr (lit "file") ty); [|by apply IH].
  destruct (getProp f (lit "name") ≫= asString) as [name|]; [|done].
  destruct (endsWith (lit ".md") name || endsWith (lit ".rst") name) eqn:Hext;
    [|by apply IH].
  destruct (shouldSkipFile _); [by apply IH|].
  apply IH.
  match goal with |- context [fetchDocFile fetch f ?fp name files] =>
    destruct (fetchDocFile_entry f fp name files) as [->|(content & ->)] end; [done|].
  apply Forall_app. split; [done|]. constructor; [|constructor].
  by apply (ok_doc dir name content).
Qed.

Lemma docsDirs_ok (dirs : list jstring) (files : list file) :
  (forall dir, In dir dirs -> In dir docDirs) ->
  Forall ok files -> Forall ok (fst (docsDirs fetch url limit dirs files)).
Proof.
  revert files. induction dirs as [|dir more IH]; intros files Hsub Hall; simpl; [done|].
  assert (Hmore : forall d, In d more -> In d docDirs) by (intros d Hd; apply Hsub; by right).
  destruct (full limit files); [done|].
  destruct (fetch _) as [|[] status body]; [done| |by apply IH].
  destruct (json body ≫= iterate) as [listing|]; [|done].
  pose proof (docsEntries_ok dir listing files (Hsub dir (or_introl eq_refl)) Hall) as Hd.
  destruct (docsEntries fetch limit dir listing files) as [files' []];
    [by apply IH|done].
Qed.

Lemma afterDocs_ok (branch : jstring) :
  (forall path content, In path (docPaths kind) -> ok (candidateEntry path content)) ->
  Forall ok (afterDocs fetch url kind limit branch).
Proof.
  intros Hp. unfold afterDocs.
  pose proof (candidateLoop_ok branch (docPaths kind) [] Hp (List.Forall_nil _)) as H1.
  destruct (_ && _); [|done]. unfold discoverDocs.
  destruct (fetch _) as [|[] status body]; [done| |by apply docsDirs_ok].
  destruct (_ ≫= _); [by apply docsDirs_ok|done].
Qed.
End Origins.

Lemma candidateEntry_wellCut (path content : jstring) :
  path <> lit "package.json" -> wellCut (candidateEntry path content).
Proof.
  intros Hp. unfold candidateEntry, wellCut. cbv zeta. exists content.
  destruct (50000 <? _)%Z eqn:Hbig.
  - unfold eqs. rewrite bool_decide_eq_false_2 by done. simpl.
    apply tokens_over in Hbig. done.
  - simpl. apply not_true_iff_false in Hbig. rewrite tokens_over in Hbig.
    repeat split; try done. lia.
Qed.

Lemma docEntry_wellCut (filePath name content : jstring) :
  wellCut (docEntry filePath name content).
Proof.
  unfold docEntry, wellCut. cbv zeta. exists content.
  destruct (50000 <? _)%Z eqn:Hbig; simpl.
  - apply tokens_over in Hbig. done.
  - apply not_true_iff_false in Hbig. rewrite tokens_over in Hbig.
    repeat split; try done. lia.
Qed.

(** X7: in the docs phase every returned entry went through the size
    rule: its token estimate is that of the text fetched; an entry
    marked truncated holds the first 200000 characters of a text that is
    longer, and records the length of that text; an entry that is not
    marked holds the whole text, of at most 200000 characters. *)
Theorem docs_phase_sizes (fetch : jstring -> fetched)
    (base64ToString : value -> option jstring) (url : jstring) (limit : option Q) :
  Forall wellCut
    (files (fetchAllDocs fetch base64ToString
              {| repoUrl := url; searchType := Some Docs; maxFiles := limit |})).
Proof.
  unfold fetchAllDocs, run. cbn [repoUrl searchType maxFiles default].
  destruct (probeBranches _ _ _ _) as [branch|message]; cbn [files]; [|constructor].
  rewrite gather_docs. apply afterDocs_ok.
  - intros dir name content _ _. apply docEntry_wellCut.
  - intros path content Hin. apply candidateEntry_wellCut.
    intros ->. revert Hin. vm_compute. intuition discriminate.
Qed.

(** X8: in the docs phase every returned entry has a string path that
    ends in ".md" or ".rst": a candidate path of the documentation
    list, or a file of one of the four documentation directories. *)
Theorem docs_phase_paths (fetch : jstring -> fetched)
    (base64ToString : value -> option jstring) (url : jstring) (limit : option Q) :
  Forall docPath
    (files (fetchAllDocs fetch base64ToString
              {| repoUrl := url; searchType := Some Docs; maxFiles := limit |})).
Proof.
  unfold fetchAllDocs, run. cbn [repoUrl searchType maxFiles default].
  destruct (probeBranches _ _ _ _) as [branch|message]; cbn [files]; [|constructor].
  rewrite gather_docs. apply afterDocs_ok.
  - intros dir name content _ Hext. unfold docEntry. cbv zeta.
    exists (dir ++ lit "/" ++ name). split; [by destruct (50000 <? _)%Z|].
    apply orb_true_iff in Hext as [H|H].
    + rewrite app_assoc, (endsWith_app _ _ _ H). done.
    + rewrite app_assoc, (endsWith_app _ _ _ H). apply orb_true_r.
  - intros path content Hin. exists path. split.
    + unfold candidateEntry. cbv zeta.
      destruct (50000 <? _)%Z; [destruct (eqs _ _)|]; done.
    + revert Hin. cbn [docPaths isDocs isTypes isSource app]. rewrite app_nil_r.
      unfold docPathsDocs. cbn [map In].
      intros H. repeat (destruct H as [<-|H]; [reflexivity|]). destruct H.
Qed.

(** X9: with [maxFiles] zero or negative nothing is returned, and the
    call reports a failure with an error message, whatever the
    repository holds. *)
Theorem no_budget_no_files (fetch : jstring -> fetched)
    (base64ToString : value -> option jstring) (i : input) (n : Q) :
  maxFiles i = Some n -> QArith_base.Qle n (integer 0) ->
  let out := fetchAllDocs fetch base64ToString i in
  files out = [] /\ success out = false /\ is_Some (error out).
Proof.
  intros Hn Hle. cbv zeta.
  pose proof (files_within_budget fetch base64ToString i) as Hb.
  rewrite Hn in Hb. cbn [default] in Hb.
  apply Qround.Qceiling_resp_le in Hle. rewrite Qround.Qceiling_Z in Hle.
  assert (Hnil : files (fetchAllDocs fetch base64ToString i) = []).
  { destruct (files _); [done|]. simpl in Hb. lia. }
  split; [done|]. revert Hnil. unfold fetchAllDocs, run.
  destruct (probeBranches _ _ _ _) as [branch|message]; cbn [files success error].
  - intros ->. done.
  - done.
Qed.

Lemma no_budget_witness :
  let out := fetchAllDocs twoDocsHost noBase64 (request All (Some (integer 0))) in
  files out = [] /\ success out = false /\ is_Some (error out).
Proof.
  apply (no_budget_no_files twoDocsHost noBase64 (request All (Some (integer 0))) (integer 0));
    [reflexivity | discriminate].
Defined.

(** X10: the token estimate of a text is its length divided by four,
    rounded up: the least [t] with [4 t] at least the length.  Hence the
    estimate exceeds 50000 exactly when the text is longer than 200000
    characters, the length texts are cut to. *)
Theorem estimateTokens_ceiling (text : jstring) :
  (4 * (estimateTokens text - 1) < Z.of_nat (length text) <= 4 * estimateTokens text)%Z
  /\ ((50000 < estimateTokens text)%Z <-> (200000 < Z.of_nat (length text))%Z).
Proof.
  unfold estimateTokens. split; [|split; intros H]; Z.div_mod_to_equations; lia.
Qed.

End FetchFacts.

(** ** scrape-documentation *)
Module ScrapeFacts.
Import JS JSFacts Net ScrapeDocumentation.

(** The loop with its [seen] set computes [keepNew]. *)
Lemma scrape_dedupLoop (xs : list api) (seen : gset jstring) (uniqueApis : list api) :
  dedupLoop xs seen uniqueApis = uniqueApis ++ keepNew key xs seen.
Proof.
  revert seen uniqueApis. induction xs as [|a rest IH]; intros seen uniq; simpl.
  - by rewrite app_nil_r.
  - case_decide; [apply IH|]. rewrite IH, <- app_assoc. done.
Qed.

Section Crawl.
Variable fetch : jstring -> fetched.
Variable scanApis : option sitePattern -> jstring -> jstring -> list api.
Variable scanLinks : option sitePattern -> jstring -> jstring -> option (list jstring).
Variable profile : option sitePattern.
Variable maxPages : Q.

Lemma below_ceiling (n : Z) : below n maxPages = (n <? ceiling maxPages)%Z.
Proof. rewrite below_atLeast, atLeast_ceiling. symmetry. apply Z.ltb_antisym. Qed.

(** The crawl never counts past the limit rounded up. *)
Lemma crawl_scraped (fuel : nat) (st : state) :
  (scraped st <= scraped (crawl fetch scanApis scanLinks profile maxPages fuel st)
   <= Z.max (scraped st) (ceiling maxPages))%Z.
Proof.
  revert st. induction fuel as [|fuel IH]; intros st; cbn [crawl]; [lia|].
  rewrite below_ceiling. destruct (Z.ltb_spec (scraped st) (ceiling maxPages)); [|lia].
  destruct (nextPage fetch _ _) as [[[[currentUrl html]|] queue] visited];
    cbn [scraped]; [|lia].
  match goal with |- context [crawl _ _ _ _ _ fuel ?s] => specialize (IH s) end.
  cbn [scraped] in IH. lia.
Qed.

(** The fuel is enough: once it covers the pages the limit still allows,
    more of it changes nothing, so the loop has ended. *)
Lemma crawl_fuel (fuel : nat) (st : state) :
  (ceiling maxPages - scraped st <= Z.of_nat fuel)%Z ->
  crawl fetch scanApis scanLinks profile maxPages (S fuel) st
  = crawl fetch scanApis scanLinks profile maxPages fuel st.
Proof.
  revert st. induction fuel as [|fuel IH]; intros st Hfuel.
  - cbn [crawl]. rewrite below_ceiling.
    destruct (Z.ltb_spec (scraped st) (ceiling maxPages)); [lia|done].
  - change (crawl fetch scanApis scanLinks profile maxPages (S (S fuel)) st)
      with (if below (scraped st) maxPages then
              match nextPage fetch (urlsToVisit st) (visitedUrls st) with
              | (None, queue, visited) =>
                  {| found := found st; visitedUrls := visited; urlsToVisit := queue;
                     scraped := scraped st |}
              | (Some (currentUrl, html), queue, visited) =>
                  crawl fetch scanApis scanLinks profile maxPages (S fuel)
                    {| found := found st ++ scanApis profile html currentUrl;
                       visitedUrls := visited;
                       urlsToVisit :=
                         if below (scraped st + 1) maxPages then
                           match scanLinks profile html currentUrl with
                           | Some links => enqueue visited queue links
                           | None => queue
                           end
                         else queue;
                       scraped := (scraped st + 1)%Z |}
              end
            else st).
    cbn [crawl]. destruct (below (scraped st) maxPages); [|done].
    destruct (nextPage fetch _ _) as [[[[currentUrl html]|] queue] visited]; [|done].
    apply IH. cbn [scraped]. lia.
Qed.

Lemma crawl_ended (fuel extra : nat) (st : state) :
  (ceiling maxPages - scraped st <= Z.of_nat fuel)%Z ->
  crawl fetch scanApis scanLinks profile maxPages (fuel + extra) st
  = crawl fetch scanApis scanLinks profile maxPages fuel st.
Proof.
  intros Hfuel. induction extra as [|extra IH]; [by rewrite Nat.add_0_r|].
  rewrite Nat.add_succ_r, crawl_fuel; [done|lia].
Qed.
End Crawl.

(** C8: a call returns [success = true] exactly when the list of records
    it returns, deduplicated on the name-and-signature key, is not
    empty, that is, when the crawl found a record; when the list is
    empty it returns [success = false] with the message "No APIs found";
    no two returned records share a key. *)
Theorem success_iff_records (fetch : jstring -> fetched)
    (scanApis : option sitePattern -> jstring -> jstring -> list api)
    (scanLinks : option sitePattern -> jstring -> jstring -> option (list jstring))
    (i : input) :
  let out := scrapeDocumentation fetch scanApis scanLinks i in
  let limit := default (integer 10) (maxPages i) in
  let crawled :=
    crawl fetch scanApis scanLinks (profileOf (url i)) limit (Z.to_nat (ceiling limit))
          {| found := []; visitedUrls := ∅; urlsToVisit := [url i]; scraped := 0 |} in
  (success out = true <-> apis out <> [])
  /\ (apis out <> [] <-> found crawled <> [])
  /\ (apis out = [] <-> success out = false /\ error out = Some (lit "No APIs found"))
  /\ NoDup (key <$> apis out).
Proof.
  cbv zeta. unfold scrapeDocumentation. cbn [success apis error].
  rewrite scrape_dedupLoop. cbn [app].
  split; [|split; [|split]].
  - by rewrite bool_decide_eq_true.
  - by rewrite keepNew_nil.
  - rewrite bool_decide_eq_false. case_bool_decide as Hnil.
    + split; [|done]. intros _. split; [|done]. by intros [].
    + split; [done|]. by intros [_ [=]].
  - apply keepNew_NoDup.
Qed.

(** X21: the number of pages a call reports is never negative and never
    above [maxPages] (10 when absent) rounded up to an integer, whatever
    the site serves and whatever links its pages hold: never above
    [maxPages] itself when that is an integer that is not negative, and
    zero when [maxPages] is not positive.  For a fractional [maxPages]
    the loop test [pagesScraped < maxPages] lets one more page in. *)
Theorem pages_within_maxPages (fetch : jstring -> fetched)
    (scanApis : option sitePattern -> jstring -> jstring -> list api)
    (scanLinks : option sitePattern -> jstring -> jstring -> option (list jstring))
    (i : input) :
  let limit := default (integer 10) (maxPages i) in
  let read := pagesScraped (scrapeDocumentation fetch scanApis scanLinks i) in
  (0 <= read <= Z.max 0 (ceiling limit))%Z
  /\ (forall n : Z, (0 <= n)%Z -> QArith_base.Qeq limit (integer n) -> (read <= n)%Z).
Proof.
  cbv zeta. unfold scrapeDocumentation. cbn [pagesScraped].
  match goal with |- context [crawl _ _ _ ?p ?m ?b ?s] =>
    pose proof (crawl_scraped fetch scanApis scanLinks p m b s) as H end.
  cbn [scraped] in H. split; [lia|]. intros n Hn Hlimit.
  destruct H as [_ H]. revert H. generalize (scraped (crawl fetch scanApis scanLinks
    (profileOf (url i)) (default (integer 10) (maxPages i))
    (Z.to_nat (ceiling (default (integer 10) (maxPages i))))
    {| found := []; visitedUrls := ∅; urlsToVisit := [url i]; scraped := 0 |})).
  intros read. rewrite (Qround.Qceiling_comp _ _ Hlimit), Qround.Qceiling_Z. lia.
Qed.

(** With [maxPages = 1/2] the start page is read: one page, more than
    [maxPages]. *)
Example half_page_limit_reads_one :
  pagesScraped
    (scrapeDocumentation sampleSite sampleScan noLinks
       {| url := lit "https://lodash.com/docs"; maxPages := Some (QArith_base.Qmake 1 2);
          language := None |}) = 1%Z.
Proof. vm_compute. reflexivity. Qed.

(** A page with the same heading twice: one record, success. *)
Example sample_scrape :
  let out := scrapeDocumentation sampleSite sampleScan noLinks
               {| url := lit "https://lodash.com/docs"; maxPages := None; language := None |} in
  length (apis out) = 1%nat /\ pagesScraped out = 1%Z /\ success out = true
  /\ error out = None.
Proof. vm_compute. done. Qed.

(** A site that answers nothing: no record, failure with its message. *)
Example empty_scrape :
  scrapeDocumentation sampleSite sampleScan noLinks
    {| url := lit "https://example.org/"; maxPages := None; language := None |}
  = {| apis := []; pagesScraped := 0; success := false;
       error := Some (lit "No APIs found") |}.
Proof. vm_compute. reflexivity. Qed.

End ScrapeFacts.

(** ** analyze-repository *)
Module AnalyzeFacts.
Import JS JSFacts Net AnalyzeRepository.

(** C7, the code at the failing input: the host serves the repository
    metadata and rejects the request for the language histogram; the run
    ends in the outer [catch], with [success = false], the message of the
    rejection, no language, no documentation source and the standard
    structure. *)
Theorem language_fetch_failure_aborts (shares : value -> option (list language)) :
  let out := analyzeRepository metadataOnly shares (lit "https://github.com/o/r") in
  out = failure (Message (lit "fetch failed"))
  /\ success out = false /\ languages out = [] /\ documentationSources out = []
  /\ structure out = standardStructure.
Proof. cbv zeta. repeat split. Qed.

(** The sibling request, for contrast: with the histogram served and the
    readme request rejected instead, the run succeeds and only the readme
    facet is empty. *)
Example readme_failure_degrades :
  let out := analyzeRepository readmeRejected allOrNothing (lit "https://github.com/o/r") in
  success out = true /\ error out = None
  /\ primaryLanguage out = lit "typescript" /\ documentationSources out = [].
Proof. vm_compute. done. Qed.

(** Past the language histogram nothing aborts the run: whatever the
    readme, contents and packages requests answer. *)
Lemma later_facets_never_abort (fetch : jstring -> fetched)
    (shares : value -> option (list language)) (repoUrl : jstring)
    (status status' : N) (ok' : bool) (body body' : option jstring)
    (repoData : value) (found : list language) (homepage : jstring) :
  fetch (api repoUrl) = Response true status body ->
  json body = Some repoData ->
  fetch (api repoUrl ++ lit "/languages") = Response ok' status' body' ->
  json body' ≫= shares = Some found ->
  getProp repoData (lit "homepage") = Some (VStr homepage) ->
  let out := analyzeRepository fetch shares repoUrl in
  success out = true /\ languages out = found.
Proof.
  intros Hmeta Hdata Hlang Hshares Hhome. cbv zeta. unfold analyzeRepository.
  rewrite Hmeta, Hdata, Hlang, Hshares, Hhome. cbv zeta.
  destruct (truthy (VStr homepage)); cbn [success languages];
    destruct (contentsFacet _ _ _ _); done.
Qed.

(** *** Sorting by priority *)

Lemma insertByPriority_Forall (P : source -> Prop) (x : source) (l : list source) :
  P x -> Forall P l -> Forall P (insertByPriority x l).
Proof.
  intros Hx. induction 1 as [|y l Hy Hl IH]; simpl; [by repeat constructor|].
  destruct (_ <=? _)%Z; repeat constructor; done.
Qed.

Lemma sortByPriority_Forall (P : source -> Prop) (l : list source) :
  Forall P l -> Forall P (sortByPriority l).
Proof.
  unfold sortByPriority. induction 1 as [|x l Hx Hl IH]; simpl; [constructor|].
  by apply insertByPriority_Forall.
Qed.

Lemma insertByPriority_sorted (x : source) (l : list source) :
  StronglySorted (fun a b => (priority a <= priority b)%Z) l ->
  StronglySorted (fun a b => (priority a <= priority b)%Z) (insertByPriority x l).
Proof.
  induction 1 as [|y l Hs IH Hy]; simpl; [by repeat constructor|].
  destruct (Z.leb_spec (priority x) (priority y)).
  - constructor; [by constructor|]. constructor; [done|].
    eapply Forall_impl; [exact Hy|]. simpl. intros z Hz. lia.
  - constructor; [done|]. apply insertByPriority_Forall; [lia|done].
Qed.

Lemma sortByPriority_sorted (l : list source) :
  StronglySorted (fun a b => (priority a <= priority b)%Z) (sortByPriority l).
Proof.
  unfold sortByPriority. induction l as [|x l IH]; simpl; [constructor|].
  by apply insertByPriority_sorted.
Qed.

Lemma fold_left_Forall {A B} (P : B -> Prop) (f : list B -> A -> list B)
    (xs : list A) (acc : list B) :
  (forall acc x, Forall P acc -> Forall P (f acc x)) ->
  Forall P acc -> Forall P (fold_left f xs acc).
Proof.
  intros Hf. revert acc. induction xs as [|x xs IH]; intros acc Hacc; simpl; [done|].
  apply IH. by apply Hf.
Qed.

Section Priorities.
Variable fetch : jstring -> fetched.
Variable repoUrl : jstring.

Lemma push_ranked (sources : list source) (s : source) :
  Forall ranked sources -> ranked s -> Forall ranked (sources ++ [s]).
Proof. intros Hs H. apply Forall_app. split; [done|]. constructor; [done|constructor]. Qed.

Lemma readmeSources_ranked (primaryLanguage : jstring) (sources : list source) :
  Forall ranked sources ->
  Forall ranked (readmeSources fetch repoUrl primaryLanguage sources).
Proof.
  intros Hall. unfold readmeSources.
  destruct (fetch _) as [|[] status body]; [done| |done].
  destruct (text body) as [readmeContent|]; [|done].
  cbv zeta.
  match goal with |- context [fold_left ?f websitePatterns ?acc] =>
    assert (H1 : Forall ranked (fold_left f websitePatterns acc)) end.
  { apply fold_left_Forall.
    - intros acc pattern Hacc. destruct (execFirst _ _ pattern _); [|done].
      destruct (execFirst _ _ urlRegex _); [|done].
      apply push_ranked; [done|]. unfold ranked. simpl. lia.
    - apply push_ranked; [done|]. unfold ranked. simpl. lia. }
  destruct (sitesFor primaryLanguage) as [langDocSites|]; [|done].
  apply fold_left_Forall; [|done].
  intros acc siteName Hacc. destruct (includes _ _); [|done].
  destruct (execFirst _ _ _ _); [|done].
  apply push_ranked; [done|]. unfold ranked. simpl. lia.
Qed.

Lemma findManager_ranked (table : list (string * (string * string)))
    (fileNames : list value) (packageName : value) (pm : packageManager) (s : source) :
  findManager table fileNames packageName = Some (Some (pm, Some s)) -> ranked s.
Proof.
  induction table as [|[file [name reg]] more IH]; simpl; [done|].
  destruct (someM _ _) as [[]|]; simpl; [|done|done].
  destruct (toStr packageName) as [text|]; simpl; [|done].
  intros [= _ <-]. unfold ranked. simpl. lia.
Qed.

Lemma contentsFacet_ranked (packageName : value) (sources : list source) :
  Forall ranked sources ->
  Forall ranked (fst (contentsFacet fetch repoUrl packageName sources)).
Proof.
  intros Hall. unfold contentsFacet.
  destruct (fetch _) as [|[] status body]; [done| |done].
  destruct (json body) as [[| | | | |contents|]|]; try done.
  destruct (mapM _ contents) as [fileNames|]; [|done].
  destruct (findManager _ _ _) as [found|] eqn:Hf; [|done].
  destruct found as [[pm [s|]]|]; [|done|]; cbv zeta.
  1: pose proof (findManager_ranked _ _ _ _ _ Hf) as Hs.
  all: repeat match goal with
              | |- context [match someM ?f ?l with _ => _ end] =>
                  destruct (someM f l) as [[]|]
              end; simpl; rewrite ?app_nil_r.
  all: repeat (apply push_ranked); try done; unfold ranked; simpl; lia.
Qed.
End Priorities.

(** X11: the documentation sources of a result are in ascending order of
    priority, and every priority is between 1 and 4. *)
Theorem sources_in_priority_order (fetch : jstring -> fetched)
    (shares : value -> option (list language)) (repoUrl : jstring) :
  let out := analyzeRepository fetch shares repoUrl in
  StronglySorted (fun a b => (priority a <= priority b)%Z) (documentationSources out)
  /\ Forall ranked (documentationSources out).
Proof.
  cbv zeta. unfold analyzeRepository.
  repeat match goal with
         | |- context [match ?x with _ => _ end] =>
             match x with
             | context [contentsFacet] => fail 1
             | context [readmeSources] => fail 1
             | _ => destruct x eqn:?
             end
         end;
    cbn [failure documentationSources]; try (split; constructor).
  all: match goal with
       | |- context [contentsFacet ?f ?u ?n ?s] =>
           pose proof (contentsFacet_ranked f u n s) as Hc;
           destruct (contentsFacet f u n s) as [sources pm]
       end;
       cbn [documentationSources fst] in *;
       (split; [apply sortByPriority_sorted|apply sortByPriority_Forall, Hc,
                                            readmeSources_ranked]).
  all: repeat (apply push_ranked || constructor); unfold ranked; simpl; lia.
Qed.

(** X12: once the repository metadata (with a homepage that is a string
    or null) and the language histogram have been read, the run
    succeeds whatever the readme, root-contents and packages requests
    answer, rejections included: it returns [success = true], no error,
    and the languages computed from the histogram. *)
Theorem facets_after_languages_degrade (fetch : jstring -> fetched)
    (shares : value -> option (list language)) (repoUrl : jstring)
    (status status' : N) (ok' : bool) (body body' : option jstring)
    (repoData homepage : value) (found : list language) :
  fetch (api repoUrl) = Response true status body ->
  json body = Some repoData ->
  getProp repoData (lit "homepage") = Some homepage ->
  homepage = VNull \/ (exists h, homepage = VStr h) ->
  fetch (api repoUrl ++ lit "/languages") = Response ok' status' body' ->
  json body' ≫= shares = Some found ->
  let out := analyzeRepository fetch shares repoUrl in
  success out = true /\ error out = None /\ languages out = found.
Proof.
  intros Hmeta Hdata Hhome Hkind Hlang Hshares. cbv zeta. unfold analyzeRepository.
  rewrite Hmeta, Hdata, Hlang, Hshares, Hhome. cbv zeta.
  destruct Hkind as [->|[h ->]].
  - cbn [truthy]. destruct (contentsFacet _ _ _ _); done.
  - destruct (truthy (VStr h)); destruct (contentsFacet _ _ _ _); done.
Qed.

Lemma facets_after_languages_witness :
  let out := analyzeRepository laterDown allOrNothing (lit "https://github.com/o/r") in
  success out = true /\ error out = None
  /\ languages out = [{| name := lit "TypeScript"; percentage := 100 |}].
Proof.
  apply (facets_after_languages_degrade laterDown allOrNothing (lit "https://github.com/o/r")
           200 200 true
           (Some (qlit "{'name':'r','homepage':'https://r.dev','has_wiki':true}"))
           (Some (qlit "{'TypeScript':10}"))
           (VObj [(lit "name", VStr (lit "r")); (lit "homepage", VStr (lit "https://r.dev"));
                  (lit "has_wiki", VBool true)])
           (VStr (lit "https://r.dev"))).
  - reflexivity.
  - vm_compute. reflexivity.
  - vm_compute. reflexivity.
  - right. by eexists.
  - reflexivity.
  - vm_compute. reflexivity.
Defined.

(** *** The project structure *)

(** X20: [determineProjectStructure] lists packages only for a
    repository it types as a monorepo: for every host and repository,
    the structure it returns has no package list or has the type
    monorepo. *)
Theorem packages_only_for_monorepo (fetch : jstring -> fetched) (repoUrl : jstring) :
  let s := determineProjectStructure fetch repoUrl in
  packages s = None \/ layout s = Monorepo.
Proof.
  cbv zeta. unfold determineProjectStructure.
  destruct (fetch (api repoUrl ++ lit "/contents")) as [message|[] status body];
    try (by left).
  destruct (json body) as [[]|]; try (by left).
  destruct (mapM lowerName _) as [fileNames|]; [|by left].
  destruct (dirsOf _ ≫= mapM lowerName) as [dirNames|]; [|by left].
  cbn [packages layout].
  match goal with |- context [if ?b && _ then _ else None] => destruct b end;
    [by right|by left].
Qed.

End AnalyzeFacts.

(** ** extract-code-patterns *)
Module CodePatternFacts.
Import JS JSFacts ExtractCodePatterns.

(** *** No repeats *)

Section PushNew.
Context {A K : Type} `{EqDecision K} (key : A -> K).

(** An element is appended unless its key is already there: keys stay
    distinct. *)
Lemma pushNew_NoDup (acc : list A) (x : A) :
  NoDup (key <$> acc) ->
  NoDup (key <$> (if existsb (fun y => bool_decide (key y = key x)) acc
                  then acc else acc ++ [x])).
Proof.
  intros Hnd. destruct (existsb _ acc) eqn:He; [done|].
  rewrite fmap_app. apply NoDup_app. split; [done|]. split; [|apply NoDup_singleton].
  intros k Hk Hx. apply list_elem_of_singleton in Hx. subst k.
  apply list_elem_of_fmap in Hk as (y & Hy & Hin).
  assert (existsb (fun y => bool_decide (key y = key x)) acc = true); [|congruence].
  apply existsb_exists. exists y. split; [by apply list_elem_of_In|].
  by apply bool_decide_eq_true.
Qed.
End PushNew.

Lemma fold_left_inv {S A} (P : S -> Prop) (f : S -> A -> S) (xs : list A) (st : S) :
  (forall st x, In x xs -> P st -> P (f st x)) -> P st -> P (fold_left f xs st).
Proof.
  revert st. induction xs as [|x xs IH]; intros st Hf Hst; simpl; [done|].
  apply IH; [intros st' y Hy; apply Hf; by right|]. apply Hf; [by left|done].
Qed.

Lemma addInstantiation_NoDup (acc : list instantiation) (m : rmatch) :
  NoDup (className <$> acc) -> NoDup (className <$> addInstantiation acc m).
Proof. apply (pushNew_NoDup className acc {| className := group m 1 |}). Qed.

Lemma callKey_test (acc : list methodCall) (o n : option jstring) :
  existsb (fun c => bool_decide (objectName c = o) && bool_decide (methodName c = n)) acc
  = existsb (fun y => bool_decide (callKey y = (o, n))) acc.
Proof.
  induction acc as [|c acc IH]; simpl; [done|]. rewrite IH. f_equal.
  unfold callKey. repeat case_bool_decide; simpl; congruence.
Qed.

Lemma addMethodCall_NoDup (acc : list methodCall) (m : rmatch) :
  NoDup (callKey <$> acc) -> NoDup (callKey <$> addMethodCall acc m).
Proof.
  intros Hnd. unfold addMethodCall. cbv zeta. rewrite callKey_test.
  exact (pushNew_NoDup callKey acc
    {| objectName := group m 1; methodName := group m 2;
       methodCallDescription :=
         lit "Calls the " ++ default (lit "undefined") (group m 2)
         ++ lit " method on " ++ default (lit "undefined") (group m 1) |} Hnd).
Qed.

Lemma addConfiguration_NoDup (acc : list configuration) (m : rmatch) :
  NoDup (functionName <$> acc) -> NoDup (functionName <$> addConfiguration acc m).
Proof. apply (pushNew_NoDup functionName acc {| functionName := group m 1 |}). Qed.

(** X13: no class name is reported twice among the instantiations, no
    pair of object and method twice among the method calls, and no
    function name twice among the configurations, across all the code
    blocks of a call. *)
Theorem patterns_without_repeats (codeBlocks : list jstring) (rt : Logger.runtime) :
  let out := fst (extractCodePatterns codeBlocks rt) in
  NoDup (className <$> instantiations out)
  /\ NoDup (callKey <$> methodCalls out)
  /\ NoDup (functionName <$> configurations out).
Proof.
  cbv zeta. unfold extractCodePatterns. cbn [fst]. unfold scanBlocks.
  apply (fold_left_inv
           (fun out => NoDup (className <$> instantiations out)
                       /\ NoDup (callKey <$> methodCalls out)
                       /\ NoDup (functionName <$> configurations out))).
  - intros st block _ (H1 & H2 & H3). unfold scanBlock. cbn.
    split; [|split]; apply fold_left_inv; try done; intros acc m _.
    + apply addInstantiation_NoDup.
    + apply addMethodCall_NoDup.
    + apply addConfiguration_NoDup.
  - repeat split; constructor.
Qed.

(** *** The names are names *)

Lemma accepts_word (x : N) : accepts false word x = isWord x.
Proof.
  change (accepts false word x)
    with ((65 <=? x) && (x <=? 90)
          || ((97 <=? x) && (x <=? 122)
              || ((48 <=? x) && (x <=? 57) || ((x =? 95) || false)))).
  unfold isWord, isUpper, isLower, isDigit.
  destruct (65 <=? x), (x <=? 90), (97 <=? x), (x <=? 122), (48 <=? x), (x <=? 57),
    (x =? 95); reflexivity.
Qed.

Lemma accepts_dotted (x : N) : accepts false dotted x = nameUnit x.
Proof.
  unfold nameUnit. change (accepts false dotted x)
    with (accepts false word x
          || ((((x =? 46) || false) || (accepts false word x || false)) || false)).
  rewrite accepts_word. change (cu ".") with 46.
  destruct (isWord x), (x =? 46); reflexivity.
Qed.

Lemma spans_dotted (t : jstring) :
  spans false dotted t -> t <> [] /\ Forall (fun x => nameUnit x = true) t.
Proof.
  intros (Hall & Hmin & _). split.
  - intros ->. vm_compute in Hmin. lia.
  - eapply Forall_impl; [exact Hall|]. intros x Hx. by rewrite <- accepts_dotted.
Qed.

Lemma spans_word (t : jstring) :
  spans false word t -> t <> [] /\ Forall (fun x => isWord x = true) t.
Proof.
  intros (Hall & Hmin & _). split.
  - intros ->. vm_compute in Hmin. lia.
  - eapply Forall_impl; [exact Hall|]. intros x Hx. by rewrite <- accepts_word.
Qed.

(** The first group of the three patterns is a dotted name; the second
    group of the method-call pattern is a plain one. *)
Lemma instantiation_group (block : jstring) (m : rmatch) :
  In m (execAll false false instantiationRegex block) -> dottedName (group m 1).
Proof.
  intros Hm. apply RegexFacts.execAll_matchAt in Hm as [q Hq].
  destruct (RegexFacts.matchAt_group _ _ _ _ _ 1%nat Hq) as (t & Ht & (r' & Hin & Hs));
    [done|simpl; auto|].
  exists t. split; [done|]. simpl in Hin. destruct Hin as [[= <-]|[]].
  by apply spans_dotted.
Qed.

Lemma methodCall_groups (block : jstring) (m : rmatch) :
  In m (execAll false false methodCallRegex block) ->
  dottedName (group m 1) /\ plainName (group m 2).
Proof.
  intros Hm. apply RegexFacts.execAll_matchAt in Hm as [q Hq]. split.
  - destruct (RegexFacts.matchAt_group _ _ _ _ _ 1%nat Hq) as (t & Ht & (r' & Hin & Hs));
      [done|simpl; auto|].
    exists t. split; [done|]. simpl in Hin. destruct Hin as [[= <-]|[[=]|[]]].
    by apply spans_dotted.
  - destruct (RegexFacts.matchAt_group _ _ _ _ _ 2%nat Hq) as (t & Ht & (r' & Hin & Hs));
      [done|simpl; auto|].
    exists t. split; [done|]. simpl in Hin. destruct Hin as [[=]|[[= <-]|[]]].
    by apply spans_word.
Qed.

Lemma configuration_group (block : jstring) (m : rmatch) :
  In m (execAll false false configRegex block) -> dottedName (group m 1).
Proof.
  intros Hm. apply RegexFacts.execAll_matchAt in Hm as [q Hq].
  destruct (RegexFacts.matchAt_group _ _ _ _ _ 1%nat Hq) as (t & Ht & (r' & Hin & Hs));
    [done|simpl; auto|].
  exists t. split; [done|]. simpl in Hin. destruct Hin as [[= <-]|[]].
  by apply spans_dotted.
Qed.

(** X14: every class name, object name and function name reported is a
    dotted name (set, not empty, made of letters, digits, underscores
    and dots only), and every method name is a plain name (the same
    without dots). *)
Theorem pattern_names_wellformed (codeBlocks : list jstring) (rt : Logger.runtime) :
  let out := fst (extractCodePatterns codeBlocks rt) in
  Forall (fun i => dottedName (className i)) (instantiations out)
  /\ Forall (fun c => dottedName (objectName c) /\ plainName (methodName c))
            (methodCalls out)
  /\ Forall (fun c => dottedName (functionName c)) (configurations out).
Proof.
  cbv zeta. unfold extractCodePatterns. cbn [fst]. unfold scanBlocks.
  apply (fold_left_inv
           (fun out =>
              Forall (fun i => dottedName (className i)) (instantiations out)
              /\ Forall (fun c => dottedName (objectName c) /\ plainName (methodName c))
                        (methodCalls out)
              /\ Forall (fun c => dottedName (functionName c)) (configurations out))).
  - intros st block _ (H1 & H2 & H3). unfold scanBlock.
    cbn [instantiations methodCalls configurations].
    split; [|split]; apply fold_left_inv; try done; intros acc m Hm Hacc.
    + unfold addInstantiation. cbv zeta. destruct (existsb _ acc); [done|].
      apply Forall_app. split; [done|]. constructor; [|constructor].
      by eapply instantiation_group.
    + unfold addMethodCall. cbv zeta. destruct (existsb _ acc); [done|].
      apply Forall_app. split; [done|]. constructor; [|constructor].
      by eapply methodCall_groups.
    + unfold addConfiguration. cbv zeta. destruct (existsb _ acc); [done|].
      apply Forall_app. split; [done|]. constructor; [|constructor].
      by eapply configuration_group.
  - repeat split; constructor.
Qed.

(** *** Later blocks only add *)

Lemma fold_left_prefix {A B} (f : list B -> A -> list B) (xs : list A) (acc : list B) :
  (forall acc x, acc `prefix_of` f acc x) -> acc `prefix_of` fold_left f xs acc.
Proof.
  intros Hf. revert acc. induction xs as [|x xs IH]; intros acc; simpl; [done|].
  etrans; [apply Hf|apply IH].
Qed.

Lemma scanBlock_grows (found : output) (block : jstring) :
  instantiations found `prefix_of` instantiations (scanBlock found block)
  /\ methodCalls found `prefix_of` methodCalls (scanBlock found block)
  /\ configurations found `prefix_of` configurations (scanBlock found block).
Proof.
  unfold scanBlock. cbn. split; [|split]; apply fold_left_prefix; intros acc m.
  - unfold addInstantiation. cbv zeta. destruct (existsb _ acc); [done|].
    by apply prefix_app_r.
  - unfold addMethodCall. cbv zeta. destruct (existsb _ acc); [done|].
    by apply prefix_app_r.
  - unfold addConfiguration. cbv zeta. destruct (existsb _ acc); [done|].
    by apply prefix_app_r.
Qed.

(** X15: what a call reports for some code blocks is kept, in place,
    when more blocks follow: each of the three lists for [blocks] is a
    prefix of the list for [blocks ++ more]. *)
Theorem patterns_accumulate (blocks more : list jstring) (rt rt' : Logger.runtime) :
  let before := fst (extractCodePatterns blocks rt) in
  let after := fst (extractCodePatterns (blocks ++ more) rt') in
  instantiations before `prefix_of` instantiations after
  /\ methodCalls before `prefix_of` methodCalls after
  /\ configurations before `prefix_of` configurations after.
Proof.
  cbv zeta. unfold extractCodePatterns. cbn [fst]. unfold scanBlocks.
  rewrite fold_left_app. generalize (fold_left scanBlock blocks nothing).
  induction more as [|block more IH]; intros found; simpl; [done|].
  destruct (scanBlock_grows found block) as (H1 & H2 & H3).
  destruct (IH (scanBlock found block)) as (I1 & I2 & I3).
  repeat split; etrans; eassumption.
Qed.

End CodePatternFacts.

(** ** The page scanners *)
Module ScrapePageFacts.
Import JS JSFacts Net ScrapeDocumentation ScrapePages.

Lemma forEach_inv {S A} (P : S -> Prop) (body : S -> A -> option S) (xs : list A)
    (st st' : S) :
  (forall st x st', In x xs -> body st x = Some st' -> P st -> P st') ->
  forEach body st xs = Some st' -> P st -> P st'.
Proof.
  revert st. induction xs as [|x xs IH]; intros st Hb; cbn [forEach].
  - by intros [= <-].
  - destruct (body st x) as [st1|] eqn:Hs; cbn [mbind option_bind]; [|done].
    intros Hr Hst. apply (IH st1); [|done|].
    + intros s y s' Hy. apply Hb. by right.
    + eapply Hb; [by left|done|done].
Qed.

Lemma forEach_some {S A} (body : S -> A -> option S) (xs : list A) (st : S) :
  (forall st x, In x xs -> is_Some (body st x)) -> is_Some (forEach body st xs).
Proof.
  revert st. induction xs as [|x xs IH]; intros st Hb; cbn [forEach]; [done|].
  destruct (Hb st x) as [st1 ->]; [by left|]. cbn [mbind option_bind].
  apply IH. intros st' y Hy. apply Hb. by right.
Qed.

(** The selectors of the site table are plain text, dots apart. *)
Lemma selectors_plain : plainSelectors = true.
Proof. vm_compute. reflexivity. Qed.

(** *** The groups the scanners read are set *)

Lemma groupSet_group (r : re) (i : nat) (q : pos) (m : rmatch) :
  sets i r -> matchAt false true r q = Some m -> is_Some (group m i).
Proof.
  intros [Hw Hi] Hm.
  destruct (RegexFacts.matchAt_group _ _ _ _ _ i Hm Hw Hi) as (t & -> & _). done.
Qed.

Definition siteReady (p : sitePattern) : Prop :=
  sets 2 (methodPattern (methodSelector p))
  /\ sets 1 (classPattern (signatureSelector p))
  /\ sets 1 (classPattern (descriptionSelector p)).

Lemma sites_ready : Forall siteReady (map snd SITE_PATTERNS).
Proof.
  cbn [map SITE_PATTERNS snd].
  repeat (apply List.Forall_cons; [split; [|split]; (split; [vm_compute; reflexivity|vm_compute; auto 10])|]).
  apply List.Forall_nil.
Qed.

Lemma profileOf_site (url : jstring) (p : sitePattern) :
  profileOf url = Some p -> In p (map snd SITE_PATTERNS).
Proof.
  unfold profileOf. destruct (List.find _ _) as [entry|] eqn:Hf; [|done].
  intros [= <-]. apply find_some in Hf as [Hin _]. by apply in_map.
Qed.

Lemma firstGroupOr_some (r : re) (context alt : jstring) :
  sets 1 r -> is_Some (firstGroupOr r context alt).
Proof.
  intros Hs. unfold firstGroupOr.
  destruct (execFirst false true r context) as [m|] eqn:Hm; [|done].
  apply RegexFacts.execFirst_matchAt in Hm as [q Hq].
  destruct (groupSet_group _ _ _ _ Hs Hq) as [t ->]. done.
Qed.

Lemma describe_some (r : re) (context : jstring) :
  sets 1 r ->
  exists d, describe r context = Some d /\ (length d <= 200)%nat.
Proof.
  intros Hs. unfold describe.
  destruct (execFirst false true r context) as [m|] eqn:Hm.
  - apply RegexFacts.execFirst_matchAt in Hm as [q Hq].
    destruct (groupSet_group _ _ _ _ Hs Hq) as [t ->]. eexists. split; [done|].
    unfold substring0. rewrite length_take. lia.
  - exists []. split; [done|]. simpl. lia.
Qed.

Lemma orApiMethod_wellFormed (d : jstring) :
  (length d <= 200)%nat ->
  orApiMethod d <> [] /\ (length (orApiMethod d) <= 200)%nat.
Proof.
  intros Hd. unfold orApiMethod, eqs. case_bool_decide; [|done].
  split; [done|]. vm_compute. lia.
Qed.

Lemma skipped_false (methodName : jstring) :
  skipped methodName = false ->
  (2 <= length methodName <= 100)%nat /\ startsLikeName methodName = true.
Proof.
  unfold skipped. intros H.
  apply orb_false_iff in H as [H H3]. apply orb_false_iff in H as [H1 H2].
  apply Nat.ltb_ge in H1. apply Nat.ltb_ge in H2. apply negb_false_iff in H3.
  split; [lia|done].
Qed.

(** A record of the page at [pageUrl] in the category [cat]. *)
Definition fromPage (pageUrl cat : jstring) (a : api) : Prop :=
  wellFormed a /\ ScrapeDocumentation.pageUrl a = pageUrl /\ category a = cat.

Lemma siteRecord_spec (p : sitePattern) (html pageUrl : jstring) (acc : list api)
    (m : rmatch) (q : pos) :
  siteReady p ->
  matchAt false true (methodPattern (methodSelector p)) q = Some m ->
  Forall (fromPage pageUrl (structure p)) acc ->
  exists acc', siteRecord p html pageUrl acc m = Some acc'
               /\ Forall (fromPage pageUrl (structure p)) acc'.
Proof.
  intros (H2 & Hsig & Hdesc) Hm Hacc. unfold siteRecord.
  destruct (groupSet_group _ _ _ _ H2 Hm) as [t ->]. cbn [fmap option_fmap option_map mbind option_bind].
  destruct (skipped (trim t)) eqn:Hskip; [by eexists|]. cbv zeta.
  match goal with |- context [firstGroupOr ?r ?c ?a] =>
    destruct (firstGroupOr_some r c a Hsig) as [sig ->] end.
  cbn [mbind option_bind].
  match goal with |- context [describe ?r ?c] =>
    destruct (describe_some r c Hdesc) as (d & -> & Hd) end.
  cbn [mbind option_bind]. eexists. split; [done|].
  apply Forall_app. split; [done|]. constructor; [|constructor].
  apply skipped_false in Hskip as [Hlen Hstart].
  destruct (orApiMethod_wellFormed d Hd) as [Hne Hle].
  split; [|done]. cbv [wellFormed]. cbn [name description]. done.
Qed.

Lemma genericRecord_spec (selector : re) (html pageUrl : jstring) (acc : list api)
    (m : rmatch) (q : pos) :
  sets 1 (genericPattern selector) ->
  matchAt false true (genericPattern selector) q = Some m ->
  Forall (fromPage pageUrl (lit "generic")) acc ->
  exists acc', genericRecord html pageUrl acc m = Some acc'
               /\ Forall (fromPage pageUrl (lit "generic")) acc'.
Proof.
  intros H1 Hm Hacc. unfold genericRecord.
  destruct (groupSet_group _ _ _ _ H1 Hm) as [t ->]. cbn [fmap option_fmap option_map mbind option_bind].
  destruct (skipped (trim t)) eqn:Hskip; [by eexists|]. cbv zeta.
  match goal with |- context [firstGroupOr ?r ?c ?a] =>
    destruct (firstGroupOr_some r c a ltac:(split; [reflexivity|simpl; auto])) as [sig ->] end.
  cbn [mbind option_bind].
  match goal with |- context [describe ?r ?c] =>
    destruct (describe_some r c ltac:(split; [reflexivity|simpl; auto])) as (d & -> & Hd) end.
  cbn [mbind option_bind]. eexists. split; [done|].
  apply Forall_app. split; [done|]. constructor; [|constructor].
  apply skipped_false in Hskip as [Hlen Hstart].
  destruct (orApiMethod_wellFormed d Hd) as [Hne Hle].
  split; [|done]. cbv [wellFormed]. cbn [name description]. done.
Qed.

(** A loop whose body, on the matches of a pattern, returns and keeps
    [P]. *)
Lemma forEach_matches {S} (P : S -> Prop) (r : re) (body : S -> rmatch -> option S)
    (s : jstring) (st : S) :
  (forall st m q, matchAt false true r q = Some m -> P st ->
     exists st', body st m = Some st' /\ P st') ->
  P st ->
  exists st', forEach body st (execAll false true r s) = Some st' /\ P st'.
Proof.
  intros Hb. assert (Hall : forall m, In m (execAll false true r s) ->
                              exists q, matchAt false true r q = Some m)
    by (intros m; apply RegexFacts.execAll_matchAt).
  revert st Hall. induction (execAll false true r s) as [|m ms IH]; intros st Hall Hst;
    cbn [forEach]; [by eexists|].
  destruct (Hall m) as [q Hq]; [by left|].
  destruct (Hb st m q Hq Hst) as (st1 & -> & H1). cbn [mbind option_bind].
  apply IH; [|done]. intros m' Hm'. apply Hall. by right.
Qed.

Lemma generic_ready : Forall (fun sel => sets 1 (genericPattern sel)) genericSelectors.
Proof.
  unfold genericSelectors.
  repeat (apply List.Forall_cons; [split; [vm_compute; reflexivity|vm_compute; auto 10]|]).
  apply List.Forall_nil.
Qed.

(** The scanner returns, and its records are records of the page. *)
Lemma page_records_scan (url html pageUrl : jstring) :
  exists records,
    extractAPIsFromHTML (profileOf url) html pageUrl = Some records
    /\ Forall (fromPage pageUrl (default (lit "generic") (structure <$> profileOf url)))
              records.
Proof.
  unfold extractAPIsFromHTML.
  destruct (profileOf url) as [p|] eqn:Hp; cbn [default fmap option_fmap option_map].
  - apply profileOf_site in Hp.
    pose proof sites_ready as Hready. rewrite List.Forall_forall in Hready.
    specialize (Hready p Hp).
    apply (forEach_matches (Forall (fromPage pageUrl (structure p)))); [|constructor].
    intros st m q Hm Hst. by eapply siteRecord_spec.
  - pose proof generic_ready as Hready.
    assert (Hgen : forall acc, Forall (fromPage pageUrl (lit "generic")) acc ->
              exists records,
                forEach (fun pageApis selector =>
                           forEach (genericRecord html pageUrl) pageApis
                                   (execAll false true (genericPattern selector) html))
                        acc genericSelectors = Some records
                /\ Forall (fromPage pageUrl (lit "generic")) records).
    { induction Hready as [|sel sels Hsel _ IH]; intros acc Hacc; cbn [forEach];
        [by eexists|].
      destruct (forEach_matches (Forall (fromPage pageUrl (lit "generic")))
                  (genericPattern sel) (genericRecord html pageUrl) html acc)
        as (acc1 & -> & H1); [|done|].
      - intros st m q Hm Hst. by eapply genericRecord_spec.
      - cbn [mbind option_bind]. by apply IH. }
    apply Hgen. constructor.
Qed.

(** X16: the page scanner [extractAPIsFromHTML] returns for every page,
    under every profile of the site table and under the generic
    patterns (it never throws), and each record it returns has a name of
    2 to 100 code units that starts with a letter, an underscore or a
    dollar sign, a description that is not empty and has at most 200
    code units, the URL of the page, and the category of the profile
    ("generic" without one). *)
Theorem page_records_wellformed (url html pageUrl : jstring) :
  exists records,
    extractAPIsFromHTML (profileOf url) html pageUrl = Some records
    /\ Forall (fun a => wellFormed a /\ ScrapeDocumentation.pageUrl a = pageUrl
                        /\ category a = default (lit "generic") (structure <$> profileOf url))
              records.
Proof. apply page_records_scan. Qed.

(** *** The tool with its scanners *)

Lemma Forall_kept {A} (P : A -> Prop) (k l : list A) :
  k `sublist_of` l -> Forall P l -> Forall P k.
Proof.
  induction 1 as [|x k l _ IH|x k l _ IH]; [done| |].
  - intros [Hx Hl]%Forall_cons. constructor; [done|by apply IH].
  - intros [_ Hl]%Forall_cons. by apply IH.
Qed.

Lemma scanApis_fromPage (url html pageUrl : jstring) :
  Forall (fromPage pageUrl (default (lit "generic") (structure <$> profileOf url)))
         (scanApis (profileOf url) html pageUrl).
Proof.
  unfold scanApis.
  destruct (page_records_scan url html pageUrl) as (records & -> & H). done.
Qed.

Lemma crawl_found (fetch : jstring -> fetched) (P : api -> Prop)
    (scanLinks : option sitePattern -> jstring -> jstring -> option (list jstring))
    (url : jstring) (maxPages : Q) (fuel : nat) (st : state) :
  (forall html pageUrl, Forall P (scanApis (profileOf url) html pageUrl)) ->
  Forall P (found st) ->
  Forall P (found (crawl fetch scanApis scanLinks (profileOf url) maxPages fuel st)).
Proof.
  intros Hscan. revert st. induction fuel as [|fuel IH]; intros st Hst; cbn [crawl]; [done|].
  destruct (below _ _); [|done].
  destruct (nextPage fetch _ _) as [[[[currentUrl html]|] queue] visited]; [|done].
  apply IH. cbn [found]. apply Forall_app. split; [done|apply Hscan].
Qed.

(** X17: every record the tool returns, run with its own scanners, has a
    name of 2 to 100 code units that starts with a letter, an underscore
    or a dollar sign, and a description that is not empty and has at most
    200 code units; all records of a run carry one category, that of the
    site profile chosen from the start URL, or "generic" when no site of
    the table occurs in it. *)
Theorem scraped_records_wellformed (parseUrl : jstring -> option urlParts)
    (fetch : jstring -> fetched) (i : input) :
  Forall (fun a => wellFormed a
                   /\ category a = default (lit "generic") (structure <$> profileOf (url i)))
         (apis (scrape parseUrl fetch i)).
Proof.
  unfold scrape, scrapeDocumentation. cbn [apis].
  rewrite ScrapeFacts.scrape_dedupLoop. cbn [app].
  eapply Forall_kept; [apply JSFacts.keepNew_sublist|].
  apply crawl_found; [|constructor].
  intros html pageUrl. eapply Forall_impl; [apply scanApis_fromPage|].
  by intros a (Hw & _ & Hc).
Qed.

(** *** A start page that cannot be read *)

(** X18: when the start URL cannot be read (the request rejects, the
    status is not ok, or the body cannot be read), the tool, whatever its
    page limit and scanners, returns no record, zero pages, [success =
    false] and the message "No APIs found": the network failure itself
    is not reported. *)
Theorem unreachable_start_reports_no_apis (fetch : jstring -> fetched)
    (scan : option sitePattern -> jstring -> jstring -> list api)
    (scanLinks : option sitePattern -> jstring -> jstring -> option (list jstring))
    (i : input) :
  (forall status html, fetch (url i) <> Response true status (Some html)) ->
  scrapeDocumentation fetch scan scanLinks i
  = {| apis := []; pagesScraped := 0; success := false;
       error := Some (lit "No APIs found") |}.
Proof.
  intros Hdown. unfold scrapeDocumentation.
  assert (Hnext : nextPage fetch [url i] ∅ = (None, [], {[url i]} ∪ ∅)).
  { cbn [nextPage]. destruct (decide (url i ∈ (∅ : gset jstring))) as [Hin|_];
      [by apply not_elem_of_empty in Hin|].
    destruct (fetch (url i)) as [message|[] status [html|]] eqn:Hf; try done.
    by destruct (Hdown status html). }
  destruct (Z.to_nat _) as [|fuel]; cbn [crawl found scraped urlsToVisit visitedUrls].
  - done.
  - destruct (below _ _); [|done]. rewrite Hnext. done.
Qed.

Lemma unreachable_start_witness :
  scrapeDocumentation sampleSite sampleScan noLinks
    {| url := lit "https://example.org/"; maxPages := Some (integer 3); language := None |}
  = {| apis := []; pagesScraped := 0; success := false;
       error := Some (lit "No APIs found") |}.
Proof.
  apply unreachable_start_reports_no_apis.
  intros status html. vm_compute. discriminate.
Defined.

(** *** Links *)

Lemma startsWith_prefix (p t : jstring) : startsWith p (p ++ t) = true.
Proof.
  induction p as [|x p IH]; [done|]. simpl. by rewrite N.eqb_refl, IH.
Qed.

Lemma linkPattern_ready : sets 1 linkPattern.
Proof. split; [vm_compute; reflexivity|vm_compute; auto]. Qed.

(** X19: on a page whose URL the platform parses, [extractLinks] returns
    (it does not throw), and every link it returns begins with "http" or
    with the protocol, two slashes and the host of the page. *)
Theorem links_absolute_or_on_host (parseUrl : jstring -> option urlParts)
    (patterns : option sitePattern) (html baseUrl : jstring) (page : urlParts) :
  parseUrl baseUrl = Some page ->
  exists links,
    extractLinks parseUrl patterns html baseUrl = Some links
    /\ Forall (fun link =>
                 startsWith (lit "http") link = true
                 \/ startsWith (protocol page ++ lit "//" ++ host page) link = true)
              links.
Proof.
  intros Hurl. unfold extractLinks.
  apply (forEach_matches
           (Forall (fun link =>
                      startsWith (lit "http") link = true
                      \/ startsWith (protocol page ++ lit "//" ++ host page) link = true)));
    [|constructor].
  intros links m q Hm Hlinks. unfold linkStep.
  destruct (groupSet_group _ _ _ _ linkPattern_ready Hm) as [href ->].
  cbn [mbind option_bind].
  assert (Habs : exists absolute, absoluteUrl parseUrl baseUrl href = Some absolute
            /\ (startsWith (lit "http") absolute = true
                \/ startsWith (protocol page ++ lit "//" ++ host page) absolute = true)).
  { unfold absoluteUrl. rewrite Hurl. cbn [mbind option_bind].
    destruct (startsWith (lit "/") href).
    - eexists. split; [done|]. right.
      rewrite !(app_assoc _ _ href). rewrite <- !app_assoc. rewrite !app_assoc.
      apply startsWith_prefix.
    - destruct (startsWith (lit "http") href) eqn:Hh; cbn [negb].
      + eexists. split; [done|]. by left.
      + eexists. split; [done|]. right.
        rewrite !app_assoc. rewrite <- (app_assoc _ (lit "/") href).
        rewrite <- (app_assoc _ (beforeLastSlash _) _).
        rewrite <- app_assoc. rewrite app_assoc. apply startsWith_prefix. }
  destruct Habs as (absolute & -> & Habs). cbn [mbind option_bind].
  eexists. split; [done|].
  destruct (followed patterns href); [|done].
  apply Forall_app. split; [done|]. by constructor.
Qed.

Lemma links_witness :
  let parse := fun _ : jstring =>
    Some {| protocol := lit "https:"; host := lit "lodash.com"; pathname := lit "/docs" |} in
  exists links,
    extractLinks parse None lodashPage (lit "https://lodash.com/docs") = Some links
    /\ Forall (fun link =>
                 startsWith (lit "http") link = true
                 \/ startsWith (lit "https:" ++ lit "//" ++ lit "lodash.com") link = true)
              links.
Proof.
  intros parse.
  exact (links_absolute_or_on_host parse None lodashPage (lit "https://lodash.com/docs")
           {| protocol := lit "https:"; host := lit "lodash.com"; pathname := lit "/docs" |}
           eq_refl).
Defined.

End ScrapePageFacts.
